(** * Audio player: buffering, underflow/overflow policy and clock compensation

    A shallow embedding of [app/src/audio_player.c]: the SDL pull callback
    [sc_audio_player_sdl_callback], the scratch-buffer helper
    [sc_audio_player_get_swr_buf], the producer entry point
    [sc_audio_player_frame_sink_push], and [open] and [close] with the
    resources they acquire and release; and of the big-endian reader
    [from_be] of [app/src/decoder.c].

    Machine integers are [Z] with their wrap-around written out, the
    [float] of the moving average is IEEE-754 binary32 ([SpecFloat] at
    precision 24), buffers are lists of bytes.  The resampler and the
    allocator are outside the program: what they answer during one push is
    an input of the push ([swr_io]), and what the push asks of the device
    lock and of the resampler is its output (a list of [event]s).

    The producer thread and the device thread meet at the device lock, so
    [push] is cut where the lock is taken and released ([push_resample],
    [push_locked], [push_resync]); a session is any interleaving of these
    parts with callbacks ([step], [run]), and
    [sc_audio_player_frame_sink_push] is the three parts in a row.

    The properties are proved for states that satisfy [player_ok], which
    [open] establishes ([open_ok]) and every step preserves ([step_ok]). *)

From Stdlib Require Import ZArith List Bool Lia.
From Stdlib Require Import Floats.SpecFloat.
From Stdlib Require Import Init.Byte.
From Stdlib Require Strings.Byte.
Import ListNotations.
Local Open Scope Z_scope.

(** ** C integer types *)

Definition u32 (x : Z) : Z := x mod 2 ^ 32.
Definition i32 (x : Z) : Z := (x + 2 ^ 31) mod 2 ^ 32 - 2 ^ 31.
Definition size_t (x : Z) : Z := x mod 2 ^ 64.

Definition INT_MIN : Z := - 2 ^ 31.
Definition INT_MAX : Z := 2 ^ 31 - 1.

(** Modelled from the spec: the macros [MIN], [MAX] and [CLAMP] come from a
    header that is not among the sources; the spec reads them as the
    minimum, the maximum and "clamp [V] to the range [X..Y]", written here
    as the usual conditional expressions. *)
Definition MIN (x y : Z) : Z := if x <? y then x else y.
Definition MAX (x y : Z) : Z := if x >? y then x else y.
Definition CLAMP (v x y : Z) : Z := MIN (MAX v x) y.

(** ** C [float] (IEEE-754 binary32) *)

Definition float32 : Type := spec_float.

Definition f32_prec : Z := 24.
Definition f32_emax : Z := 128.

Definition f32_zero : float32 := S754_zero false.
Definition f32_add : float32 -> float32 -> float32 := SFadd f32_prec f32_emax.
Definition f32_sub : float32 -> float32 -> float32 := SFsub f32_prec f32_emax.
Definition f32_mul : float32 -> float32 -> float32 := SFmul f32_prec f32_emax.
Definition f32_div : float32 -> float32 -> float32 := SFdiv f32_prec f32_emax.

(** Conversion of an integer to [float], rounding to nearest even. *)
Definition f32_of_Z (n : Z) : float32 :=
  binary_normalize f32_prec f32_emax n 0 false.

(** Conversion of a [float] to [int]: the fractional part is discarded.
    C leaves the conversion undefined when the value does not fit (or is
    not a number); the model answers [INT_MIN] there, which is what the
    x86 conversion instruction produces. *)
Definition f32_to_int (x : float32) : Z :=
  match x with
  | S754_zero _ => 0
  | S754_finite s m e =>
      let mag := Z.shiftl (Zpos m) e in
      let v := if s then - mag else mag in
      if (INT_MIN <=? v) && (v <=? INT_MAX) then v else INT_MIN
  | S754_infinity _ | S754_nan => INT_MIN
  end.

(** ** Byte buffers *)

(** [blit dst off src] is [dst] after [memcpy(dst + off, src, |src|)]. *)
Definition blit (dst : list byte) (off : nat) (src : list byte) : list byte :=
  firstn off dst ++ src ++ skipn (off + length src) dst.

(** [memset(s + off, 0, n)] *)
Definition memset0 (s : list byte) (off n : Z) : list byte :=
  blit s (Z.to_nat off) (repeat x00 (Z.to_nat n)).

(** [slice l off n] is the [n] bytes of [l] from offset [off]. *)
Definition slice (l : list byte) (off n : nat) : list byte :=
  firstn n (skipn off l).

(** ** The sample ring *)

(** Modelled from the spec: [sc_audiobuf] and its operations (the
    "SampleRing" of the spec) live in [util/audiobuf.h], which is not
    among the sources.  The spec gives the ring a sample size, a capacity in
    samples, a producer cursor and a consumer cursor that advance
    monotonically and are taken modulo the capacity to find a slot; the
    readable samples are those between the two cursors, and
    [can_read + can_write = capacity]. *)
Record sc_audiobuf : Type := mk_audiobuf {
  ab_data : list byte;      (* capacity * sample_size bytes *)
  ab_capacity : Z;          (* samples *)
  ab_sample_size : Z;       (* bytes per sample *)
  ab_head : Z;              (* producer cursor: samples published so far *)
  ab_tail : Z               (* consumer cursor: samples consumed so far *)
}.

Definition sc_audiobuf_to_samples (b : sc_audiobuf) (bytes : Z) : Z :=
  u32 (bytes / ab_sample_size b).

Definition sc_audiobuf_to_bytes (b : sc_audiobuf) (samples : Z) : Z :=
  size_t (samples * ab_sample_size b).

Definition sc_audiobuf_capacity (b : sc_audiobuf) : Z := ab_capacity b.

Definition sc_audiobuf_can_read (b : sc_audiobuf) : Z := ab_head b - ab_tail b.

Definition sc_audiobuf_can_write (b : sc_audiobuf) : Z :=
  ab_capacity b - sc_audiobuf_can_read b.

Definition sc_audiobuf_init (sample_size capacity : Z) : sc_audiobuf :=
  {| ab_data := repeat x00 (Z.to_nat (capacity * sample_size));
     ab_capacity := capacity;
     ab_sample_size := sample_size;
     ab_head := 0;
     ab_tail := 0 |}.

(** Byte offset of the slot a cursor designates. *)
Definition ab_offset (b : sc_audiobuf) (cursor : Z) : nat :=
  Z.to_nat ((cursor mod ab_capacity b) * ab_sample_size b).

(** Number of bytes of an [n]-sample transfer starting at [cursor] that fit
    before the end of the storage (the first of the two segments). *)
Definition ab_first_segment (b : sc_audiobuf) (cursor n : Z) : nat :=
  Nat.min (Z.to_nat (n * ab_sample_size b))
          (Z.to_nat (ab_capacity b * ab_sample_size b) - ab_offset b cursor).

Definition ab_set_data (b : sc_audiobuf) (d : list byte) : sc_audiobuf :=
  {| ab_data := d; ab_capacity := ab_capacity b;
     ab_sample_size := ab_sample_size b;
     ab_head := ab_head b; ab_tail := ab_tail b |}.

Definition ab_set_head (b : sc_audiobuf) (h : Z) : sc_audiobuf :=
  {| ab_data := ab_data b; ab_capacity := ab_capacity b;
     ab_sample_size := ab_sample_size b;
     ab_head := h; ab_tail := ab_tail b |}.

Definition ab_set_tail (b : sc_audiobuf) (t : Z) : sc_audiobuf :=
  {| ab_data := ab_data b; ab_capacity := ab_capacity b;
     ab_sample_size := ab_sample_size b;
     ab_head := ab_head b; ab_tail := t |}.

(** [prepare_write(src, n)]: copy [n] samples into the write region, the
    producer cursor stays where it is. *)
Definition sc_audiobuf_prepare_write (b : sc_audiobuf) (from : list byte)
    (samples : Z) : sc_audiobuf :=
  let bytes := firstn (Z.to_nat (samples * ab_sample_size b)) from in
  let first := ab_first_segment b (ab_head b) samples in
  ab_set_data b
    (blit (blit (ab_data b) (ab_offset b (ab_head b)) (firstn first bytes))
          0 (skipn first bytes)).

(** [commit_write(n)]: publish [n] prepared samples. *)
Definition sc_audiobuf_commit_write (b : sc_audiobuf) (samples : Z)
    : sc_audiobuf :=
  ab_set_head b (ab_head b + samples).

(** [write(src, n)]: prepare, then commit. *)
Definition sc_audiobuf_write (b : sc_audiobuf) (from : list byte)
    (samples : Z) : sc_audiobuf :=
  sc_audiobuf_commit_write (sc_audiobuf_prepare_write b from samples) samples.

(** The bytes of the [n] oldest readable samples. *)
Definition ab_peek (b : sc_audiobuf) (samples : Z) : list byte :=
  let first := ab_first_segment b (ab_tail b) samples in
  slice (ab_data b) (ab_offset b (ab_tail b)) first
  ++ slice (ab_data b) 0 (Z.to_nat (samples * ab_sample_size b) - first).

(** The readable bytes of the ring, oldest first. *)
Definition ab_content (b : sc_audiobuf) : list byte :=
  ab_peek b (sc_audiobuf_can_read b).

(** [skip(n)]: drop the [n] oldest readable samples. *)
Definition sc_audiobuf_skip (b : sc_audiobuf) (samples : Z) : sc_audiobuf :=
  ab_set_tail b (ab_tail b + samples).

(** [read(dst, n)]: copy the [n] oldest readable samples to the start of
    [to] and consume them. *)
Definition sc_audiobuf_read (b : sc_audiobuf) (to : list byte) (samples : Z)
    : sc_audiobuf * list byte :=
  (sc_audiobuf_skip b samples, blit to 0 (ab_peek b samples)).

(** ** The moving average *)

(** Modelled from the spec: [sc_average] ([util/average.c] is not among the
    sources) "stores a running mean [avg] updated as each new observation
    arrives" over a window of [range] observations, and exposes [avg] as a
    field the player adjusts directly. *)
Record sc_average : Type := mk_average {
  avg : float32;
  range : Z;
  count : Z
}.

Definition sc_average_init (r : Z) : sc_average :=
  {| avg := f32_zero; range := r; count := 0 |}.

Definition sc_average_push (a : sc_average) (value : float32) : sc_average :=
  let c := if count a <? range a then count a + 1 else count a in
  {| avg := f32_div (f32_add (f32_mul (f32_of_Z (c - 1)) (avg a)) value)
                    (f32_of_Z c);
     range := range a;
     count := c |}.

Definition sc_average_get (a : sc_average) : float32 := avg a.

Definition average_set_avg (a : sc_average) (v : float32) : sc_average :=
  {| avg := v; range := range a; count := count a |}.

(** ** The player *)

(** Modelled from the spec: [struct sc_audio_player] is declared in
    [audio_player.h], which is not among the sources; the fields are those
    the spec lists as the playback state and the ones [audio_player.c]
    reads and writes.  The device handle and the resampler context are
    outside the model (see [swr_io] and [event]); of the scratch buffer
    only the allocated size is state, its content is produced anew by the
    resampler at every push. *)
Record sc_audio_player : Type := mk_audio_player {
  target_buffering : Z;          (* uint32_t, samples *)
  buf : sc_audiobuf;
  previous_can_write : Z;        (* uint32_t *)
  sample_rate : Z;               (* unsigned *)
  nb_channels : Z;               (* unsigned *)
  out_bytes_per_sample : Z;      (* unsigned *)
  swr_buf_alloc_size : Z;        (* size_t, bytes *)
  avg_buffering : sc_average;
  samples_since_resync : Z;      (* uint32_t *)
  received : bool;
  played : bool
}.

Definition set_buf (ap : sc_audio_player) (b : sc_audiobuf) : sc_audio_player :=
  mk_audio_player (target_buffering ap) b (previous_can_write ap)
    (sample_rate ap) (nb_channels ap) (out_bytes_per_sample ap)
    (swr_buf_alloc_size ap) (avg_buffering ap) (samples_since_resync ap)
    (received ap) (played ap).

Definition set_previous_can_write (ap : sc_audio_player) (n : Z)
    : sc_audio_player :=
  mk_audio_player (target_buffering ap) (buf ap) n
    (sample_rate ap) (nb_channels ap) (out_bytes_per_sample ap)
    (swr_buf_alloc_size ap) (avg_buffering ap) (samples_since_resync ap)
    (received ap) (played ap).

Definition set_swr_buf_alloc_size (ap : sc_audio_player) (n : Z)
    : sc_audio_player :=
  mk_audio_player (target_buffering ap) (buf ap) (previous_can_write ap)
    (sample_rate ap) (nb_channels ap) (out_bytes_per_sample ap)
    n (avg_buffering ap) (samples_since_resync ap)
    (received ap) (played ap).

Definition set_avg_buffering (ap : sc_audio_player) (a : sc_average)
    : sc_audio_player :=
  mk_audio_player (target_buffering ap) (buf ap) (previous_can_write ap)
    (sample_rate ap) (nb_channels ap) (out_bytes_per_sample ap)
    (swr_buf_alloc_size ap) a (samples_since_resync ap)
    (received ap) (played ap).

Definition set_samples_since_resync (ap : sc_audio_player) (n : Z)
    : sc_audio_player :=
  mk_audio_player (target_buffering ap) (buf ap) (previous_can_write ap)
    (sample_rate ap) (nb_channels ap) (out_bytes_per_sample ap)
    (swr_buf_alloc_size ap) (avg_buffering ap) n
    (received ap) (played ap).

Definition set_received (ap : sc_audio_player) (r : bool) : sc_audio_player :=
  mk_audio_player (target_buffering ap) (buf ap) (previous_can_write ap)
    (sample_rate ap) (nb_channels ap) (out_bytes_per_sample ap)
    (swr_buf_alloc_size ap) (avg_buffering ap) (samples_since_resync ap)
    r (played ap).

Definition set_played (ap : sc_audio_player) (p : bool) : sc_audio_player :=
  mk_audio_player (target_buffering ap) (buf ap) (previous_can_write ap)
    (sample_rate ap) (nb_channels ap) (out_bytes_per_sample ap)
    (swr_buf_alloc_size ap) (avg_buffering ap) (samples_since_resync ap)
    (received ap) p.

(** [ap->avg_buffering.avg += d], in [float] arithmetic. *)
Definition avg_add (ap : sc_audio_player) (d : Z) : sc_audio_player :=
  set_avg_buffering ap
    (average_set_avg (avg_buffering ap)
       (f32_add (avg (avg_buffering ap)) (f32_of_Z d))).

(** [ap->avg_buffering.avg -= d], in [float] arithmetic. *)
Definition avg_sub (ap : sc_audio_player) (d : Z) : sc_audio_player :=
  set_avg_buffering ap
    (average_set_avg (avg_buffering ap)
       (f32_sub (avg (avg_buffering ap)) (f32_of_Z d))).

Definition SC_AUDIO_OUTPUT_BUFFER_MS : Z := 5.

Definition TO_BYTES (ap : sc_audio_player) (samples : Z) : Z :=
  sc_audiobuf_to_bytes (buf ap) samples.

Definition TO_SAMPLES (ap : sc_audio_player) (bytes : Z) : Z :=
  sc_audiobuf_to_samples (buf ap) bytes.

(** *** The pull callback *)

(** [sc_audio_player_sdl_callback(userdata, stream, len_int)]: the result
    is the player afterwards and the content of [stream] afterwards.  The
    device runs it with its lock held. *)
Definition sc_audio_player_sdl_callback (ap : sc_audio_player)
    (stream : list byte) (len_int : Z) : sc_audio_player * list byte :=
  let len := size_t len_int in
  let count := TO_SAMPLES ap len in
  let buffered_samples := u32 (sc_audiobuf_can_read (buf ap)) in
  let margin := u32 (30 * sample_rate ap) / 1000 in
  if negb (played ap)
     && (u32 (buffered_samples + margin) <? target_buffering ap)
  then
    (* initial buffering: the whole buffer is silence, [played] untouched *)
    (ap, memset0 stream 0 len)
  else
    let read := MIN buffered_samples count in
    let '(b1, stream1) :=
      if read =? 0 then (buf ap, stream)
      else sc_audiobuf_read (buf ap) stream read in
    let ap1 := set_buf ap b1 in
    let '(ap2, stream2) :=
      if read <? count then
        let silence := u32 (count - read) in
        (* [memset(stream + read, 0, TO_BYTES(silence))]: [stream] points
           to bytes, so the fill starts [read] bytes in *)
        let stream2 := memset0 stream1 read (TO_BYTES ap silence) in
        ((if received ap1 then avg_add ap1 silence else ap1), stream2)
      else (ap1, stream1) in
    (set_played ap2 true, stream2).

(** *** The producer *)

(** What the outside answers during one push: the delay the resampler
    reports, whether [realloc] succeeds should it be called, the value
    [swr_convert] returns and the bytes it leaves in the scratch buffer. *)
Record swr_io : Type := mk_swr_io {
  swr_get_delay : Z;          (* int64_t *)
  realloc_ok : bool;
  swr_convert : Z;            (* int: negative on failure *)
  swr_convert_out : list byte
}.

(** The part of [AVFrame] the player reads itself. *)
Record AVFrame : Type := mk_frame { nb_samples : Z (* int *) }.

(** What a push asks of the outside, in order. *)
Inductive event : Type :=
| SDL_LockAudioDevice
| SDL_UnlockAudioDevice
| swr_set_compensation (diff distance : Z).

(** [sc_audio_player_get_swr_buf(ap, min_samples)]: the player afterwards,
    and whether the result is a buffer ([true]) or [NULL] ([false]). *)
Definition sc_audio_player_get_swr_buf (ap : sc_audio_player)
    (min_samples : Z) (can_realloc : bool) : sc_audio_player * bool :=
  let min_buf_size := TO_BYTES ap min_samples in
  if min_buf_size >? swr_buf_alloc_size ap then
    let new_size := size_t (min_buf_size + 4096) in
    if negb can_realloc then (ap, false)
    else (set_swr_buf_alloc_size ap new_size, true)
  else (ap, true).

(** Locals of [push] that are live when the device lock is taken. *)
Record resampled : Type := mk_resampled {
  r_swr_buf : list byte;        (* the bytes at [swr_buf] *)
  r_samples_written : Z;        (* uint32_t *)
  r_lockless_write : bool;
  r_nb_samples : Z              (* frame->nb_samples *)
}.

(** Locals of [push] that are live after the lock is released. *)
Record unlocked : Type := mk_unlocked {
  u_samples_written : Z;        (* uint32_t *)
  u_buffered_samples : Z;       (* uint32_t *)
  u_played : bool
}.

(** [push], lines 100-132: the resampling and the lock-free copy, before
    the lock is taken.  [None] is the [return false] of the two failures. *)
Definition push_resample (ap : sc_audio_player) (frame : AVFrame)
    (io : swr_io) : sc_audio_player * option resampled :=
  let swr_delay := swr_get_delay io in
  let dst_nb_samples := i32 (swr_delay + nb_samples frame + 256) in
  let '(ap1, swr_buf) :=
    sc_audio_player_get_swr_buf ap (u32 dst_nb_samples) (realloc_ok io) in
  if negb swr_buf then (ap1, None)
  else
    let ret := swr_convert io in
    if ret <? 0 then (ap1, None)
    else
      let samples_written := u32 (MIN ret dst_nb_samples) in
      let lockless_write := samples_written <=? previous_can_write ap1 in
      let ap2 :=
        if lockless_write then
          set_buf ap1 (sc_audiobuf_prepare_write (buf ap1)
                         (swr_convert_out io) samples_written)
        else ap1 in
      (ap2, Some {| r_swr_buf := swr_convert_out io;
                    r_samples_written := samples_written;
                    r_lockless_write := lockless_write;
                    r_nb_samples := nb_samples frame |}).

(** [push], lines 136-179, with the lock held: the new samples enter the
    ring, by the commit of the prepared write or by the slow path that
    makes room first.  The result carries the local [samples_written]
    (clamped to the capacity on the slow path) and the local
    [buffered_samples]. *)
Definition push_store (ap : sc_audio_player) (r : resampled)
    : sc_audio_player * Z * Z :=
  let buffered_samples := u32 (sc_audiobuf_can_read (buf ap)) in
  let '(ap1, samples_written, buffered_samples) :=
    if r_lockless_write r then
      (set_buf ap (sc_audiobuf_commit_write (buf ap) (r_samples_written r)),
       r_samples_written r, buffered_samples)
    else
      let can_write := u32 (sc_audiobuf_can_write (buf ap)) in
      let '(ap1, swr_buf, samples_written, buffered_samples) :=
        if r_samples_written r >? can_write then
          let cap := u32 (sc_audiobuf_capacity (buf ap)) in
          let '(swr_buf, samples_written) :=
            if r_samples_written r >? cap then
              (skipn (Z.to_nat (TO_BYTES ap (u32 (r_samples_written r - cap))))
                     (r_swr_buf r),
               cap)
            else (r_swr_buf r, r_samples_written r) in
          if samples_written >? can_write then
            let skip_samples := u32 (samples_written - can_write) in
            let ap1 := set_buf ap (sc_audiobuf_skip (buf ap) skip_samples) in
            let buffered_samples := u32 (buffered_samples - skip_samples) in
            let ap2 := if played ap1 then avg_sub ap1 skip_samples else ap1 in
            (ap2, swr_buf, samples_written, buffered_samples)
          else (ap, swr_buf, samples_written, buffered_samples)
        else (ap, r_swr_buf r, r_samples_written r, buffered_samples) in
      (set_buf ap1 (sc_audiobuf_write (buf ap1) swr_buf samples_written),
       samples_written, buffered_samples) in
  (ap1, samples_written, u32 (buffered_samples + samples_written)).

(** [assert(c)] in front of the rest of the computation: [None] is the
    failed assertion. *)
Definition asserting {A : Type} (c : bool) (k : option A) : option A :=
  if c then k else None.

(** [push], lines 136-179 again, this time with the four assertions of
    the source (lines 158, 161, 172 and 179) checked on the way. *)
Definition push_store_checked (ap : sc_audio_player) (r : resampled)
    : option (sc_audio_player * Z * Z) :=
  let buffered_samples := u32 (sc_audiobuf_can_read (buf ap)) in
  let stored :=
    if r_lockless_write r then
      Some (set_buf ap
              (sc_audiobuf_commit_write (buf ap) (r_samples_written r)),
            r_samples_written r, buffered_samples)
    else
      let can_write := u32 (sc_audiobuf_can_write (buf ap)) in
      let room :=
        if r_samples_written r >? can_write then
          let cap := u32 (sc_audiobuf_capacity (buf ap)) in
          let '(swr_buf, samples_written) :=
            if r_samples_written r >? cap then
              (skipn (Z.to_nat (TO_BYTES ap (u32 (r_samples_written r - cap))))
                     (r_swr_buf r),
               cap)
            else (r_swr_buf r, r_samples_written r) in
          asserting (samples_written >=? can_write)
            (let skipped :=
               if samples_written >? can_write then
                 let skip_samples := u32 (samples_written - can_write) in
                 asserting (buffered_samples >=? skip_samples)
                   (let ap1 :=
                      set_buf ap (sc_audiobuf_skip (buf ap) skip_samples) in
                    let buffered_samples :=
                      u32 (buffered_samples - skip_samples) in
                    let ap2 :=
                      if played ap1 then avg_sub ap1 skip_samples else ap1 in
                    Some (ap2, buffered_samples))
               else Some (ap, buffered_samples) in
             match skipped with
             | Some (ap2, buffered_samples) =>
                 asserting
                   (u32 (sc_audiobuf_can_write (buf ap2)) =? samples_written)
                   (Some (ap2, swr_buf, samples_written, buffered_samples))
             | None => None
             end)
        else Some (ap, r_swr_buf r, r_samples_written r, buffered_samples) in
      match room with
      | Some (ap1, swr_buf, samples_written, buffered_samples) =>
          Some (set_buf ap1
                  (sc_audiobuf_write (buf ap1) swr_buf samples_written),
                samples_written, buffered_samples)
      | None => None
      end in
  match stored with
  | Some (ap1, samples_written, buffered_samples) =>
      let buffered_samples := u32 (buffered_samples + samples_written) in
      asserting (buffered_samples =? u32 (sc_audiobuf_can_read (buf ap1)))
        (Some (ap1, samples_written, buffered_samples))
  | None => None
  end.

(** The two buffering caps. *)
Definition max_buffered_samples (ap : sc_audio_player) : Z :=
  u32 (u32 (target_buffering ap
            + u32 (12 * SC_AUDIO_OUTPUT_BUFFER_MS * sample_rate ap) / 1000)
       + target_buffering ap / 10).

Definition max_initial_buffering (ap : sc_audio_player) : Z :=
  u32 (target_buffering ap
       + u32 (2 * SC_AUDIO_OUTPUT_BUFFER_MS * sample_rate ap) / 1000).

(** [push], lines 182-225, still with the lock held: the cap on the
    buffering, the update of the average, and the two producer fields. *)
Definition push_bound (ap : sc_audio_player) (nb : Z)
    (samples_written buffered_samples : Z) : sc_audio_player * unlocked :=
  let played_ := played ap in
  let ap1 :=
    if played_ then
      let ap1 :=
        if buffered_samples >? max_buffered_samples ap then
          let skip_samples := u32 (buffered_samples - max_buffered_samples ap) in
          set_buf ap (sc_audiobuf_skip (buf ap) skip_samples)
        else ap in
      let instant_compensation := i32 (i32 samples_written - nb) in
      let ap2 := avg_add ap1 instant_compensation in
      set_avg_buffering ap2
        (sc_average_push (avg_buffering ap2) (f32_of_Z buffered_samples))
    else
      if buffered_samples >? max_initial_buffering ap then
        let skip_samples := u32 (buffered_samples - max_initial_buffering ap) in
        set_buf ap (sc_audiobuf_skip (buf ap) skip_samples)
      else ap in
  let ap2 :=
    set_previous_can_write ap1 (u32 (sc_audiobuf_can_write (buf ap1))) in
  (set_received ap2 true,
   {| u_samples_written := samples_written;
      u_buffered_samples := buffered_samples;
      u_played := played_ |}).

(** [push], lines 136-225: everything between [SDL_LockAudioDevice] and
    [SDL_UnlockAudioDevice]. *)
Definition push_locked (ap : sc_audio_player) (r : resampled)
    : sc_audio_player * unlocked :=
  let '(ap1, samples_written, buffered_samples) := push_store ap r in
  push_bound ap1 (r_nb_samples r) samples_written buffered_samples.

(** [push], lines 229-257, after the lock is released: the count of the
    samples since the last resynchronisation and, once a second, the new
    compensation.  A failure of [swr_set_compensation] is only logged. *)
Definition push_resync (ap : sc_audio_player) (u : unlocked)
    : sc_audio_player * list event :=
  if u_played u then
    let ap1 :=
      set_samples_since_resync ap
        (u32 (samples_since_resync ap + u_samples_written u)) in
    if samples_since_resync ap1 >=? sample_rate ap1 then
      let ap2 := set_samples_since_resync ap1 0 in
      let avg_ := sc_average_get (avg_buffering ap2) in
      let diff :=
        f32_to_int (f32_sub (f32_of_Z (target_buffering ap2)) avg_) in
      let diff :=
        if (diff <? 0) && (u_buffered_samples u <? target_buffering ap2)
        then 0 else diff in
      let distance := i32 (u32 (4 * sample_rate ap2)) in
      let abs_max_diff := Z.quot distance 50 in
      let diff := CLAMP diff (- abs_max_diff) abs_max_diff in
      (ap2, [swr_set_compensation diff distance])
    else (ap1, [])
  else (ap, []).

(** [sc_audio_player_frame_sink_push(sink, frame)] run without a callback
    in between: the player afterwards, the returned boolean, and what was
    asked of the device lock and of the resampler. *)
Definition sc_audio_player_frame_sink_push (ap : sc_audio_player)
    (frame : AVFrame) (io : swr_io)
    : sc_audio_player * bool * list event :=
  match push_resample ap frame io with
  | (ap1, None) => (ap1, false, [])
  | (ap1, Some r) =>
      let '(ap2, u) := push_locked ap1 r in
      let '(ap3, evs) := push_resync ap2 u in
      (ap3, true, SDL_LockAudioDevice :: SDL_UnlockAudioDevice :: evs)
  end.

(** *** Opening the session *)

(** What the outside answers during [open]: whether the device opens,
    whether the resampler context is allocated and initialised, whether
    the ring and the scratch buffer are allocated. *)
Record open_io : Type := mk_open_io {
  device_opened : bool;
  swr_allocated : bool;
  swr_initialized : bool;
  audiobuf_allocated : bool;
  swr_buf_allocated : bool
}.

Section Open.

(** The number of ticks in a second: the constant comes from a header
    that is not among the sources. *)
Variable SC_TICK_FREQ : Z.

(** [sc_audio_player_frame_sink_open(sink, ctx)], for a player that
    [sc_audio_player_init] gave [target_buffering_delay]: [None] is the
    [return false] of the failures, the state is the one lines 325-360
    set up. *)
Definition sc_audio_player_frame_sink_open (target_buffering_delay : Z)
    (ctx_sample_rate ctx_nb_channels bytes_per_sample : Z) (io : open_io)
    : option sc_audio_player :=
  if negb (device_opened io) then None
  else if negb (swr_allocated io) then None
  else if negb (swr_initialized io) then None
  else
    let sample_rate_ := u32 ctx_sample_rate in
    let nb_channels_ := u32 ctx_nb_channels in
    let out_bytes_per_sample_ := u32 bytes_per_sample in
    let target_buffering_ :=
      u32 (Z.quot (target_buffering_delay * sample_rate_) SC_TICK_FREQ) in
    let audiobuf_samples := u32 (target_buffering_ + sample_rate_) in
    let sample_size := u32 (nb_channels_ * out_bytes_per_sample_) in
    if negb (audiobuf_allocated io) then None
    else
      let b := sc_audiobuf_init sample_size audiobuf_samples in
      if negb (swr_buf_allocated io) then None
      else
        Some {| target_buffering := target_buffering_;
                buf := b;
                previous_can_write := u32 (sc_audiobuf_can_write b);
                sample_rate := sample_rate_;
                nb_channels := nb_channels_;
                out_bytes_per_sample := out_bytes_per_sample_;
                swr_buf_alloc_size := sc_audiobuf_to_bytes b 4096;
                avg_buffering := sc_average_init 32;
                samples_since_resync := 0;
                received := false;
                played := false |}.

End Open.

(** *** The resources of [open] and [close] *)







(** *** Producer and device thread together *)

(** Where the producer stands: outside [push], between the resampling and
    the lock, or between the unlock and the end of [push]. *)
Inductive producer : Type :=
| Idle
| Resampled (r : resampled)
| Unlocked (u : unlocked).

(** One atomic step of the session: the device runs the callback (at any
    time the lock is free), or the producer runs its next part of [push]. *)
Inductive action : Type :=
| Callback (stream : list byte) (len_int : Z)
| PushResample (frame : AVFrame) (io : swr_io)
| PushLocked
| PushResync.

Definition session : Type := (sc_audio_player * producer)%type.

(** A step that is not enabled where the producer stands is no step. *)
Definition step (s : session) (a : action) : session :=
  match a, snd s with
  | Callback stream len_int, p =>
      (fst (sc_audio_player_sdl_callback (fst s) stream len_int), p)
  | PushResample frame io, Idle =>
      match push_resample (fst s) frame io with
      | (ap1, None) => (ap1, Idle)
      | (ap1, Some r) => (ap1, Resampled r)
      end
  | PushLocked, Resampled r =>
      let '(ap1, u) := push_locked (fst s) r in (ap1, Unlocked u)
  | PushResync, Unlocked u =>
      (fst (push_resync (fst s) u), Idle)
  | _, _ => s
  end.

Definition run (s : session) (l : list action) : session :=
  fold_left step l s.

(** ** Well-formed states *)

(** The cursors of a ring delimit between zero and [capacity] samples. *)
Definition audiobuf_ok (b : sc_audiobuf) : Prop :=
  0 < ab_sample_size b
  /\ 0 <= ab_tail b <= ab_head b
  /\ ab_head b - ab_tail b <= ab_capacity b
  /\ ab_capacity b < 2 ^ 32.

(** A ring with room for at least one sample whose storage has the size
    its capacity asks for. *)
Definition audiobuf_data_ok (b : sc_audiobuf) : Prop :=
  audiobuf_ok b
  /\ 0 < ab_capacity b
  /\ length (ab_data b) = Z.to_nat (ab_capacity b * ab_sample_size b).

(** The rate and the target are such that the 32-bit computations of the
    player do not wrap. *)
Definition config_ok (ap : sc_audio_player) : Prop :=
  0 < sample_rate ap
  /\ 60 * sample_rate ap < 2 ^ 32
  /\ 0 <= target_buffering ap
  /\ target_buffering ap + 60 * sample_rate ap / 1000
       + target_buffering ap / 10 < 2 ^ 32
  /\ ab_capacity (buf ap) + sample_rate ap < 2 ^ 32.

(** What holds of the player between any two steps. *)
Definition player_ok (ap : sc_audio_player) : Prop :=
  audiobuf_ok (buf ap)
  /\ config_ok ap
  /\ 0 <= previous_can_write ap <= sc_audiobuf_can_write (buf ap)
  /\ 0 <= samples_since_resync ap < sample_rate ap.

(** What holds of the locals of a push that waits for the lock. *)
Definition resampled_ok (ap : sc_audio_player) (r : resampled) : Prop :=
  0 <= r_samples_written r < 2 ^ 32
  /\ r_lockless_write r = (r_samples_written r <=? previous_can_write ap).

(** What holds of the locals of a push that has released the lock. *)
Definition unlocked_ok (ap : sc_audio_player) (u : unlocked) : Prop :=
  0 <= u_samples_written u <= ab_capacity (buf ap).

Definition producer_ok (ap : sc_audio_player) (p : producer) : Prop :=
  match p with
  | Idle => True
  | Resampled r => resampled_ok ap r
  | Unlocked u => unlocked_ok ap u
  end.

Definition session_ok (s : session) : Prop :=
  player_ok (fst s) /\ producer_ok (fst s) (snd s).

(** The fields that only [open] sets. *)
Definition same_config (a b : sc_audio_player) : Prop :=
  target_buffering a = target_buffering b
  /\ sample_rate a = sample_rate b
  /\ ab_capacity (buf a) = ab_capacity (buf b)
  /\ ab_sample_size (buf a) = ab_sample_size (buf b).

(** The caps of the spec, over the integers. *)
Definition max_buffered (ap : sc_audio_player) : Z :=
  target_buffering ap + 12 * 5 * sample_rate ap / 1000
  + target_buffering ap / 10.

Definition max_initial (ap : sc_audio_player) : Z :=
  target_buffering ap + 2 * 5 * sample_rate ap / 1000.

(** The cap that applies, by the value of [played] under the lock. *)
Definition buffering_cap (ap : sc_audio_player) : Z :=
  if played ap then max_buffered ap else max_initial ap.

(** The test that sends the callback into its initial-buffering branch. *)
Definition initial_silence (ap : sc_audio_player) : bool :=
  negb (played ap)
  && (u32 (u32 (sc_audiobuf_can_read (buf ap))
           + u32 (30 * sample_rate ap) / 1000)
      <? target_buffering ap).

(** The compensation as the sentence "diff = target_buffering - avg, clamped
    to the range of distance / 50, with distance = 4 * sample_rate" reads. *)
Definition compensation_as_claimed (ap : sc_audio_player) : Z * Z :=
  let distance := 4 * sample_rate ap in
  let diff :=
    f32_to_int (f32_sub (f32_of_Z (target_buffering ap))
                        (avg (avg_buffering ap))) in
  (CLAMP diff (- (distance / 50)) (distance / 50), distance).

(** ** Example sessions *)

(** A mono [float] player at 48 kHz: the ring holds [target + 48000]
    samples of 4 bytes, [buffered] of them readable, the average stands at
    [a] with a full window. *)
Definition ex_player (target buffered : Z) (a : float32) (ssr : Z)
    (rcv pl : bool) : sc_audio_player :=
  let cap := target + 48000 in
  {| target_buffering := target;
     buf := {| ab_data := repeat x00 (Z.to_nat (cap * 4));
               ab_capacity := cap;
               ab_sample_size := 4;
               ab_head := buffered;
               ab_tail := 0 |};
     previous_can_write := cap - buffered;
     sample_rate := 48000;
     nb_channels := 1;
     out_bytes_per_sample := 4;
     swr_buf_alloc_size := 16384;
     avg_buffering := {| avg := a; range := 32; count := 32 |};
     samples_since_resync := ssr;
     received := rcv;
     played := pl |}.

(** A resampler that returns [n] samples for a frame, with no delay. *)
Definition ex_io (n : Z) : swr_io :=
  {| swr_get_delay := 0;
     realloc_ok := true;
     swr_convert := n;
     swr_convert_out := repeat x01 (Z.to_nat (n * 4)) |}.

(** The buffer the device hands to the callback, with stale content. *)
Definition ex_stream (len : Z) : list byte := repeat xaa (Z.to_nat len).

(** A mono [float] player at 48 kHz right after a successful [open], for a
    target given in microseconds. *)
Definition ex_opened (delay : Z) : sc_audio_player :=
  match sc_audio_player_frame_sink_open 1000000 delay 48000 1 4
          (mk_open_io true true true true true) with
  | Some ap => ap
  | None => ex_player 0 0 f32_zero 0 false false
  end.

(** A whole push of a frame of [n] samples. *)
Definition ex_push (n : Z) : list action :=
  [PushResample (mk_frame n) (ex_io n); PushLocked; PushResync].

(** A session with a target of 50 ms in which a burst is followed by a
    drain: three frames of 960 samples, the callback that starts the
    playback, 49 more frames with no callback in between (the ring stays
    at its cap, the average climbs), then 21 callbacks of 240 samples. *)
Definition ex_burst : session :=
  run (ex_opened 50000, Idle)
    (concat (repeat (ex_push 960) 3)
     ++ [Callback (ex_stream 960) 960]
     ++ concat (repeat (ex_push 960) 49)
     ++ repeat (Callback (ex_stream 960) 960) 21).

(** A session with a target of 50 ms: a first frame of 960 samples, four
    callbacks of 240 samples that play it, then a frame of 100 samples. *)
Definition ex_session : session :=
  run (ex_opened 50000, Idle)
    (ex_push 960
     ++ [Callback (ex_stream 960) 960; Callback (ex_stream 960) 960;
         Callback (ex_stream 960) 960; Callback (ex_stream 960) 960]
     ++ ex_push 100).

(** ** The decoder: big-endian fields *)

Definition u64 (x : Z) : Z := x mod 2 ^ 64.

Definition byte_val (c : byte) : Z := Z.of_N (Strings.Byte.to_N c).

(** [from_be(b, size)] of [decoder.c]: the loop shifts the [uint64_t]
    accumulator by one byte and ors the next of the first [size] bytes at
    [b] into it.  [b] holds the bytes from the pointer on; the function
    expects [size] of them to be there. *)
Definition from_be (b : list byte) (size : Z) : Z :=
  fold_left (fun x c => Z.lor (u64 (Z.shiftl x 8)) (byte_val c))
            (firstn (Z.to_nat size) b) 0.

(** The number that a sequence of bytes writes in base 256, the first
    byte the most significant. *)
Definition be_value (l : list byte) : Z :=
  fold_left (fun x c => x * 256 + byte_val c) l 0.

(** * Properties *)

(** Split the conjunctions that are written out, not the ones behind a
    definition. *)
Ltac splits := repeat match goal with |- _ /\ _ => split end.

(** ** Integers *)

Lemma u32_small (x : Z) : 0 <= x < 2 ^ 32 -> u32 x = x.
Proof. intros H. unfold u32. apply Z.mod_small. exact H. Qed.

Lemma u32_range (x : Z) : 0 <= u32 x < 2 ^ 32.
Proof. unfold u32. apply Z.mod_pos_bound. lia. Qed.

Lemma i32_small (x : Z) : - 2 ^ 31 <= x < 2 ^ 31 -> i32 x = x.
Proof.
  intros H. unfold i32. rewrite Z.mod_small; lia.
Qed.

Lemma size_t_small (x : Z) : 0 <= x < 2 ^ 64 -> size_t x = x.
Proof. intros H. unfold size_t. apply Z.mod_small. exact H. Qed.

Lemma MIN_spec (x y : Z) : MIN x y = Z.min x y.
Proof. unfold MIN. destruct (Z.ltb_spec x y); lia. Qed.

Lemma MAX_spec (x y : Z) : MAX x y = Z.max x y.
Proof. unfold MAX. destruct (Z.gtb_spec x y); lia. Qed.

Lemma CLAMP_range (v lo hi : Z) : lo <= hi -> lo <= CLAMP v lo hi <= hi.
Proof. intros H. unfold CLAMP. rewrite MIN_spec, MAX_spec. lia. Qed.

Lemma CLAMP_inside (v lo hi : Z) : lo <= v <= hi -> CLAMP v lo hi = v.
Proof. intros H. unfold CLAMP. rewrite MIN_spec, MAX_spec. lia. Qed.

(** ** The [played] latch *)

Lemma callback_keeps_played (ap : sc_audio_player) (stream : list byte)
    (len_int : Z) :
  played ap = true ->
  played (fst (sc_audio_player_sdl_callback ap stream len_int)) = true.
Proof.
  intros Hp. unfold sc_audio_player_sdl_callback. rewrite Hp. cbn [negb andb].
  destruct (if _ =? 0 then _ else _) as [b1 s1].
  destruct (if _ <? _ then _ else _) as [ap2 s2].
  reflexivity.
Qed.

Lemma get_swr_buf_played (ap : sc_audio_player) (n : Z) (c : bool) :
  played (fst (sc_audio_player_get_swr_buf ap n c)) = played ap.
Proof.
  unfold sc_audio_player_get_swr_buf.
  destruct (_ >? _); [destruct c|]; reflexivity.
Qed.

Lemma push_resample_played (ap : sc_audio_player) (frame : AVFrame)
    (io : swr_io) :
  played (fst (push_resample ap frame io)) = played ap.
Proof.
  unfold push_resample.
  pose proof (get_swr_buf_played ap
    (u32 (i32 (swr_get_delay io + nb_samples frame + 256))) (realloc_ok io)) as H.
  destruct (sc_audio_player_get_swr_buf _ _ _) as [ap1 ok]. cbn [fst] in H.
  destruct ok; cbn [negb]; [|exact H].
  destruct (swr_convert io <? 0); [exact H|].
  destruct (_ <=? _); exact H.
Qed.

Lemma avg_sub_played (ap : sc_audio_player) (d : Z) :
  played (avg_sub ap d) = played ap.
Proof. reflexivity. Qed.

Lemma push_store_played (ap : sc_audio_player) (r : resampled) :
  played (fst (fst (push_store ap r))) = played ap.
Proof.
  unfold push_store.
  destruct (r_lockless_write r); [reflexivity|].
  destruct (r_samples_written r >? _); [|reflexivity].
  destruct (r_samples_written r >? _); cbn zeta beta iota.
  - destruct (_ >? _); [|reflexivity].
    cbn [set_buf played].
    destruct (played ap) eqn:Hp;
      cbn [fst played set_buf avg_sub set_avg_buffering]; exact Hp.
  - destruct (_ >? _); [|reflexivity].
    cbn [set_buf played].
    destruct (played ap) eqn:Hp;
      cbn [fst played set_buf avg_sub set_avg_buffering]; exact Hp.
Qed.

Lemma push_bound_played (ap : sc_audio_player) (nb w b : Z) :
  played (fst (push_bound ap nb w b)) = played ap.
Proof.
  unfold push_bound. cbn [fst set_received set_previous_can_write played].
  destruct (played ap) eqn:Hp.
  - destruct (_ >? _); cbn; exact Hp.
  - destruct (_ >? _); cbn; exact Hp.
Qed.

Lemma push_locked_played (ap : sc_audio_player) (r : resampled) :
  played (fst (push_locked ap r)) = played ap.
Proof.
  unfold push_locked.
  pose proof (push_store_played ap r) as H.
  destruct (push_store ap r) as [[ap1 w] b]. cbn [fst] in H.
  rewrite push_bound_played. exact H.
Qed.

Lemma push_resync_played (ap : sc_audio_player) (u : unlocked) :
  played (fst (push_resync ap u)) = played ap.
Proof.
  unfold push_resync.
  destruct (u_played u); [|reflexivity].
  destruct (_ >=? _); reflexivity.
Qed.

Lemma step_keeps_played (s : session) (a : action) :
  played (fst s) = true -> played (fst (step s a)) = true.
Proof.
  intros Hp. destruct s as [ap p]. cbn [fst] in Hp.
  destruct a as [stream len_int|frame io| |]; unfold step; cbn [fst snd].
  - apply callback_keeps_played. exact Hp.
  - destruct p; try exact Hp.
    pose proof (push_resample_played ap frame io) as H.
    destruct (push_resample ap frame io) as [ap1 [r|]]; cbn [fst] in *; congruence.
  - destruct p; try exact Hp.
    pose proof (push_locked_played ap r) as H.
    destruct (push_locked ap r) as [ap1 u]; cbn [fst] in *; congruence.
  - destruct p; try exact Hp.
    cbn [fst]. rewrite push_resync_played. exact Hp.
Qed.

Lemma run_keeps_played (l : list action) :
  forall s : session, played (fst s) = true -> played (fst (run s l)) = true.
Proof.
  induction l as [|a l IH]; intros s Hp; cbn [run fold_left].
  - exact Hp.
  - apply IH. apply step_keeps_played. exact Hp.
Qed.

(** A push that no callback interrupts is the three producer steps in a
    row. *)
Lemma push_is_three_steps (ap : sc_audio_player) (frame : AVFrame)
    (io : swr_io) :
  fst (fst (sc_audio_player_frame_sink_push ap frame io))
  = fst (run (ap, Idle) [PushResample frame io; PushLocked; PushResync]).
Proof.
  unfold sc_audio_player_frame_sink_push, run. cbn [fold_left].
  unfold step at 3. cbn [fst snd].
  destruct (push_resample ap frame io) as [ap1 [r|]].
  - unfold step at 2. cbn [fst snd].
    destruct (push_locked ap1 r) as [ap2 u].
    unfold step. cbn [fst snd].
    destruct (push_resync ap2 u) as [ap3 evs]. reflexivity.
  - reflexivity.
Qed.

(** ** The ring: cursors *)

Lemma can_read_commit_write (b : sc_audiobuf) (n : Z) :
  sc_audiobuf_can_read (sc_audiobuf_commit_write b n)
  = sc_audiobuf_can_read b + n.
Proof. unfold sc_audiobuf_can_read. cbn. lia. Qed.

Lemma can_read_prepare_write (b : sc_audiobuf) (src : list byte) (n : Z) :
  sc_audiobuf_can_read (sc_audiobuf_prepare_write b src n)
  = sc_audiobuf_can_read b.
Proof. reflexivity. Qed.

Lemma can_read_write (b : sc_audiobuf) (src : list byte) (n : Z) :
  sc_audiobuf_can_read (sc_audiobuf_write b src n)
  = sc_audiobuf_can_read b + n.
Proof. unfold sc_audiobuf_can_read. cbn. lia. Qed.

Lemma can_read_skip (b : sc_audiobuf) (n : Z) :
  sc_audiobuf_can_read (sc_audiobuf_skip b n) = sc_audiobuf_can_read b - n.
Proof. unfold sc_audiobuf_can_read. cbn. lia. Qed.

Lemma can_read_plus_can_write (b : sc_audiobuf) :
  sc_audiobuf_can_read b + sc_audiobuf_can_write b = sc_audiobuf_capacity b.
Proof. unfold sc_audiobuf_can_write, sc_audiobuf_capacity. lia. Qed.

Lemma audiobuf_ok_can_read (b : sc_audiobuf) :
  audiobuf_ok b ->
  0 <= sc_audiobuf_can_read b <= ab_capacity b /\ ab_capacity b < 2 ^ 32.
Proof. unfold audiobuf_ok, sc_audiobuf_can_read. lia. Qed.

Lemma audiobuf_ok_prepare_write (b : sc_audiobuf) (src : list byte) (n : Z) :
  audiobuf_ok b -> audiobuf_ok (sc_audiobuf_prepare_write b src n).
Proof. intros H. exact H. Qed.

Lemma audiobuf_ok_commit_write (b : sc_audiobuf) (n : Z) :
  audiobuf_ok b -> 0 <= n <= sc_audiobuf_can_write b ->
  audiobuf_ok (sc_audiobuf_commit_write b n).
Proof.
  unfold audiobuf_ok, sc_audiobuf_can_write, sc_audiobuf_can_read. cbn. lia.
Qed.

Lemma audiobuf_ok_write (b : sc_audiobuf) (src : list byte) (n : Z) :
  audiobuf_ok b -> 0 <= n <= sc_audiobuf_can_write b ->
  audiobuf_ok (sc_audiobuf_write b src n).
Proof.
  unfold audiobuf_ok, sc_audiobuf_can_write, sc_audiobuf_can_read. cbn. lia.
Qed.

Lemma audiobuf_ok_skip (b : sc_audiobuf) (n : Z) :
  audiobuf_ok b -> 0 <= n <= sc_audiobuf_can_read b ->
  audiobuf_ok (sc_audiobuf_skip b n).
Proof.
  unfold audiobuf_ok, sc_audiobuf_can_read. cbn. lia.
Qed.

(** ** Circular copies *)

Lemma nth_slice (l : list byte) (off n i : nat) (d : byte) :
  (i < n)%nat -> nth i (slice l off n) d = nth (off + i) l d.
Proof.
  intros H. unfold slice. rewrite nth_firstn.
  destruct (Nat.ltb_spec i n); [|lia]. apply nth_skipn.
Qed.

Lemma length_slice (l : list byte) (off n : nat) :
  (off + n <= length l)%nat -> length (slice l off n) = n.
Proof.
  intros H. unfold slice. rewrite length_firstn, length_skipn. lia.
Qed.

Lemma length_blit (dst : list byte) (off : nat) (src : list byte) :
  (off + length src <= length dst)%nat ->
  length (blit dst off src) = length dst.
Proof.
  intros H. unfold blit.
  rewrite !length_app, length_firstn, length_skipn. lia.
Qed.

Lemma nth_blit (dst : list byte) (off : nat) (src : list byte) (j : nat)
    (d : byte) :
  (off + length src <= length dst)%nat ->
  nth j (blit dst off src) d
  = if (j <? off)%nat then nth j dst d
    else if (j <? off + length src)%nat then nth (j - off) src d
    else nth j dst d.
Proof.
  intros H. unfold blit.
  assert (Hf : length (firstn off dst) = off)
    by (rewrite length_firstn; lia).
  destruct (Nat.ltb_spec j off) as [Hlt|Hge].
  - rewrite app_nth1 by lia. rewrite nth_firstn.
    destruct (Nat.ltb_spec j off); [reflexivity|lia].
  - rewrite app_nth2 by lia. rewrite Hf.
    destruct (Nat.ltb_spec j (off + length src)) as [Hin|Hout].
    + rewrite app_nth1 by lia. reflexivity.
    + rewrite app_nth2 by lia. rewrite nth_skipn. f_equal. lia.
Qed.

Lemma mod_wrap (x s : nat) : (s <= x < 2 * s)%nat -> (x mod s = x - s)%nat.
Proof.
  intros H. replace x with ((x - s) + 1 * s)%nat at 1 by lia.
  rewrite Nat.Div0.mod_add. apply Nat.mod_small. lia.
Qed.

(** How far the byte [i] of the content lies from the producer offset,
    going round the store. *)
Lemma circular_distance (ot i cr sz : nat) :
  (ot < sz)%nat -> (cr <= sz)%nat -> (i < sz)%nat ->
  (((ot + i) mod sz + sz - (ot + cr) mod sz) mod sz
   = if i <? cr then sz + i - cr else i - cr)%nat.
Proof.
  intros Ho Hc Hi.
  destruct (Nat.lt_ge_cases (ot + i) sz) as [H1|H1];
    [rewrite (Nat.mod_small (ot + i) sz) by lia
    |rewrite (mod_wrap (ot + i) sz) by lia];
    (destruct (Nat.lt_ge_cases (ot + cr) sz) as [H2|H2];
     [rewrite (Nat.mod_small (ot + cr) sz) by lia
     |rewrite (mod_wrap (ot + cr) sz) by lia]);
    destruct (Nat.ltb_spec i cr) as [H3|H3];
    match goal with
    | |- (?x mod sz = _)%nat =>
        destruct (Nat.lt_ge_cases x sz);
        [rewrite (Nat.mod_small x sz) by lia
        |rewrite (mod_wrap x sz) by lia]
    end; lia.
Qed.

(** Reading [len] bytes of a circular store from offset [off]. *)
Lemma length_circular_read (data : list byte) (off len : nat) :
  (off <= length data)%nat -> (len <= length data)%nat ->
  length (slice data off (Nat.min len (length data - off))
          ++ slice data 0 (len - Nat.min len (length data - off))) = len.
Proof.
  intros Ho Hl. rewrite length_app, !length_slice by lia. lia.
Qed.

Lemma nth_circular_read (data : list byte) (off len i : nat) (d : byte) :
  (off < length data)%nat -> (len <= length data)%nat -> (i < len)%nat ->
  nth i (slice data off (Nat.min len (length data - off))
         ++ slice data 0 (len - Nat.min len (length data - off))) d
  = nth ((off + i) mod length data) data d.
Proof.
  intros Ho Hl Hi.
  set (first := Nat.min len (length data - off)).
  assert (Hlf : length (slice data off first) = first)
    by (apply length_slice; unfold first; lia).
  destruct (Nat.lt_ge_cases i first) as [Hlt|Hge].
  - rewrite app_nth1 by lia. rewrite nth_slice by lia.
    rewrite Nat.mod_small by (unfold first in Hlt; lia). reflexivity.
  - rewrite app_nth2 by lia. rewrite Hlf, nth_slice by lia.
    rewrite (mod_wrap (off + i)) by (unfold first in *; lia).
    f_equal. unfold first in *. lia.
Qed.

(** Writing [bytes] into a circular store from offset [off]. *)
Lemma length_circular_write (data : list byte) (off : nat) (bytes : list byte) :
  (off <= length data)%nat -> (length bytes <= length data)%nat ->
  length (blit (blit data off
                  (firstn (Nat.min (length bytes) (length data - off)) bytes))
               0 (skipn (Nat.min (length bytes) (length data - off)) bytes))
  = length data.
Proof.
  intros Ho Hl.
  rewrite length_blit; rewrite length_blit;
    rewrite ?length_firstn, ?length_skipn; lia.
Qed.

Lemma nth_circular_write (data : list byte) (off : nat) (bytes : list byte)
    (j : nat) (d : byte) :
  (off < length data)%nat -> (length bytes <= length data)%nat ->
  (j < length data)%nat ->
  nth j (blit (blit data off
                 (firstn (Nat.min (length bytes) (length data - off)) bytes))
              0 (skipn (Nat.min (length bytes) (length data - off)) bytes)) d
  = if ((j + length data - off) mod length data <? length bytes)%nat
    then nth ((j + length data - off) mod length data) bytes d
    else nth j data d.
Proof.
  intros Ho Hl Hj.
  set (first := Nat.min (length bytes) (length data - off)).
  assert (Hlf : length (firstn first bytes) = first)
    by (rewrite length_firstn; unfold first; lia).
  assert (Hls : length (skipn first bytes) = (length bytes - first)%nat)
    by apply length_skipn.
  assert (Hb1 : length (blit data off (firstn first bytes)) = length data)
    by (apply length_blit; rewrite Hlf; unfold first; lia).
  rewrite nth_blit by (rewrite Hb1, Hls; lia).
  rewrite Hls.
  destruct (Nat.ltb_spec j 0) as [|_]; [lia|].
  rewrite Nat.add_0_l, Nat.sub_0_r.
  destruct (Nat.ltb_spec j (length bytes - first)) as [Hsecond|Hnot].
  - (* in the part that wrapped to the start *)
    rewrite nth_skipn.
    assert (Hf : first = (length data - off)%nat) by (unfold first in *; lia).
    rewrite (Nat.mod_small (j + length data - off)) by lia.
    destruct (Nat.ltb_spec (j + length data - off) (length bytes)); [|lia].
    f_equal. lia.
  - rewrite nth_blit by (rewrite Hlf; unfold first; lia).
    rewrite Hlf.
    destruct (Nat.ltb_spec j off) as [Hbefore|Hafter].
    + rewrite (Nat.mod_small (j + length data - off)) by lia.
      destruct (Nat.ltb_spec (j + length data - off) (length bytes));
        [unfold first in *; lia|reflexivity].
    + rewrite (mod_wrap (j + length data - off)) by lia.
      replace (j + length data - off - length data)%nat with (j - off)%nat
        by lia.
      destruct (Nat.ltb_spec j (off + first)) as [Hin|Hout].
      * destruct (Nat.ltb_spec (j - off) (length bytes));
          [|unfold first in *; lia].
        rewrite nth_firstn.
        destruct (Nat.ltb_spec (j - off) first); [reflexivity|lia].
      * destruct (Nat.ltb_spec (j - off) (length bytes));
          [unfold first in *; lia|reflexivity].
Qed.

(** ** The ring: what is readable *)

Section RingContent.

Variable b : sc_audiobuf.
Hypothesis Hb : audiobuf_data_ok b.

Let cap := ab_capacity b.
Let ss := ab_sample_size b.

Lemma ring_size_pos : (0 < length (ab_data b))%nat.
Proof.
  destruct Hb as ((Hss & _) & Hcap & Hlen). rewrite Hlen. nia.
Qed.

Lemma ring_size_eq : Z.of_nat (length (ab_data b)) = cap * ss.
Proof.
  destruct Hb as ((Hss & _) & Hcap & Hlen). rewrite Hlen.
  unfold cap, ss. nia.
Qed.

Lemma ab_offset_lt (c : Z) :
  0 <= c -> (ab_offset b c < length (ab_data b))%nat.
Proof.
  intros Hc. destruct Hb as ((Hss & _) & Hcap & Hlen).
  rewrite Hlen. unfold ab_offset.
  pose proof (Z.mod_pos_bound c (ab_capacity b) Hcap). nia.
Qed.

Lemma ab_offset_add (c k : Z) :
  0 <= c -> 0 <= k ->
  ab_offset b (c + k)
  = ((ab_offset b c + Z.to_nat (k * ss)) mod length (ab_data b))%nat.
Proof.
  intros Hc Hk. destruct Hb as ((Hss & _) & Hcap & Hlen).
  pose proof (Z.mod_pos_bound c (ab_capacity b) Hcap) as Hm.
  rewrite Hlen. unfold ab_offset, ss.
  rewrite <- Z2Nat.inj_add by nia.
  rewrite <- Z2Nat.inj_mod by nia. f_equal.
  rewrite <- Z.mul_mod_distr_r by lia.
  rewrite <- (Z.mul_mod_distr_r c) by lia.
  rewrite Zplus_mod_idemp_l. f_equal. lia.
Qed.

Lemma ab_peek_length (n : Z) :
  0 <= n <= cap -> length (ab_peek b n) = Z.to_nat (n * ss).
Proof.
  intros Hn. destruct Hb as ((Hss & Hcur) & Hcap & Hlen).
  unfold ab_peek, ab_first_segment. rewrite <- Hlen.
  apply length_circular_read.
  - pose proof (ab_offset_lt (ab_tail b)). lia.
  - rewrite Hlen. unfold cap, ss in *. nia.
Qed.

Lemma ab_peek_nth (n : Z) (i : nat) (d : byte) :
  0 <= n <= cap -> (i < Z.to_nat (n * ss))%nat ->
  nth i (ab_peek b n) d
  = nth ((ab_offset b (ab_tail b) + i) mod length (ab_data b)) (ab_data b) d.
Proof.
  intros Hn Hi. destruct Hb as ((Hss & Hcur) & Hcap & Hlen).
  unfold ab_peek, ab_first_segment. rewrite <- Hlen.
  apply nth_circular_read.
  - apply ab_offset_lt. lia.
  - rewrite Hlen. unfold cap, ss in *. nia.
  - exact Hi.
Qed.

End RingContent.

Lemma audiobuf_data_ok_skip (b : sc_audiobuf) (n : Z) :
  audiobuf_data_ok b -> 0 <= n <= sc_audiobuf_can_read b ->
  audiobuf_data_ok (sc_audiobuf_skip b n).
Proof.
  intros (Hok & Hcap & Hlen) Hn.
  split; [apply audiobuf_ok_skip; assumption|]. split; assumption.
Qed.

Lemma audiobuf_data_ok_commit_write (b : sc_audiobuf) (n : Z) :
  audiobuf_data_ok b -> 0 <= n <= sc_audiobuf_can_write b ->
  audiobuf_data_ok (sc_audiobuf_commit_write b n).
Proof.
  intros (Hok & Hcap & Hlen) Hn.
  split; [apply audiobuf_ok_commit_write; assumption|]. split; assumption.
Qed.

(** The bytes [prepare_write] copies: [n] samples of [from]. *)
Lemma prepare_write_data (b : sc_audiobuf) (from : list byte) (n : Z) :
  audiobuf_data_ok b ->
  (Z.to_nat (n * ab_sample_size b) <= length from)%nat ->
  let bytes := firstn (Z.to_nat (n * ab_sample_size b)) from in
  ab_data (sc_audiobuf_prepare_write b from n)
  = blit (blit (ab_data b) (ab_offset b (ab_head b))
            (firstn (Nat.min (length bytes)
                       (length (ab_data b) - ab_offset b (ab_head b))) bytes))
         0 (skipn (Nat.min (length bytes)
                     (length (ab_data b) - ab_offset b (ab_head b))) bytes).
Proof.
  intros (Hok & Hcap & Hlen) Hfrom bytes.
  assert (Hbytes : length bytes = Z.to_nat (n * ab_sample_size b))
    by (unfold bytes; rewrite length_firstn; lia).
  unfold sc_audiobuf_prepare_write, ab_first_segment. cbn [ab_data ab_set_data].
  fold bytes. rewrite Hbytes, Hlen. reflexivity.
Qed.

Lemma audiobuf_data_ok_prepare_write (b : sc_audiobuf) (from : list byte)
    (n : Z) :
  audiobuf_data_ok b -> 0 <= n <= ab_capacity b ->
  (Z.to_nat (n * ab_sample_size b) <= length from)%nat ->
  audiobuf_data_ok (sc_audiobuf_prepare_write b from n).
Proof.
  intros Hb Hn Hfrom. pose proof Hb as (Hok & Hcap & Hlen).
  split; [exact Hok|]. split; [exact Hcap|].
  rewrite (prepare_write_data _ _ _ Hb Hfrom).
  rewrite length_circular_write.
  - exact Hlen.
  - pose proof (ab_offset_lt b Hb (ab_head b)).
    destruct Hok as (_ & ? & _). lia.
  - rewrite length_firstn, Hlen. destruct Hok as (? & _). nia.
Qed.

Lemma audiobuf_data_ok_write (b : sc_audiobuf) (from : list byte) (n : Z) :
  audiobuf_data_ok b -> 0 <= n <= sc_audiobuf_can_write b ->
  (Z.to_nat (n * ab_sample_size b) <= length from)%nat ->
  audiobuf_data_ok (sc_audiobuf_write b from n).
Proof.
  intros Hb Hn Hfrom. unfold sc_audiobuf_write.
  destruct (audiobuf_ok_can_read _ (proj1 Hb)) as [Hcr _].
  apply audiobuf_data_ok_commit_write.
  - apply audiobuf_data_ok_prepare_write; try assumption.
    unfold sc_audiobuf_can_write in Hn. lia.
  - exact Hn.
Qed.

(** Skipping drops the oldest bytes of the content. *)
Lemma content_skip (b : sc_audiobuf) (n : Z) :
  audiobuf_data_ok b -> 0 <= n <= sc_audiobuf_can_read b ->
  ab_content (sc_audiobuf_skip b n)
  = skipn (Z.to_nat (n * ab_sample_size b)) (ab_content b).
Proof.
  intros Hb Hn.
  pose proof (audiobuf_data_ok_skip _ _ Hb Hn) as Hb'.
  pose proof Hb as ((Hss & Hcur) & Hcap & Hlen).
  destruct (audiobuf_ok_can_read _ (proj1 Hb)) as [Hcr _].
  unfold ab_content. rewrite can_read_skip.
  set (cr := sc_audiobuf_can_read b) in *.
  assert (Hsplit : Z.to_nat (cr * ab_sample_size b)
                   = (Z.to_nat (n * ab_sample_size b)
                      + Z.to_nat ((cr - n) * ab_sample_size b))%nat) by nia.
  apply (nth_ext _ _ x00 x00).
  - rewrite length_skipn.
    rewrite (ab_peek_length _ Hb') by (cbn; lia).
    rewrite (ab_peek_length _ Hb) by lia.
    cbn [ab_sample_size sc_audiobuf_skip ab_set_tail]. lia.
  - intros i Hi.
    rewrite (ab_peek_length _ Hb') in Hi by (cbn; lia).
    cbn [ab_sample_size sc_audiobuf_skip ab_set_tail] in Hi.
    rewrite (ab_peek_nth _ Hb') by (cbn; lia).
    rewrite nth_skipn.
    rewrite (ab_peek_nth _ Hb) by lia.
    cbn [ab_data ab_tail sc_audiobuf_skip ab_set_tail].
    change (ab_offset (sc_audiobuf_skip b n) (ab_tail b + n))
      with (ab_offset b (ab_tail b + n)).
    rewrite (ab_offset_add _ Hb) by lia.
    rewrite Nat.Div0.add_mod_idemp_l. f_equal. f_equal. lia.
Qed.

(** Peeking at [n] samples gives the first bytes of the content. *)
Lemma peek_is_prefix (b : sc_audiobuf) (n : Z) :
  audiobuf_data_ok b -> 0 <= n <= sc_audiobuf_can_read b ->
  ab_peek b n = firstn (Z.to_nat (n * ab_sample_size b)) (ab_content b).
Proof.
  intros Hb Hn.
  pose proof Hb as ((Hss & Hcur) & Hcap & Hlen).
  destruct (audiobuf_ok_can_read _ (proj1 Hb)) as [Hcr _].
  unfold ab_content.
  set (cr := sc_audiobuf_can_read b) in *.
  apply (nth_ext _ _ x00 x00).
  - rewrite length_firstn, !(ab_peek_length _ Hb) by lia. nia.
  - intros i Hi. rewrite (ab_peek_length _ Hb) in Hi by lia.
    rewrite nth_firstn.
    destruct (Nat.ltb_spec i (Z.to_nat (n * ab_sample_size b))); [|lia].
    rewrite !(ab_peek_nth _ Hb) by nia. reflexivity.
Qed.

(** The storage after a prepared write, seen from the consumer cursor:
    the readable bytes are as before, the bytes after them are the new
    ones. *)
Lemma prepared_nth (b : sc_audiobuf) (from : list byte) (n : Z) (i : nat)
    (d : byte) :
  audiobuf_data_ok b -> 0 <= n <= sc_audiobuf_can_write b ->
  (Z.to_nat (n * ab_sample_size b) <= length from)%nat ->
  (i < Z.to_nat ((sc_audiobuf_can_read b + n) * ab_sample_size b))%nat ->
  nth ((ab_offset b (ab_tail b) + i) mod length (ab_data b))
      (ab_data (sc_audiobuf_prepare_write b from n)) d
  = if (i <? Z.to_nat (sc_audiobuf_can_read b * ab_sample_size b))%nat
    then nth ((ab_offset b (ab_tail b) + i) mod length (ab_data b))
             (ab_data b) d
    else nth (i - Z.to_nat (sc_audiobuf_can_read b * ab_sample_size b)) from d.
Proof.
  intros Hb Hn Hfrom Hi.
  pose proof Hb as ((Hss & Hcur) & Hcap & Hlen).
  destruct (audiobuf_ok_can_read _ (proj1 Hb)) as [Hcr _].
  pose proof (ring_size_pos b Hb) as Hpos.
  pose proof (ab_offset_lt b Hb (ab_tail b) ltac:(lia)) as Hot.
  pose proof (ab_offset_lt b Hb (ab_head b) ltac:(lia)) as Hoh.
  assert (Hhead : ab_offset b (ab_head b)
                  = ((ab_offset b (ab_tail b)
                      + Z.to_nat (sc_audiobuf_can_read b * ab_sample_size b))
                     mod length (ab_data b))%nat).
  { rewrite <- (ab_offset_add b Hb) by lia. f_equal.
    unfold sc_audiobuf_can_read. lia. }
  unfold sc_audiobuf_can_write in Hn.
  rewrite (prepare_write_data _ _ _ Hb Hfrom).
  set (cr := sc_audiobuf_can_read b) in *.
  set (CR := Z.to_nat (cr * ab_sample_size b)) in *.
  set (N := Z.to_nat (n * ab_sample_size b)) in *.
  set (SZ := length (ab_data b)) in *.
  set (ot := ab_offset b (ab_tail b)) in *.
  set (oh := ab_offset b (ab_head b)) in *.
  assert (HCR : (CR + N <= SZ)%nat) by (unfold CR, N; nia).
  assert (HiN : (i < CR + N)%nat) by (unfold CR, N; nia).
  assert (Hbytes : length (firstn N from) = N)
    by (rewrite length_firstn; lia).
  pose proof (Nat.mod_upper_bound (ot + i) SZ ltac:(lia)) as Hj.
  rewrite nth_circular_write by (rewrite ?Hbytes; lia).
  rewrite Hbytes.
  assert (Hk : (((ot + i) mod SZ + SZ - oh) mod SZ
                = if i <? CR then SZ + i - CR else i - CR)%nat)
    by (rewrite Hhead; apply circular_distance; lia).
  change (length (ab_data b)) with SZ. rewrite Hk.
  destruct (Nat.ltb_spec i CR) as [Hold|Hnew].
  - destruct (Nat.ltb_spec (SZ + i - CR) N); [lia|reflexivity].
  - destruct (Nat.ltb_spec (i - CR) N); [|lia].
    rewrite nth_firstn.
    destruct (Nat.ltb_spec (i - CR) N); [reflexivity|lia].
Qed.

(** A prepared write leaves the readable bytes alone. *)
Lemma content_prepare_write (b : sc_audiobuf) (from : list byte) (n : Z) :
  audiobuf_data_ok b -> 0 <= n <= sc_audiobuf_can_write b ->
  (Z.to_nat (n * ab_sample_size b) <= length from)%nat ->
  ab_content (sc_audiobuf_prepare_write b from n) = ab_content b.
Proof.
  intros Hb Hn Hfrom.
  pose proof Hb as ((Hss & Hcur) & Hcap & Hlen).
  destruct (audiobuf_ok_can_read _ (proj1 Hb)) as [Hcr _].
  assert (Hn' : 0 <= n <= ab_capacity b)
    by (unfold sc_audiobuf_can_write in Hn; lia).
  pose proof (audiobuf_data_ok_prepare_write _ _ _ Hb Hn' Hfrom) as Hb'.
  unfold ab_content. rewrite can_read_prepare_write.
  apply (nth_ext _ _ x00 x00).
  - rewrite (ab_peek_length _ Hb'), (ab_peek_length _ Hb) by (cbn; lia).
    reflexivity.
  - intros i Hi. rewrite (ab_peek_length _ Hb') in Hi by (cbn; lia).
    cbn [ab_sample_size sc_audiobuf_prepare_write ab_set_data] in Hi.
    rewrite (ab_peek_nth _ Hb') by (cbn; lia).
    rewrite (ab_peek_nth _ Hb) by lia.
    replace (length (ab_data (sc_audiobuf_prepare_write b from n)))
      with (length (ab_data b))
      by (destruct Hb' as (_ & _ & Hlen'); rewrite Hlen'; exact Hlen).
    change (ab_offset (sc_audiobuf_prepare_write b from n)
              (ab_tail (sc_audiobuf_prepare_write b from n)))
      with (ab_offset b (ab_tail b)).
    rewrite (prepared_nth _ _ _ _ _ Hb Hn Hfrom) by nia.
    destruct (Nat.ltb_spec i
                (Z.to_nat (sc_audiobuf_can_read b * ab_sample_size b)));
      [reflexivity|lia].
Qed.

(** A write appends its samples to the content. *)
Lemma content_write (b : sc_audiobuf) (from : list byte) (n : Z) :
  audiobuf_data_ok b -> 0 <= n <= sc_audiobuf_can_write b ->
  (Z.to_nat (n * ab_sample_size b) <= length from)%nat ->
  ab_content (sc_audiobuf_write b from n)
  = ab_content b ++ firstn (Z.to_nat (n * ab_sample_size b)) from.
Proof.
  intros Hb Hn Hfrom.
  pose proof Hb as ((Hss & Hcur) & Hcap & Hlen).
  destruct (audiobuf_ok_can_read _ (proj1 Hb)) as [Hcr _].
  pose proof (audiobuf_data_ok_write _ _ _ Hb Hn Hfrom) as Hb'.
  assert (Hlen' : length (ab_data (sc_audiobuf_write b from n))
                  = length (ab_data b))
    by (destruct Hb' as (_ & _ & H); rewrite H; symmetry; exact Hlen).
  unfold ab_content. rewrite can_read_write.
  unfold sc_audiobuf_can_write in Hn.
  set (cr := sc_audiobuf_can_read b) in *.
  assert (Hsplit : Z.to_nat ((cr + n) * ab_sample_size b)
                   = (Z.to_nat (cr * ab_sample_size b)
                      + Z.to_nat (n * ab_sample_size b))%nat) by nia.
  assert (Hlc : length (ab_peek b cr) = Z.to_nat (cr * ab_sample_size b))
    by (apply (ab_peek_length _ Hb); lia).
  apply (nth_ext _ _ x00 x00).
  - rewrite length_app, Hlc, length_firstn.
    rewrite (ab_peek_length _ Hb') by (cbn; lia).
    cbn [ab_sample_size sc_audiobuf_write sc_audiobuf_commit_write
         ab_set_head sc_audiobuf_prepare_write ab_set_data]. lia.
  - intros i Hi. rewrite (ab_peek_length _ Hb') in Hi by (cbn; lia).
    cbn [ab_sample_size sc_audiobuf_write sc_audiobuf_commit_write
         ab_set_head sc_audiobuf_prepare_write ab_set_data] in Hi.
    rewrite (ab_peek_nth _ Hb') by (cbn; lia).
    rewrite Hlen'.
    change (ab_offset (sc_audiobuf_write b from n)
              (ab_tail (sc_audiobuf_write b from n)))
      with (ab_offset b (ab_tail b)).
    change (ab_data (sc_audiobuf_write b from n))
      with (ab_data (sc_audiobuf_prepare_write b from n)).
    rewrite (prepared_nth _ _ _ _ _ Hb) by (unfold sc_audiobuf_can_write; lia).
    fold cr.
    destruct (Nat.ltb_spec i (Z.to_nat (cr * ab_sample_size b))) as [Hold|Hnew].
    + rewrite app_nth1 by lia. symmetry. apply (ab_peek_nth _ Hb); lia.
    + rewrite app_nth2 by lia. rewrite Hlc, nth_firstn.
      destruct (Nat.ltb_spec (i - Z.to_nat (cr * ab_sample_size b))
                  (Z.to_nat (n * ab_sample_size b))); [reflexivity|lia].
Qed.

(** ** The ring: examples *)

(** A ring of four 2-byte samples: three samples in, two out, three more
    in (the write wraps around), and the four readable samples come out in
    the order they went in. *)
Example ring_wraps_in_order :
  let b0 := sc_audiobuf_init 2 4 in
  let b1 := sc_audiobuf_write b0 [x01; x02; x03; x04; x05; x06] 3 in
  let '(b2, out) := sc_audiobuf_read b1 [xaa; xaa; xaa; xaa] 2 in
  let b3 := sc_audiobuf_write b2 [x07; x08; x09; x0a; x0b; x0c] 3 in
  out = [x01; x02; x03; x04]
  /\ sc_audiobuf_can_read b3 = 4
  /\ sc_audiobuf_can_write b3 = 0
  /\ ab_data b3 = [x09; x0a; x0b; x0c; x05; x06; x07; x08]
  /\ ab_peek b3 4 = [x05; x06; x07; x08; x09; x0a; x0b; x0c].
Proof. cbv. repeat split. Qed.

(** A prepared write is not readable until it is committed. *)
Example ring_prepare_then_commit :
  let b0 := sc_audiobuf_init 2 4 in
  let b1 := sc_audiobuf_prepare_write b0 [x01; x02; x03; x04] 2 in
  sc_audiobuf_can_read b1 = 0
  /\ sc_audiobuf_commit_write b1 2 = sc_audiobuf_write b0 [x01; x02; x03; x04] 2
  /\ ab_peek (sc_audiobuf_commit_write b1 2) 2 = [x01; x02; x03; x04].
Proof. cbv. repeat split. Qed.

(** ** The locked part of [push]: the store *)

Lemma skip_zero (b : sc_audiobuf) : sc_audiobuf_skip b 0 = b.
Proof.
  destruct b as [d c s h t]. unfold sc_audiobuf_skip, ab_set_tail. cbn.
  f_equal. lia.
Qed.

Lemma f32_sub_zero (x : float32) : f32_sub x (f32_of_Z 0) = x.
Proof. destruct x as [[|]|[|]| |[|] m e]; reflexivity. Qed.

Lemma push_store_lockless (ap : sc_audio_player) (r : resampled) :
  r_lockless_write r = true ->
  push_store ap r
  = (set_buf ap (sc_audiobuf_commit_write (buf ap) (r_samples_written r)),
     r_samples_written r,
     u32 (u32 (sc_audiobuf_can_read (buf ap)) + r_samples_written r)).
Proof. intros H. unfold push_store. rewrite H. reflexivity. Qed.

Lemma push_store_fits (ap : sc_audio_player) (r : resampled) :
  r_lockless_write r = false ->
  r_samples_written r <= u32 (sc_audiobuf_can_write (buf ap)) ->
  push_store ap r
  = (set_buf ap (sc_audiobuf_write (buf ap) (r_swr_buf r) (r_samples_written r)),
     r_samples_written r,
     u32 (u32 (sc_audiobuf_can_read (buf ap)) + r_samples_written r)).
Proof.
  intros H Hw. unfold push_store. rewrite H.
  destruct (Z.gtb_spec (r_samples_written r)
              (u32 (sc_audiobuf_can_write (buf ap)))); [lia|].
  reflexivity.
Qed.

(** The slow path with more samples than room: the frame is cut to the
    capacity, the oldest samples make room, the average follows when
    playing, and the ring ends up full. *)
Lemma push_store_overflow (ap : sc_audio_player) (r : resampled) :
  audiobuf_ok (buf ap) ->
  0 <= r_samples_written r < 2 ^ 32 ->
  r_lockless_write r = false ->
  sc_audiobuf_can_write (buf ap) < r_samples_written r ->
  let written := Z.min (r_samples_written r) (sc_audiobuf_capacity (buf ap)) in
  let dropped := written - sc_audiobuf_can_write (buf ap) in
  let src :=
    skipn (Z.to_nat (TO_BYTES ap (r_samples_written r - written)))
          (r_swr_buf r) in
  push_store ap r
  = (set_buf
       (if played ap then avg_sub ap dropped else ap)
       (sc_audiobuf_write (sc_audiobuf_skip (buf ap) dropped) src written),
     written,
     sc_audiobuf_capacity (buf ap)).
Proof.
  intros Hok Hw Hl Hgt written dropped src.
  destruct (audiobuf_ok_can_read _ Hok) as [Hcr Hcap].
  pose proof (can_read_plus_can_write (buf ap)) as Hsum.
  unfold sc_audiobuf_capacity in *.
  set (cr := sc_audiobuf_can_read (buf ap)) in *.
  set (cw := sc_audiobuf_can_write (buf ap)) in *.
  set (cap := ab_capacity (buf ap)) in *.
  set (w := r_samples_written r) in *.
  unfold push_store. rewrite Hl. unfold sc_audiobuf_capacity.
  fold cr cw cap w.
  rewrite (u32_small cr), (u32_small cw), (u32_small cap) by lia.
  destruct (Z.gtb_spec w cw) as [_|]; [|lia].
  destruct (Z.gtb_spec w cap) as [Hbig|Hsmall].
  - (* a frame larger than the ring *)
    assert (Hwr : written = cap) by (unfold written; lia).
    cbn zeta beta iota.
    destruct (Z.gtb_spec cap cw) as [Hroom|Hfull].
    + rewrite (u32_small (cap - cw)) by lia.
      rewrite (u32_small (cr - (cap - cw))) by lia.
      rewrite (u32_small (w - cap)) by lia.
      cbn [set_buf played buf].
      replace (u32 (cr - (cap - cw) + cap)) with cap by (rewrite u32_small; lia).
      unfold src, dropped. rewrite Hwr.
      destruct (played ap); reflexivity.
    + (* the ring was empty: nothing to drop *)
      assert (Hd : dropped = 0) by (unfold dropped; lia).
      rewrite (u32_small (w - cap)) by lia.
      replace (u32 (cr + cap)) with cap by (rewrite u32_small; lia).
      unfold src. rewrite Hd, Hwr, skip_zero.
      destruct (played ap); [|reflexivity].
      unfold avg_sub. rewrite f32_sub_zero.
      destruct ap as [? ? ? ? ? ? ? [? ? ?] ? ? ?]; reflexivity.
  - assert (Hwr : written = w) by (unfold written; lia).
    cbn zeta beta iota.
    destruct (Z.gtb_spec w cw) as [_|]; [|lia].
    rewrite (u32_small (w - cw)) by lia.
    rewrite (u32_small (cr - (w - cw))) by lia.
    cbn [set_buf played buf].
    replace (u32 (cr - (w - cw) + w)) with cap by (rewrite u32_small; lia).
    unfold src, dropped. rewrite Hwr.
    replace (w - w) with 0 by lia.
    unfold TO_BYTES, sc_audiobuf_to_bytes.
    rewrite Z.mul_0_l. unfold size_t. rewrite Z.mod_0_l by lia.
    cbn [Z.to_nat skipn].
    destruct (played ap); reflexivity.
Qed.

Lemma same_config_refl (a : sc_audio_player) : same_config a a.
Proof. repeat split. Qed.

Lemma same_config_trans (a b c : sc_audio_player) :
  same_config a b -> same_config b c -> same_config a c.
Proof. unfold same_config. intuition congruence. Qed.

Lemma config_ok_same (a b : sc_audio_player) :
  same_config a b -> config_ok a -> config_ok b.
Proof.
  unfold same_config, config_ok. intros (Ht & Hs & Hc & _).
  rewrite Ht, Hs, Hc. tauto.
Qed.

(** After the store the local [buffered_samples] is the readable count,
    and no more than a ring of samples was written. *)
Lemma push_store_ok (ap : sc_audio_player) (r : resampled) :
  player_ok ap -> resampled_ok ap r ->
  forall ap1 w b, push_store ap r = (ap1, w, b) ->
  audiobuf_ok (buf ap1)
  /\ b = sc_audiobuf_can_read (buf ap1)
  /\ 0 <= w <= ab_capacity (buf ap)
  /\ same_config ap ap1
  /\ samples_since_resync ap1 = samples_since_resync ap
  /\ played ap1 = played ap.
Proof.
  intros (Hok & Hcfg & Hpcw & Hssr) (Hw & Hl) ap1 w b Hst.
  destruct (audiobuf_ok_can_read _ Hok) as [Hcr Hcap].
  pose proof (can_read_plus_can_write (buf ap)) as Hsum.
  unfold sc_audiobuf_capacity in Hsum.
  destruct (r_lockless_write r) eqn:Hll.
  - (* the prepared write is committed *)
    symmetry in Hl. apply Z.leb_le in Hl.
    rewrite (push_store_lockless _ _ Hll) in Hst.
    injection Hst as <- <- <-.
    cbn [set_buf buf samples_since_resync played].
    rewrite can_read_commit_write.
    rewrite (u32_small (sc_audiobuf_can_read (buf ap))) by lia.
    rewrite u32_small by lia.
    split; [apply (audiobuf_ok_commit_write _ _ Hok); lia|].
    repeat split; lia.
  - destruct (Z.le_gt_cases (r_samples_written r)
                (sc_audiobuf_can_write (buf ap))) as [Hfit|Hover].
    + rewrite (push_store_fits _ _ Hll) in Hst
        by (rewrite u32_small; lia).
      injection Hst as <- <- <-.
      cbn [set_buf buf samples_since_resync played].
      rewrite can_read_write.
      rewrite (u32_small (sc_audiobuf_can_read (buf ap))) by lia.
      rewrite u32_small by lia.
      split; [apply (audiobuf_ok_write _ _ _ Hok); lia|].
      repeat split; lia.
    + rewrite (push_store_overflow _ _ Hok Hw Hll Hover) in Hst.
      injection Hst as <- <- <-.
      unfold sc_audiobuf_capacity in *.
      cbn [set_buf buf samples_since_resync played].
      rewrite can_read_write, can_read_skip.
      assert (Hfr : audiobuf_ok
                (sc_audiobuf_write
                   (sc_audiobuf_skip (buf ap)
                      (Z.min (r_samples_written r) (ab_capacity (buf ap))
                       - sc_audiobuf_can_write (buf ap)))
                   (skipn (Z.to_nat (TO_BYTES ap
                      (r_samples_written r
                       - Z.min (r_samples_written r) (ab_capacity (buf ap)))))
                      (r_swr_buf r))
                   (Z.min (r_samples_written r) (ab_capacity (buf ap))))).
      { apply audiobuf_ok_write.
        - apply (audiobuf_ok_skip _ _ Hok). lia.
        - unfold sc_audiobuf_can_write. rewrite can_read_skip. cbn. lia. }
      destruct (played ap) eqn:Hp; (split; [exact Hfr|]);
        repeat split; try lia; exact Hp.
Qed.

(** ** The locked part of [push]: the caps *)

Lemma config_ok_target (ap : sc_audio_player) :
  config_ok ap ->
  0 <= 60 * sample_rate ap / 1000
  /\ 0 <= 10 * sample_rate ap / 1000 <= 60 * sample_rate ap / 1000
  /\ 0 <= target_buffering ap / 10
  /\ target_buffering ap < 2 ^ 32.
Proof.
  intros (Hs & Hs60 & Ht & Hmax & _).
  assert (0 <= 60 * sample_rate ap / 1000) by (apply Z.div_pos; lia).
  assert (0 <= 10 * sample_rate ap / 1000) by (apply Z.div_pos; lia).
  assert (10 * sample_rate ap / 1000 <= 60 * sample_rate ap / 1000)
    by (apply Z.div_le_mono; lia).
  assert (0 <= target_buffering ap / 10) by (apply Z.div_pos; lia).
  lia.
Qed.

Lemma max_buffered_samples_eq (ap : sc_audio_player) :
  config_ok ap -> max_buffered_samples ap = max_buffered ap.
Proof.
  intros Hc. pose proof (config_ok_target _ Hc) as (H60 & H10 & Ht10 & Ht).
  destruct Hc as (Hs & Hs60 & Ht0 & Hmax & _).
  unfold max_buffered_samples, max_buffered, SC_AUDIO_OUTPUT_BUFFER_MS.
  change (12 * 5) with 60 in *.
  rewrite (u32_small (60 * sample_rate ap)) by lia.
  rewrite (u32_small (target_buffering ap + _)) by lia.
  rewrite u32_small by lia. reflexivity.
Qed.

Lemma max_initial_buffering_eq (ap : sc_audio_player) :
  config_ok ap -> max_initial_buffering ap = max_initial ap.
Proof.
  intros Hc. pose proof (config_ok_target _ Hc) as (H60 & H10 & Ht10 & Ht).
  destruct Hc as (Hs & Hs60 & Ht0 & Hmax & _).
  unfold max_initial_buffering, max_initial, SC_AUDIO_OUTPUT_BUFFER_MS.
  change (2 * 5) with 10 in *.
  rewrite (u32_small (10 * sample_rate ap)) by lia.
  rewrite u32_small by lia. reflexivity.
Qed.

Lemma max_initial_le_max_buffered (ap : sc_audio_player) :
  config_ok ap -> 0 <= max_initial ap <= max_buffered ap.
Proof.
  intros Hc. pose proof (config_ok_target _ Hc) as (H60 & H10 & Ht10 & Ht).
  destruct Hc as (Hs & Hs60 & Ht0 & Hmax & _).
  unfold max_initial, max_buffered.
  change (2 * 5) with 10. change (12 * 5) with 60. lia.
Qed.

Lemma push_bound_ok (ap : sc_audio_player) (nb w b : Z) :
  audiobuf_ok (buf ap) -> config_ok ap ->
  b = sc_audiobuf_can_read (buf ap) ->
  forall ap' u, push_bound ap nb w b = (ap', u) ->
  u = mk_unlocked w b (played ap)
  /\ audiobuf_ok (buf ap')
  /\ sc_audiobuf_can_read (buf ap') = Z.min b (buffering_cap ap)
  /\ previous_can_write ap' = sc_audiobuf_can_write (buf ap')
  /\ received ap' = true
  /\ same_config ap ap'
  /\ samples_since_resync ap' = samples_since_resync ap
  /\ played ap' = played ap.
Proof.
  intros Hok Hc Hb ap' u Hpb.
  destruct (audiobuf_ok_can_read _ Hok) as [Hcr Hcap].
  pose proof (max_initial_le_max_buffered _ Hc) as Hle.
  unfold push_bound in Hpb.
  rewrite (max_buffered_samples_eq _ Hc), (max_initial_buffering_eq _ Hc) in Hpb.
  unfold buffering_cap.
  destruct (played ap) eqn:Hp.
  - destruct (Z.gtb_spec b (max_buffered ap)) as [Hgt|Hle'].
    + rewrite (u32_small (b - max_buffered ap)) in Hpb by lia.
      injection Hpb as <- <-.
      cbn [buf set_received set_previous_can_write set_avg_buffering avg_add
           set_buf previous_can_write received samples_since_resync played].
      assert (Hok' : audiobuf_ok (sc_audiobuf_skip (buf ap) (b - max_buffered ap)))
        by (apply (audiobuf_ok_skip _ _ Hok); lia).
      destruct (audiobuf_ok_can_read _ Hok') as [Hcr' _].
      unfold sc_audiobuf_can_write in *. rewrite can_read_skip in *.
      cbn [ab_capacity sc_audiobuf_skip ab_set_tail] in *.
      rewrite u32_small by lia.
      splits; try assumption; try reflexivity; try lia;
        try (repeat split).
    + injection Hpb as <- <-.
      cbn [buf set_received set_previous_can_write set_avg_buffering avg_add
           set_buf previous_can_write received samples_since_resync played].
      unfold sc_audiobuf_can_write. rewrite u32_small by lia.
      splits; try assumption; try reflexivity; try lia;
        try (repeat split).
  - destruct (Z.gtb_spec b (max_initial ap)) as [Hgt|Hle'].
    + rewrite (u32_small (b - max_initial ap)) in Hpb by lia.
      injection Hpb as <- <-.
      cbn [buf set_received set_previous_can_write
           set_buf previous_can_write received samples_since_resync played].
      assert (Hok' : audiobuf_ok (sc_audiobuf_skip (buf ap) (b - max_initial ap)))
        by (apply (audiobuf_ok_skip _ _ Hok); lia).
      destruct (audiobuf_ok_can_read _ Hok') as [Hcr' _].
      unfold sc_audiobuf_can_write in *. rewrite can_read_skip in *.
      cbn [ab_capacity sc_audiobuf_skip ab_set_tail] in *.
      rewrite u32_small by lia.
      splits; try assumption; try reflexivity; try lia;
        try (repeat split).
    + injection Hpb as <- <-.
      cbn [buf set_received set_previous_can_write
           set_buf previous_can_write received samples_since_resync played].
      unfold sc_audiobuf_can_write. rewrite u32_small by lia.
      splits; try assumption; try reflexivity; try lia;
        try (repeat split).
Qed.

Lemma buffering_cap_same (a b : sc_audio_player) :
  same_config a b -> played a = played b ->
  buffering_cap a = buffering_cap b.
Proof.
  intros (Ht & Hs & _) Hp.
  unfold buffering_cap, max_buffered, max_initial.
  rewrite Ht, Hs, Hp. reflexivity.
Qed.

(** ** The invariant *)

Lemma push_locked_ok (ap : sc_audio_player) (r : resampled) :
  player_ok ap -> resampled_ok ap r ->
  forall ap2 u, push_locked ap r = (ap2, u) ->
  player_ok ap2
  /\ unlocked_ok ap2 u
  /\ same_config ap ap2
  /\ samples_since_resync ap2 = samples_since_resync ap
  /\ played ap2 = played ap
  /\ u_played u = played ap
  /\ received ap2 = true
  /\ sc_audiobuf_can_read (buf ap2)
     = Z.min (u_buffered_samples u) (buffering_cap ap).
Proof.
  intros Hok Hr ap2 u Hpl. unfold push_locked in Hpl.
  destruct (push_store ap r) as [[ap1 w] b] eqn:Hst.
  destruct (push_store_ok _ _ Hok Hr _ _ _ Hst)
    as (Hok1 & Hb & Hw & Hsame1 & Hssr1 & Hp1).
  destruct Hok as (Hring & Hcfg & Hpcw & Hssr).
  pose proof (config_ok_same _ _ Hsame1 Hcfg) as Hcfg1.
  destruct (push_bound_ok _ _ _ _ Hok1 Hcfg1 Hb _ _ Hpl)
    as (Hu & Hok2 & Hcr2 & Hpcw2 & Hrcv & Hsame2 & Hssr2 & Hp2).
  pose proof (same_config_trans _ _ _ Hsame1 Hsame2) as Hsame.
  pose proof (config_ok_same _ _ Hsame Hcfg) as Hcfg2.
  destruct (audiobuf_ok_can_read _ Hok2) as [Hcr Hcap].
  pose proof (can_read_plus_can_write (buf ap2)) as Hsum.
  unfold sc_audiobuf_capacity in Hsum.
  destruct Hsame as (Ht & Hs & Hc & Hss).
  subst u. cbn [u_samples_written u_buffered_samples u_played].
  unfold player_ok, unlocked_ok. cbn [u_samples_written].
  splits; try assumption; try lia; try congruence.
  - repeat split; congruence.
  - rewrite Hcr2. f_equal. symmetry.
    apply buffering_cap_same; [assumption|congruence].
Qed.

Lemma get_swr_buf_frame (ap : sc_audio_player) (n : Z) (c : bool) :
  forall ap1 ok, sc_audio_player_get_swr_buf ap n c = (ap1, ok) ->
  ap1 = set_swr_buf_alloc_size ap (swr_buf_alloc_size ap1)
  /\ (swr_buf_alloc_size ap1 = swr_buf_alloc_size ap
      \/ swr_buf_alloc_size ap < TO_BYTES ap n
         /\ ok = true
         /\ swr_buf_alloc_size ap1 = size_t (TO_BYTES ap n + 4096)).
Proof.
  intros ap1 ok H. unfold sc_audio_player_get_swr_buf in H.
  destruct (Z.gtb_spec (TO_BYTES ap n) (swr_buf_alloc_size ap)) as [Hgt|Hle].
  - destruct c; cbn [negb] in H; injection H as <- <-.
    + cbn [set_swr_buf_alloc_size swr_buf_alloc_size]. split; [reflexivity|].
      right. auto.
    + split; [destruct ap; reflexivity|]. left. reflexivity.
  - injection H as <- <-. split; [destruct ap; reflexivity|]. left. reflexivity.
Qed.

Lemma player_ok_set_swr_buf_alloc_size (ap : sc_audio_player) (n : Z) :
  player_ok ap -> player_ok (set_swr_buf_alloc_size ap n).
Proof. intros H. exact H. Qed.

Lemma push_resample_ok (ap : sc_audio_player) (frame : AVFrame) (io : swr_io) :
  player_ok ap ->
  forall ap1 o, push_resample ap frame io = (ap1, o) ->
  player_ok ap1
  /\ same_config ap ap1
  /\ samples_since_resync ap1 = samples_since_resync ap
  /\ played ap1 = played ap
  /\ avg_buffering ap1 = avg_buffering ap
  /\ sc_audiobuf_can_read (buf ap1) = sc_audiobuf_can_read (buf ap)
  /\ forall r, o = Some r ->
       resampled_ok ap1 r /\ r_nb_samples r = nb_samples frame.
Proof.
  intros Hok ap1 o H. unfold push_resample in H.
  destruct (sc_audio_player_get_swr_buf ap _ _) as [ap0 ok] eqn:Hg.
  destruct (get_swr_buf_frame _ _ _ _ _ Hg) as [Hfr _].
  set (a := swr_buf_alloc_size ap0) in Hfr. clearbody a. subst ap0.
  pose proof (player_ok_set_swr_buf_alloc_size ap a Hok) as Hok0.
  assert (Hsame : same_config ap (set_swr_buf_alloc_size ap a))
    by (repeat split).
  destruct ok; cbn [negb] in H.
  - destruct (swr_convert io <? 0).
    + injection H as <- <-. splits; try assumption; try reflexivity.
      intros r Hr. discriminate Hr.
    + injection H as <- <-.
      assert (Hres : forall r,
        Some {| r_swr_buf := swr_convert_out io;
                r_samples_written :=
                  u32 (MIN (swr_convert io)
                         (i32 (swr_get_delay io + nb_samples frame + 256)));
                r_lockless_write :=
                  u32 (MIN (swr_convert io)
                         (i32 (swr_get_delay io + nb_samples frame + 256)))
                  <=? previous_can_write (set_swr_buf_alloc_size ap a);
                r_nb_samples := nb_samples frame |} = Some r ->
        r_nb_samples r = nb_samples frame
        /\ 0 <= r_samples_written r < 2 ^ 32
        /\ r_lockless_write r
           = (r_samples_written r <=? previous_can_write ap)).
      { intros r Hr. injection Hr as <-. cbn.
        split; [reflexivity|]. split; [apply u32_range|reflexivity]. }
      destruct (_ <=? _);
        (splits; [exact Hok0 | exact Hsame | reflexivity | reflexivity
                 | reflexivity | reflexivity | ]);
        intros r Hr; destruct (Hres r Hr) as (? & ? & ?);
        split; [split| | split|]; assumption.
  - injection H as <- <-. splits; try assumption; try reflexivity.
    intros r Hr. discriminate Hr.
Qed.

Lemma push_resync_ok (ap : sc_audio_player) (u : unlocked) :
  player_ok ap -> unlocked_ok ap u ->
  player_ok (fst (push_resync ap u))
  /\ same_config ap (fst (push_resync ap u))
  /\ previous_can_write (fst (push_resync ap u)) = previous_can_write ap.
Proof.
  intros (Hring & Hcfg & Hpcw & Hssr) Hu. unfold unlocked_ok in Hu.
  assert (Hcap : ab_capacity (buf ap) + sample_rate ap < 2 ^ 32)
    by (unfold config_ok in Hcfg; tauto).
  unfold push_resync.
  destruct (u_played u).
  - cbn [samples_since_resync set_samples_since_resync sample_rate].
    rewrite u32_small by lia.
    destruct (Z.geb_spec (samples_since_resync ap + u_samples_written u)
                (sample_rate ap)) as [Hge|Hlt];
      cbn [fst]; (split; [|split; [repeat split|reflexivity]]);
      (split; [exact Hring|split; [exact Hcfg|split; [exact Hpcw|]]]);
      cbn [samples_since_resync set_samples_since_resync sample_rate]; lia.
  - cbn [fst]. split; [|split; [repeat split|reflexivity]].
    unfold player_ok. tauto.
Qed.

(** ** The callback *)

Lemma callback_initial_silence (ap : sc_audio_player) (stream : list byte)
    (len_int : Z) :
  initial_silence ap = true ->
  sc_audio_player_sdl_callback ap stream len_int
  = (ap, memset0 stream 0 (size_t len_int)).
Proof.
  intros H. unfold sc_audio_player_sdl_callback.
  unfold initial_silence in H. rewrite H. reflexivity.
Qed.

Lemma callback_playing (ap : sc_audio_player) (stream : list byte)
    (len_int : Z) :
  initial_silence ap = false ->
  played (fst (sc_audio_player_sdl_callback ap stream len_int)) = true.
Proof.
  intros H. unfold sc_audio_player_sdl_callback.
  unfold initial_silence in H. rewrite H.
  destruct (if _ =? 0 then _ else _) as [b1 s1].
  destruct (if _ <? _ then _ else _) as [ap2 s2].
  reflexivity.
Qed.

Lemma callback_played (ap : sc_audio_player) (stream : list byte)
    (len_int : Z) :
  played (fst (sc_audio_player_sdl_callback ap stream len_int))
  = negb (initial_silence ap).
Proof.
  destruct (initial_silence ap) eqn:H.
  - rewrite (callback_initial_silence _ _ _ H). cbn [fst negb].
    unfold initial_silence in H. apply andb_prop in H as [H _].
    destruct (played ap); [discriminate H|reflexivity].
  - apply callback_playing. exact H.
Qed.

Lemma memset0_whole (stream : list byte) (n : Z) :
  length stream = Z.to_nat n ->
  memset0 stream 0 n = repeat x00 (Z.to_nat n).
Proof.
  intros H. unfold memset0, blit. cbn [Z.to_nat firstn app].
  rewrite repeat_length, Nat.add_0_l, <- H, skipn_all. apply app_nil_r.
Qed.

(** The test of the initial-buffering branch, over the integers. *)
Lemma initial_silence_spec (ap : sc_audio_player) :
  audiobuf_ok (buf ap) -> config_ok ap ->
  initial_silence ap = true
  <-> played ap = false
      /\ sc_audiobuf_can_read (buf ap) + 30 * sample_rate ap / 1000
         < target_buffering ap.
Proof.
  intros Hok Hc.
  destruct (audiobuf_ok_can_read _ Hok) as [Hcr Hcap].
  pose proof (config_ok_target _ Hc) as (H60 & H10 & Ht10 & Ht).
  destruct Hc as (Hs & Hs60 & Ht0 & Hmax & Hcs).
  assert (H30 : 0 <= 30 * sample_rate ap / 1000 <= sample_rate ap).
  { split; [apply Z.div_pos; lia|].
    apply Z.div_le_upper_bound; lia. }
  unfold initial_silence.
  rewrite (u32_small (sc_audiobuf_can_read (buf ap))) by lia.
  rewrite (u32_small (30 * sample_rate ap)) by lia.
  rewrite u32_small by lia.
  rewrite andb_true_iff, negb_true_iff, Z.ltb_lt. tauto.
Qed.

(** The callback past the initial buffering: what it reads, where the
    silence goes, and what becomes of the average. *)
Lemma callback_read (ap : sc_audio_player) (stream : list byte) (len_int : Z) :
  audiobuf_ok (buf ap) ->
  initial_silence ap = false ->
  let count := TO_SAMPLES ap (size_t len_int) in
  let read := Z.min (sc_audiobuf_can_read (buf ap)) count in
  let ap1 :=
    set_buf ap (if read =? 0 then buf ap else sc_audiobuf_skip (buf ap) read) in
  let stream1 :=
    if read =? 0 then stream else blit stream 0 (ab_peek (buf ap) read) in
  sc_audio_player_sdl_callback ap stream len_int
  = if read <? count then
      (set_played (if received ap then avg_add ap1 (count - read) else ap1) true,
       memset0 stream1 read (TO_BYTES ap (count - read)))
    else (set_played ap1 true, stream1).
Proof.
  intros Hok Hgate count read ap1 stream1.
  destruct (audiobuf_ok_can_read _ Hok) as [Hcr Hcap].
  assert (Hcount : 0 <= count < 2 ^ 32) by apply u32_range.
  unfold sc_audio_player_sdl_callback.
  unfold initial_silence in Hgate. rewrite Hgate.
  rewrite (u32_small (sc_audiobuf_can_read (buf ap))) by lia.
  rewrite MIN_spec. fold count. fold read.
  unfold sc_audiobuf_read.
  destruct (Z.eqb_spec read 0) as [H0|H0];
    destruct (Z.ltb_spec read count) as [Hlt|Hge];
    try rewrite (u32_small (count - read)) by lia;
    reflexivity.
Qed.

(** With at least [count] samples in the ring the callback hands out the
    [count] oldest ones, adds no silence and leaves the average alone. *)
Lemma callback_full_supply (ap : sc_audio_player) (stream : list byte)
    (len_int : Z) :
  audiobuf_ok (buf ap) ->
  initial_silence ap = false ->
  let count := TO_SAMPLES ap (size_t len_int) in
  0 < count <= sc_audiobuf_can_read (buf ap) ->
  sc_audio_player_sdl_callback ap stream len_int
  = (set_played (set_buf ap (sc_audiobuf_skip (buf ap) count)) true,
     blit stream 0 (ab_peek (buf ap) count)).
Proof.
  intros Hok Hgate count Hc.
  rewrite (callback_read _ _ _ Hok Hgate). fold count.
  rewrite Z.min_r by lia.
  destruct (Z.eqb_spec count 0); [lia|].
  destruct (Z.ltb_spec count count); [lia|]. reflexivity.
Qed.

Lemma callback_ok (ap : sc_audio_player) (stream : list byte) (len_int : Z) :
  player_ok ap ->
  player_ok (fst (sc_audio_player_sdl_callback ap stream len_int))
  /\ same_config ap (fst (sc_audio_player_sdl_callback ap stream len_int))
  /\ previous_can_write (fst (sc_audio_player_sdl_callback ap stream len_int))
     = previous_can_write ap.
Proof.
  intros (Hok & Hcfg & Hpcw & Hssr).
  destruct (initial_silence ap) eqn:Hgate.
  - rewrite (callback_initial_silence _ _ _ Hgate). cbn [fst].
    split; [unfold player_ok; tauto|].
    split; [apply same_config_refl|reflexivity].
  - rewrite (callback_read _ _ _ Hok Hgate).
    destruct (audiobuf_ok_can_read _ Hok) as [Hcr Hcap].
    set (count := TO_SAMPLES ap (size_t len_int)).
    assert (Hcount : 0 <= count < 2 ^ 32) by apply u32_range.
    set (read := Z.min (sc_audiobuf_can_read (buf ap)) count).
    assert (Hbuf : audiobuf_ok
              (if read =? 0 then buf ap else sc_audiobuf_skip (buf ap) read)
            /\ sc_audiobuf_can_write (buf ap)
               <= sc_audiobuf_can_write
                    (if read =? 0 then buf ap
                     else sc_audiobuf_skip (buf ap) read)
            /\ ab_capacity
                 (if read =? 0 then buf ap else sc_audiobuf_skip (buf ap) read)
               = ab_capacity (buf ap)
            /\ ab_sample_size
                 (if read =? 0 then buf ap else sc_audiobuf_skip (buf ap) read)
               = ab_sample_size (buf ap)).
    { destruct (read =? 0); [splits; [exact Hok|lia|reflexivity|reflexivity]|].
      splits; [apply (audiobuf_ok_skip _ _ Hok); lia| |reflexivity|reflexivity].
      unfold sc_audiobuf_can_write. rewrite can_read_skip. cbn. lia. }
    destruct Hbuf as (Hok' & Hcw & Hcap' & Hss').
    assert (Hc' : forall a, same_config ap a -> config_ok a)
      by (intros a Ha; exact (config_ok_same _ _ Ha Hcfg)).
    destruct (read <? count); [destruct (received ap)|];
      unfold player_ok;
      cbn [fst set_played avg_add set_avg_buffering set_buf
           buf previous_can_write samples_since_resync sample_rate];
      (splits; [exact Hok' | apply Hc'; repeat split; symmetry; assumption
               | lia | lia | lia | lia
               | repeat split; symmetry; assumption | reflexivity]).
Qed.

Lemma step_ok (s : session) (a : action) :
  session_ok s -> session_ok (step s a).
Proof.
  destruct s as [ap p]. intros [Hok Hp]. cbn [fst snd] in Hok, Hp.
  destruct a as [stream len_int|frame io| |]; unfold step; cbn [fst snd].
  - destruct (callback_ok ap stream len_int Hok) as (Hok' & Hsame & Hpcw).
    split; [exact Hok'|]. cbn [fst snd].
    destruct p as [|r|u]; cbn [producer_ok] in *.
    + exact I.
    + unfold resampled_ok in *. rewrite Hpcw. exact Hp.
    + unfold unlocked_ok in *. destruct Hsame as (_ & _ & Hc & _).
      rewrite <- Hc. exact Hp.
  - destruct p as [|r|u]; try (split; assumption).
    destruct (push_resample ap frame io) as [ap1 o] eqn:Hr.
    destruct (push_resample_ok _ _ _ Hok _ _ Hr) as (Hok1 & _ & _ & _ & _ & _ & Hres).
    destruct o as [r|]; split; cbn [fst snd producer_ok];
      try assumption; try exact I.
    apply (Hres r eq_refl).
  - destruct p as [|r|u]; try (split; assumption).
    destruct (push_locked ap r) as [ap2 u] eqn:Hl.
    cbn [producer_ok] in Hp.
    destruct (push_locked_ok _ _ Hok Hp _ _ Hl) as (Hok2 & Hu & _).
    split; assumption.
  - destruct p as [|r|u]; try (split; assumption).
    cbn [producer_ok] in Hp.
    destruct (push_resync_ok _ _ Hok Hp) as (Hok3 & _).
    split; [exact Hok3|exact I].
Qed.

Lemma run_ok (l : list action) :
  forall s : session, session_ok s -> session_ok (run s l).
Proof.
  induction l as [|a l IH]; intros s Hs; cbn [run fold_left].
  - exact Hs.
  - apply IH. apply step_ok. exact Hs.
Qed.

(** The state [open] sets up is well formed, for a rate and a target that
    fit. *)
Lemma open_ok (tick_freq delay rate channels bytes : Z) (io : open_io)
    (ap : sc_audio_player) :
  0 < tick_freq -> 0 <= delay ->
  0 < rate -> 60 * rate < 2 ^ 32 ->
  0 < channels * bytes < 2 ^ 32 ->
  0 <= channels < 2 ^ 32 -> 0 <= bytes < 2 ^ 32 ->
  2 * (delay * rate / tick_freq) + 2 * rate < 2 ^ 32 ->
  sc_audio_player_frame_sink_open tick_freq delay rate channels bytes io
  = Some ap ->
  session_ok (ap, Idle)
  /\ played ap = false /\ received ap = false
  /\ sample_rate ap = rate
  /\ target_buffering ap = delay * rate / tick_freq
  /\ sc_audiobuf_capacity (buf ap) = target_buffering ap + rate
  /\ sc_audiobuf_can_read (buf ap) = 0.
Proof.
  intros Hf Hd Hr Hr60 Hss Hch Hby Hfit Hopen.
  assert (Ht : 0 <= delay * rate / tick_freq) by (apply Z.div_pos; nia).
  unfold sc_audio_player_frame_sink_open in Hopen.
  destruct (device_opened io); [|discriminate Hopen].
  destruct (swr_allocated io); [|discriminate Hopen].
  destruct (swr_initialized io); [|discriminate Hopen].
  destruct (audiobuf_allocated io); [|discriminate Hopen].
  destruct (swr_buf_allocated io); [|discriminate Hopen].
  cbn [negb] in Hopen.
  rewrite (u32_small rate), (u32_small channels), (u32_small bytes) in Hopen
    by lia.
  rewrite Z.quot_div_nonneg in Hopen by nia.
  rewrite (u32_small (delay * rate / tick_freq)) in Hopen by lia.
  rewrite (u32_small (delay * rate / tick_freq + rate)) in Hopen by lia.
  rewrite (u32_small (channels * bytes)) in Hopen by lia.
  injection Hopen as <-.
  unfold session_ok, player_ok, audiobuf_ok, config_ok, producer_ok,
    sc_audiobuf_can_write, sc_audiobuf_can_read, sc_audiobuf_capacity.
  cbn [fst snd buf target_buffering sample_rate previous_can_write
       samples_since_resync played received sc_audiobuf_init
       ab_capacity ab_sample_size ab_head ab_tail].
  rewrite u32_small by lia.
  assert (0 <= 60 * rate / 1000 <= rate).
  { split; [apply Z.div_pos; lia|]. apply Z.div_le_upper_bound; lia. }
  assert (0 <= delay * rate / tick_freq / 10 <= delay * rate / tick_freq).
  { split; [apply Z.div_pos; lia|]. apply Z.div_le_upper_bound; lia. }
  splits; try reflexivity; lia.
Qed.

Lemma push_success (ap : sc_audio_player) (frame : AVFrame) (io : swr_io)
    (ap1 : sc_audio_player) (r : resampled) :
  push_resample ap frame io = (ap1, Some r) ->
  sc_audio_player_frame_sink_push ap frame io
  = (fst (push_resync (fst (push_locked ap1 r)) (snd (push_locked ap1 r))),
     true,
     SDL_LockAudioDevice :: SDL_UnlockAudioDevice
       :: snd (push_resync (fst (push_locked ap1 r)) (snd (push_locked ap1 r)))).
Proof.
  intros H. unfold sc_audio_player_frame_sink_push. rewrite H.
  destruct (push_locked ap1 r) as [ap2 u]. cbn [fst snd].
  destruct (push_resync ap2 u) as [ap3 evs]. reflexivity.
Qed.

Lemma push_failure (ap : sc_audio_player) (frame : AVFrame) (io : swr_io)
    (ap' : sc_audio_player) (evs : list event) :
  sc_audio_player_frame_sink_push ap frame io = (ap', false, evs) ->
  push_resample ap frame io = (ap', None) /\ evs = [].
Proof.
  unfold sc_audio_player_frame_sink_push.
  destruct (push_resample ap frame io) as [ap1 [r|]].
  - destruct (push_locked ap1 r) as [ap2 u].
    destruct (push_resync ap2 u) as [ap3 e]. intros H. discriminate H.
  - intros H. injection H as <- <-. split; reflexivity.
Qed.

(** ** The resynchronisation *)

Lemma push_resync_not_played (ap : sc_audio_player) (u : unlocked) :
  u_played u = false -> push_resync ap u = (ap, []).
Proof. intros H. unfold push_resync. rewrite H. reflexivity. Qed.

(** The unlocked tail of a push that found [played] set, over the
    integers. *)
Lemma push_resync_playing (ap : sc_audio_player) (u : unlocked) :
  player_ok ap -> unlocked_ok ap u -> u_played u = true ->
  let n := samples_since_resync ap + u_samples_written u in
  let distance := 4 * sample_rate ap in
  let diff0 :=
    f32_to_int (f32_sub (f32_of_Z (target_buffering ap))
                        (avg (avg_buffering ap))) in
  let diff1 :=
    if (diff0 <? 0) && (u_buffered_samples u <? target_buffering ap)
    then 0 else diff0 in
  push_resync ap u
  = if n <? sample_rate ap then (set_samples_since_resync ap n, [])
    else (set_samples_since_resync ap 0,
          [swr_set_compensation
             (CLAMP diff1 (- (distance / 50)) (distance / 50)) distance]).
Proof.
  intros (Hring & Hcfg & Hpcw & Hssr) Hu Hp n distance diff0 diff1.
  unfold unlocked_ok in Hu.
  destruct Hcfg as (Hs & Hs60 & Ht0 & Hmax & Hcs).
  unfold push_resync. rewrite Hp.
  cbn [samples_since_resync set_samples_since_resync sample_rate
       target_buffering avg_buffering sc_average_get].
  fold n. rewrite (u32_small n) by (unfold n; lia).
  destruct (Z.geb_spec n (sample_rate ap)) as [Hge|Hlt];
    destruct (Z.ltb_spec n (sample_rate ap)) as [Hlt'|Hge']; try lia.
  - rewrite (u32_small (4 * sample_rate ap)) by lia.
    rewrite i32_small by lia. fold distance.
    rewrite Z.quot_div_nonneg by (unfold distance; lia).
    fold diff0. fold diff1. reflexivity.
  - reflexivity.
Qed.

Lemma compensation_range (distance d : Z) :
  0 <= distance ->
  - (distance / 50) <= CLAMP d (- (distance / 50)) (distance / 50)
  <= distance / 50.
Proof.
  intros H. apply CLAMP_range.
  assert (0 <= distance / 50) by (apply Z.div_pos; lia). lia.
Qed.

(** * The claims *)

(** Closes the goals that a computation decides. *)
Ltac decide_by_computation :=
  lazy;
  repeat match goal with
         | |- _ /\ _ => split
         | |- _ = _ => reflexivity
         | |- _ -> False => let H := fresh in intro H; discriminate H
         | |- True => exact I
         end.

(** C8: within a session, once [played] is true it stays true under any
    sequence of callbacks and of producer steps, however they interleave;
    in particular a callback that underflows while playing leaves
    [played] set. *)
Theorem played_never_returns_to_false :
  forall (s : session) (l : list action),
    played (fst s) = true -> played (fst (run s l)) = true.
Proof. intros s l H. apply run_keeps_played. exact H. Qed.

Lemma played_never_returns_to_false_witness :
  played
    (fst (run (ex_player 2400 0 f32_zero 0 false true, Idle)
            [Callback (ex_stream 960) 960;
             PushResample (mk_frame 960) (ex_io 960);
             Callback (ex_stream 960) 960;
             PushLocked; PushResync;
             Callback (ex_stream 960) 960]))
  = true.
Proof.
  apply played_never_returns_to_false. reflexivity.
Defined.

(** C10: a push that returns failure (the scratch buffer could not grow,
    or the resampler refused the frame) has not taken the device lock and
    has left the ring, the average, [played], [received],
    [previous_can_write] and [samples_since_resync] as they were; the only
    field that can differ is the allocated size of the scratch buffer,
    which is either unchanged or the new, larger request plus 4096. *)
Theorem failed_push_leaves_playback_state :
  forall (ap : sc_audio_player) (frame : AVFrame) (io : swr_io)
         (ap' : sc_audio_player) (evs : list event),
    sc_audio_player_frame_sink_push ap frame io = (ap', false, evs) ->
    evs = []
    /\ buf ap' = buf ap
    /\ avg_buffering ap' = avg_buffering ap
    /\ played ap' = played ap
    /\ received ap' = received ap
    /\ previous_can_write ap' = previous_can_write ap
    /\ samples_since_resync ap' = samples_since_resync ap
    /\ ap' = set_swr_buf_alloc_size ap (swr_buf_alloc_size ap')
    /\ (swr_buf_alloc_size ap' = swr_buf_alloc_size ap
        \/ exists min_buf_size,
             swr_buf_alloc_size ap < min_buf_size
             /\ swr_buf_alloc_size ap' = size_t (min_buf_size + 4096)).
Proof.
  intros ap frame io ap' evs H.
  destruct (push_failure _ _ _ _ _ H) as [Hr ->]. clear H.
  unfold push_resample in Hr.
  destruct (sc_audio_player_get_swr_buf ap _ _) as [ap1 ok] eqn:Hg.
  destruct (get_swr_buf_frame _ _ _ _ _ Hg) as [Hfr Hsz].
  assert (ap1 = ap').
  { destruct ok; cbn [negb] in Hr.
    - destruct (swr_convert io <? 0); [|destruct (_ <=? _)];
        inversion Hr; reflexivity.
    - inversion Hr; reflexivity. }
  subst ap1.
  split; [reflexivity|].
  splits; try (rewrite Hfr; reflexivity); try exact Hfr.
  destruct Hsz as [Hsame|(Hlt & _ & Hnew)]; [left; exact Hsame|].
  right. eexists. split; [exact Hlt|exact Hnew].
Qed.

Lemma failed_push_leaves_playback_state_witness :
  let ap := ex_player 2400 100 f32_zero 0 true false in
  let io := {| swr_get_delay := 0; realloc_ok := true;
               swr_convert := -1; swr_convert_out := [] |} in
  let ap' := fst (fst (sc_audio_player_frame_sink_push ap (mk_frame 4096) io)) in
  buf ap' = buf ap
  /\ avg_buffering ap' = avg_buffering ap
  /\ swr_buf_alloc_size ap = 16384
  /\ swr_buf_alloc_size ap' = 21504.
Proof.
  intros ap io ap'.
  destruct (failed_push_leaves_playback_state ap (mk_frame 4096) io ap' [])
    as (_ & Hbuf & Havg & _).
  - reflexivity.
  - split; [exact Hbuf|]. split; [exact Havg|].
    split; reflexivity.
Defined.

(** C3: a callback that finds [played] false and
    [can_read + margin < target_buffering], with
    [margin = 30 * sample_rate / 1000], fills the whole output buffer with
    zero bytes and changes nothing, [played] included; and a callback that
    leaves [played] false has emitted nothing but zero bytes. *)
Theorem initial_buffering_emits_silence :
  forall (ap : sc_audio_player) (stream : list byte) (len_int : Z),
    0 < len_int < 2 ^ 31 ->
    length stream = Z.to_nat len_int ->
    (audiobuf_ok (buf ap) -> config_ok ap ->
     played ap = false ->
     sc_audiobuf_can_read (buf ap) + 30 * sample_rate ap / 1000
       < target_buffering ap ->
     sc_audio_player_sdl_callback ap stream len_int
     = (ap, repeat x00 (Z.to_nat len_int)))
    /\ (played (fst (sc_audio_player_sdl_callback ap stream len_int)) = false ->
        snd (sc_audio_player_sdl_callback ap stream len_int)
        = repeat x00 (Z.to_nat len_int)).
Proof.
  intros ap stream len_int Hlen Hs.
  assert (Hsz : size_t len_int = len_int) by (apply size_t_small; lia).
  assert (Hgated : initial_silence ap = true ->
            sc_audio_player_sdl_callback ap stream len_int
            = (ap, repeat x00 (Z.to_nat len_int))).
  { intros Hg. rewrite (callback_initial_silence _ _ _ Hg), Hsz.
    rewrite (memset0_whole _ _ Hs). reflexivity. }
  split.
  - intros Hok Hc Hp Hlt. apply Hgated.
    apply (initial_silence_spec _ Hok Hc). split; assumption.
  - intros Hp. rewrite callback_played in Hp.
    apply negb_false_iff in Hp. rewrite (Hgated Hp). reflexivity.
Qed.

Lemma initial_buffering_emits_silence_witness :
  let ap := ex_player 2400 100 f32_zero 0 true false in
  sc_audio_player_sdl_callback ap (ex_stream 960) 960
  = (ap, repeat x00 (Z.to_nat 960))
  /\ snd (sc_audio_player_sdl_callback ap (ex_stream 960) 960)
     = repeat x00 (Z.to_nat 960).
Proof.
  intros ap.
  assert (Hlen : 0 < 960 < 2 ^ 31) by lia.
  assert (Hs : length (ex_stream 960) = Z.to_nat 960) by reflexivity.
  destruct (initial_buffering_emits_silence ap (ex_stream 960) 960 Hlen Hs)
    as [Hgate Hquiet].
  split.
  - apply Hgate; decide_by_computation.
  - apply Hquiet. reflexivity.
Defined.

(** C7, as the code has it: [played] goes from false to true by exactly
    one kind of step, a callback that does not take the initial-buffering
    branch; no part of a push sets it, and such a callback sets it whatever
    it emits, underflow silence included. *)
Theorem played_set_by_first_ungated_callback :
  forall (s : session) (a : action),
    played (fst s) = false ->
    (played (fst (step s a)) = true
     <-> exists stream len_int,
           a = Callback stream len_int /\ initial_silence (fst s) = false).
Proof.
  intros [ap p] a Hp. cbn [fst] in *.
  destruct a as [stream len_int|frame io| |].
  - unfold step. cbn [fst snd]. rewrite callback_played.
    rewrite negb_true_iff. split.
    + intros H. exists stream, len_int. split; [reflexivity|exact H].
    + intros (? & ? & _ & H). exact H.
  - split; [|intros (? & ? & H & _); discriminate H].
    intros H. exfalso. unfold step in H. cbn [fst snd] in H.
    destruct p; cbn [fst] in H; try congruence.
    pose proof (push_resample_played ap frame io) as Hk.
    destruct (push_resample ap frame io) as [ap1 [r|]];
      cbn [fst] in *; congruence.
  - split; [|intros (? & ? & H & _); discriminate H].
    intros H. exfalso. unfold step in H. cbn [fst snd] in H.
    destruct p; cbn [fst] in H; try congruence.
    pose proof (push_locked_played ap r) as Hk.
    destruct (push_locked ap r) as [ap1 u]; cbn [fst] in *; congruence.
  - split; [|intros (? & ? & H & _); discriminate H].
    intros H. exfalso. unfold step in H. cbn [fst snd] in H.
    destruct p; cbn [fst] in H; try congruence.
    rewrite push_resync_played in H. congruence.
Qed.

Lemma played_set_by_first_ungated_callback_witness :
  played
    (fst (step (ex_opened 20000, Idle) (Callback (ex_stream 960) 960)))
  = true.
Proof.
  apply (played_set_by_first_ungated_callback
           (ex_opened 20000, Idle) (Callback (ex_stream 960) 960)).
  - reflexivity.
  - exists (ex_stream 960), 960. split; reflexivity.
Defined.

(** C7, as the claim states it, fails: right after [open] with a target
    of 20 ms (960 samples, less than the 30 ms margin) the ring is empty,
    and the first callback emits 960 zero bytes and sets [played]. *)
Lemma silent_callback_sets_played :
  let ap := ex_opened 20000 in
  target_buffering ap = 960
  /\ played ap = false
  /\ snd (sc_audio_player_sdl_callback ap (ex_stream 960) 960)
     = repeat x00 (Z.to_nat 960)
  /\ played (fst (sc_audio_player_sdl_callback ap (ex_stream 960) 960)) = true.
Proof. intros ap. splits; lazy; reflexivity. Qed.

Lemma to_samples_small (ap : sc_audio_player) (len_int : Z) :
  0 < ab_sample_size (buf ap) -> 0 < len_int < 2 ^ 31 ->
  TO_SAMPLES ap (size_t len_int) = len_int / ab_sample_size (buf ap).
Proof.
  intros Hss Hlen. unfold TO_SAMPLES, sc_audiobuf_to_samples.
  rewrite size_t_small by lia.
  assert (0 <= len_int / ab_sample_size (buf ap) <= len_int).
  { split; [apply Z.div_pos; lia|].
    apply Z.div_le_upper_bound; [lia|]. nia. }
  apply u32_small. lia.
Qed.

Lemma blit_whole (dst src : list byte) :
  length src = length dst -> blit dst 0 src = src.
Proof.
  intros H. unfold blit. cbn [firstn app Nat.add].
  rewrite H, skipn_all. apply app_nil_r.
Qed.

(** With enough samples in the ring the device gets the oldest bytes of
    the content, in order, and the ring keeps the rest. *)
Lemma callback_delivers_oldest (ap : sc_audio_player) (stream : list byte)
    (len_int : Z) :
  audiobuf_data_ok (buf ap) ->
  initial_silence ap = false ->
  0 < len_int < 2 ^ 31 ->
  len_int mod ab_sample_size (buf ap) = 0 ->
  length stream = Z.to_nat len_int ->
  len_int / ab_sample_size (buf ap) <= sc_audiobuf_can_read (buf ap) ->
  snd (sc_audio_player_sdl_callback ap stream len_int)
  = firstn (Z.to_nat len_int) (ab_content (buf ap))
  /\ ab_content (buf (fst (sc_audio_player_sdl_callback ap stream len_int)))
     = skipn (Z.to_nat len_int) (ab_content (buf ap)).
Proof.
  intros Hdata Hgate Hlen Hdiv Hs Henough.
  pose proof Hdata as (Hok & Hcap & Hsize).
  assert (Hss : 0 < ab_sample_size (buf ap)) by (destruct Hok; assumption).
  destruct (audiobuf_ok_can_read _ Hok) as [Hcr _].
  pose proof (to_samples_small ap len_int Hss Hlen) as Hcount.
  assert (Hmul : len_int / ab_sample_size (buf ap) * ab_sample_size (buf ap)
                 = len_int).
  { pose proof (Z.div_mod len_int (ab_sample_size (buf ap))). lia. }
  assert (Hpos : 0 < len_int / ab_sample_size (buf ap)) by nia.
  rewrite (callback_full_supply _ _ _ Hok Hgate) by (rewrite Hcount; lia).
  rewrite Hcount. cbn [fst snd buf set_played set_buf].
  split.
  - rewrite blit_whole.
    + rewrite (peek_is_prefix _ _ Hdata), Hmul by lia. reflexivity.
    + rewrite (ab_peek_length _ Hdata), Hmul by lia. symmetry. exact Hs.
  - rewrite (content_skip _ _ Hdata), Hmul by lia. reflexivity.
Qed.

(** C4: when a callback past the initial buffering is asked for more
    samples than the ring holds, the average moves by the number of silent
    samples, [avg += silence] in [float] arithmetic, if [received] is set
    (the field [avg] becomes the sum, the window and its count stay; from
    2400.0, the [float] [9830400 * 2^-12], and 240 silent samples it
    becomes 2640.0, the [float] [10813440 * 2^-12]), and stays as it is
    otherwise; in particular, playing with an empty ring before any push,
    the output is all zero bytes and the average is untouched. *)
Theorem underflow_adjusts_avg_iff_received :
  forall (ap : sc_audio_player) (stream : list byte) (len_int : Z),
    audiobuf_ok (buf ap) ->
    0 < len_int < 2 ^ 31 ->
    initial_silence ap = false ->
    sc_audiobuf_can_read (buf ap) < len_int / ab_sample_size (buf ap) ->
    let silence :=
      len_int / ab_sample_size (buf ap) - sc_audiobuf_can_read (buf ap) in
    let ap' := fst (sc_audio_player_sdl_callback ap stream len_int) in
    (received ap = true ->
     avg_buffering ap'
     = average_set_avg (avg_buffering ap)
         (f32_add (avg (avg_buffering ap)) (f32_of_Z silence)))
    /\ (received ap = true ->
        avg (avg_buffering ap')
        = f32_add (avg (avg_buffering ap)) (f32_of_Z silence)
        /\ range (avg_buffering ap') = range (avg_buffering ap)
        /\ count (avg_buffering ap') = count (avg_buffering ap))
    /\ (received ap = true ->
        avg (avg_buffering ap) = S754_finite false 9830400 (-12) ->
        silence = 240 ->
        avg (avg_buffering ap') = S754_finite false 10813440 (-12))
    /\ (received ap = false -> avg_buffering ap' = avg_buffering ap)
    /\ (received ap = false ->
        sc_audiobuf_can_read (buf ap) = 0 ->
        length stream = Z.to_nat len_int ->
        len_int mod ab_sample_size (buf ap) = 0 ->
        snd (sc_audio_player_sdl_callback ap stream len_int)
        = repeat x00 (Z.to_nat len_int)).
Proof.
  intros ap stream len_int Hok Hlen Hgate Hunder silence ap'.
  destruct (audiobuf_ok_can_read _ Hok) as [Hcr Hcap].
  assert (Hss : 0 < ab_sample_size (buf ap)) by (unfold audiobuf_ok in Hok; tauto).
  pose proof (to_samples_small ap len_int Hss Hlen) as Hcount.
  pose proof (callback_read ap stream len_int Hok Hgate) as Hcb.
  cbv zeta in Hcb. rewrite Hcount in Hcb.
  rewrite Z.min_l in Hcb by lia.
  destruct (Z.ltb_spec (sc_audiobuf_can_read (buf ap))
              (len_int / ab_sample_size (buf ap))) as [_|]; [|lia].
  fold silence in Hcb. unfold ap'. rewrite Hcb. cbn [fst snd].
  assert (Hsum : received ap = true ->
            avg (avg_buffering
                   (set_played
                      (if received ap
                       then avg_add
                              (set_buf ap
                                 (if sc_audiobuf_can_read (buf ap) =? 0
                                  then buf ap
                                  else sc_audiobuf_skip (buf ap)
                                         (sc_audiobuf_can_read (buf ap))))
                              silence
                       else set_buf ap
                              (if sc_audiobuf_can_read (buf ap) =? 0
                               then buf ap
                               else sc_audiobuf_skip (buf ap)
                                      (sc_audiobuf_can_read (buf ap))))
                      true))
            = f32_add (avg (avg_buffering ap)) (f32_of_Z silence)).
  { intros Hr. rewrite Hr. reflexivity. }
  splits.
  - intros Hr. rewrite Hr. reflexivity.
  - intros Hr. split; [exact (Hsum Hr)|].
    rewrite Hr. split; reflexivity.
  - intros Hr Ha Hs. rewrite (Hsum Hr), Ha, Hs. reflexivity.
  - intros Hr. rewrite Hr. reflexivity.
  - intros Hr H0 Hs Hdiv.
    unfold silence. rewrite H0, Z.sub_0_r. cbn [Z.eqb].
    unfold TO_BYTES, sc_audiobuf_to_bytes.
    assert (Hmul : len_int / ab_sample_size (buf ap) * ab_sample_size (buf ap)
                   = len_int).
    { pose proof (Z.div_mod len_int (ab_sample_size (buf ap))). lia. }
    rewrite Hmul, size_t_small by lia.
    apply memset0_whole. exact Hs.
Qed.

Lemma underflow_adjusts_avg_iff_received_witness :
  let ap := ex_player 2400 0 (f32_of_Z 2400) 0 false true in
  let ap1 := ex_player 2400 0 (f32_of_Z 2400) 0 true true in
  let ap2 :=
    fst (run (ex_opened 50000, Idle)
           (ex_push 960
            ++ [Callback (ex_stream 960) 960; Callback (ex_stream 960) 960;
                Callback (ex_stream 960) 960; Callback (ex_stream 960) 960]))
  in
  (avg_buffering (fst (sc_audio_player_sdl_callback ap (ex_stream 960) 960))
   = avg_buffering ap
   /\ snd (sc_audio_player_sdl_callback ap (ex_stream 960) 960)
      = repeat x00 960)
  /\ (avg (avg_buffering ap1) = S754_finite false 9830400 (-12)
      /\ avg (avg_buffering
                (fst (sc_audio_player_sdl_callback ap1 (ex_stream 960) 960)))
         = S754_finite false 10813440 (-12))
  /\ (received ap2 = true
      /\ avg (avg_buffering ap2) = S754_zero false
      /\ avg (avg_buffering
                (fst (sc_audio_player_sdl_callback ap2 (ex_stream 960) 960)))
         = S754_finite false 15728640 (-16)).
Proof.
  intros ap ap1 ap2.
  assert (Hlen : 0 < 960 < 2 ^ 31) by lia.
  split; [|split].
  - assert (Hok : audiobuf_ok (buf ap)) by decide_by_computation.
    assert (Hgate : initial_silence ap = false) by reflexivity.
    assert (Hunder : sc_audiobuf_can_read (buf ap)
                     < 960 / ab_sample_size (buf ap)) by reflexivity.
    destruct (underflow_adjusts_avg_iff_received ap (ex_stream 960) 960
                Hok Hlen Hgate Hunder) as (_ & _ & _ & Havg & Hout).
    split.
    + apply Havg. reflexivity.
    + apply Hout; reflexivity.
  - assert (Hok : audiobuf_ok (buf ap1)) by decide_by_computation.
    assert (Hgate : initial_silence ap1 = false) by reflexivity.
    assert (Hunder : sc_audiobuf_can_read (buf ap1)
                     < 960 / ab_sample_size (buf ap1)) by reflexivity.
    destruct (underflow_adjusts_avg_iff_received ap1 (ex_stream 960) 960
                Hok Hlen Hgate Hunder) as (_ & _ & Hval & _).
    split; [reflexivity|].
    apply Hval; reflexivity.
  - assert (Hok : audiobuf_ok (buf ap2)) by decide_by_computation.
    assert (Hgate : initial_silence ap2 = false) by reflexivity.
    assert (Hunder : sc_audiobuf_can_read (buf ap2)
                     < 960 / ab_sample_size (buf ap2)) by reflexivity.
    destruct (underflow_adjusts_avg_iff_received ap2 (ex_stream 960) 960
                Hok Hlen Hgate Hunder) as (_ & Hsum & _).
    assert (Hr : received ap2 = true) by reflexivity.
    assert (Ha : avg (avg_buffering ap2) = S754_zero false) by reflexivity.
    split; [exact Hr|]. split; [exact Ha|].
    destruct (Hsum Hr) as (Hs & _). rewrite Hs, Ha. reflexivity.
Defined.

(** C9, at a partial underflow: a mono [float] player (samples of 4
    bytes) opened with a target of 50 ms has played its first 960 samples
    and received a frame of 100 more, and the device asks for 240 samples
    (960 bytes).  The callback copies the 400 bytes of the 100 samples and
    then clears 560 bytes starting at byte 100 (the count of samples read,
    used as a byte offset): 300 bytes of real samples are lost, and the
    last 300 bytes of the buffer keep their stale content, where the 100
    samples followed by 560 zero bytes were due. *)
Theorem partial_underflow_misplaces_silence :
  let ap := fst ex_session in
  played ap = true
  /\ sc_audiobuf_can_read (buf ap) = 100
  /\ ab_peek (buf ap) 100 = repeat x01 (Z.to_nat 400)
  /\ snd (sc_audio_player_sdl_callback ap (ex_stream 960) 960)
     = repeat x01 (Z.to_nat 100) ++ repeat x00 (Z.to_nat 560)
       ++ repeat xaa (Z.to_nat 300).
Proof. intros ap. splits; lazy; reflexivity. Qed.

Lemma push_resample_written (ap : sc_audio_player) (frame : AVFrame)
    (io : swr_io) (ap1 : sc_audio_player) (r : resampled) :
  push_resample ap frame io = (ap1, Some r) ->
  0 <= r_samples_written r < 2 ^ 32
  /\ (audiobuf_ok (buf ap) -> audiobuf_ok (buf ap1))
  /\ (r_lockless_write r = false -> buf ap1 = buf ap).
Proof.
  intros H. unfold push_resample in H.
  destruct (sc_audio_player_get_swr_buf ap _ _) as [ap0 ok] eqn:Hg.
  destruct (get_swr_buf_frame _ _ _ _ _ Hg) as [Hfr _].
  assert (Hbuf : buf ap0 = buf ap) by (rewrite Hfr; reflexivity).
  destruct ok; cbn [negb] in H; [|discriminate H].
  destruct (swr_convert io <? 0); [discriminate H|].
  destruct (_ <=? _) eqn:Hl; injection H as <- <-;
    cbn [r_samples_written r_lockless_write buf set_buf];
    (split; [apply u32_range|split]).
  - intros Hok. rewrite Hbuf. exact Hok.
  - intros Hf. discriminate Hf.
  - intros Hok. rewrite Hbuf. exact Hok.
  - intros _. exact Hbuf.
Qed.



(** ** The whole push *)

Lemma push_resync_buf (ap : sc_audio_player) (u : unlocked) :
  buf (fst (push_resync ap u)) = buf ap.
Proof.
  unfold push_resync. destruct (u_played u); [|reflexivity].
  destruct (_ >=? _); reflexivity.
Qed.

(** The result of a push that returned [true], by its components. *)
Lemma push_returned_true (ap : sc_audio_player) (frame : AVFrame)
    (io : swr_io) :
  snd (fst (sc_audio_player_frame_sink_push ap frame io)) = true ->
  sc_audio_player_frame_sink_push ap frame io
  = (fst (fst (sc_audio_player_frame_sink_push ap frame io)), true,
     snd (sc_audio_player_frame_sink_push ap frame io)).
Proof.
  destruct (sc_audio_player_frame_sink_push ap frame io) as [[a b] e].
  cbn [fst snd]. intros ->. reflexivity.
Qed.

(** C6: after a successful push the ring holds at most [max_buffered]
    samples if [played] was set at that push and at most [max_initial]
    otherwise; it holds what it held once the new samples were stored, cut
    to that cap. *)
Theorem push_bounds_buffering :
  forall (ap : sc_audio_player) (frame : AVFrame) (io : swr_io)
         (ap' : sc_audio_player) (evs : list event),
    player_ok ap ->
    sc_audio_player_frame_sink_push ap frame io = (ap', true, evs) ->
    sc_audiobuf_can_read (buf ap')
      <= (if played ap
          then target_buffering ap + 12 * 5 * sample_rate ap / 1000
               + target_buffering ap / 10
          else target_buffering ap + 2 * 5 * sample_rate ap / 1000)
    /\ forall ap1 r ap2 w b,
         push_resample ap frame io = (ap1, Some r) ->
         push_store ap1 r = (ap2, w, b) ->
         sc_audiobuf_can_read (buf ap')
         = Z.min (sc_audiobuf_can_read (buf ap2))
                 (if played ap then max_buffered ap else max_initial ap).
Proof.
  intros ap frame io ap' evs Hok Hpush.
  destruct (push_resample ap frame io) as [ap1 [r|]] eqn:Hres.
  2:{ unfold sc_audio_player_frame_sink_push in Hpush. rewrite Hres in Hpush.
      discriminate Hpush. }
  rewrite (push_success _ _ _ _ _ Hres) in Hpush.
  injection Hpush as <- _.
  rewrite push_resync_buf.
  destruct (push_resample_ok _ _ _ Hok _ _ Hres)
    as (Hok1 & Hsame1 & _ & Hp1 & _ & _ & Hr).
  destruct (Hr r eq_refl) as [Hrok _].
  destruct (push_locked ap1 r) as [ap2 u] eqn:Hl. cbn [fst snd].
  destruct (push_locked_ok _ _ Hok1 Hrok _ _ Hl)
    as (_ & _ & _ & _ & _ & _ & _ & Hcr).
  rewrite (buffering_cap_same ap1 ap) in Hcr
    by (try (destruct Hsame1 as (? & ? & ? & ?); repeat split);
        congruence).
  unfold buffering_cap in Hcr. fold (max_buffered ap). fold (max_initial ap).
  split; [rewrite Hcr; lia|].
  intros ap1' r' ap2' w b Heq Hst. injection Heq as <- <-.
  rewrite Hcr. unfold push_locked in Hl. rewrite Hst in Hl.
  destruct Hok1 as (Hring1 & Hcfg1 & Hpcw1 & Hssr1).
  destruct (push_store_ok ap1 r (conj Hring1 (conj Hcfg1 (conj Hpcw1 Hssr1)))
              Hrok _ _ _ Hst) as (Hok2 & Hb & _ & Hsame2 & _).
  destruct (push_bound_ok _ _ _ _ Hok2 (config_ok_same _ _ Hsame2 Hcfg1) Hb
              _ _ Hl) as (Hu & _).
  subst u. cbn [u_buffered_samples]. rewrite Hb. reflexivity.
Qed.

Lemma push_bounds_buffering_witness :
  let ap := ex_player 2400 5000 (f32_of_Z 5000) 0 true true in
  sc_audiobuf_can_read
    (buf (fst (fst (sc_audio_player_frame_sink_push ap (mk_frame 960)
                      (ex_io 960)))))
  <= 5520.
Proof.
  intros ap.
  assert (Hok : player_ok ap) by decide_by_computation.
  assert (Htrue : snd (fst (sc_audio_player_frame_sink_push ap (mk_frame 960)
                              (ex_io 960))) = true) by reflexivity.
  exact (proj1 (push_bounds_buffering ap (mk_frame 960) (ex_io 960) _ _
                  Hok (push_returned_true ap (mk_frame 960) (ex_io 960)
                         Htrue))).
Defined.

(** A push that found [played] set, from end to end, over the integers. *)
Lemma push_playing (ap : sc_audio_player) (frame : AVFrame) (io : swr_io)
    (ap1 : sc_audio_player) (r : resampled) (ap2 : sc_audio_player)
    (u : unlocked) :
  player_ok ap ->
  push_resample ap frame io = (ap1, Some r) ->
  push_locked ap1 r = (ap2, u) ->
  played ap = true ->
  let n := samples_since_resync ap + u_samples_written u in
  let distance := 4 * sample_rate ap in
  let diff0 :=
    f32_to_int (f32_sub (f32_of_Z (target_buffering ap))
                        (avg (avg_buffering ap2))) in
  let diff1 :=
    if (diff0 <? 0) && (u_buffered_samples u <? target_buffering ap)
    then 0 else diff0 in
  sc_audio_player_frame_sink_push ap frame io
  = if n <? sample_rate ap
    then (set_samples_since_resync ap2 n, true,
          [SDL_LockAudioDevice; SDL_UnlockAudioDevice])
    else (set_samples_since_resync ap2 0, true,
          [SDL_LockAudioDevice; SDL_UnlockAudioDevice;
           swr_set_compensation
             (CLAMP diff1 (- (distance / 50)) (distance / 50)) distance]).
Proof.
  intros Hok Hres Hl Hp n distance diff0 diff1.
  rewrite (push_success _ _ _ _ _ Hres), Hl. cbn [fst snd].
  destruct (push_resample_ok _ _ _ Hok _ _ Hres)
    as (Hok1 & Hsame1 & Hssr1 & Hp1 & _ & _ & Hr).
  destruct (Hr r eq_refl) as [Hrok _].
  destruct (push_locked_ok _ _ Hok1 Hrok _ _ Hl)
    as (Hok2 & Hu & Hsame2 & Hssr2 & _ & Hup & _).
  destruct (same_config_trans _ _ _ Hsame1 Hsame2) as (Ht & Hs & _).
  assert (Hup' : u_played u = true) by congruence.
  rewrite (push_resync_playing _ _ Hok2 Hu Hup').
  unfold n, distance, diff1, diff0.
  rewrite Ht, Hs, <- Hssr1, <- Hssr2.
  destruct (_ <? sample_rate ap2); reflexivity.
Qed.

(** C1, as the code has it: a push that finds [played] set adds the
    number of samples written to [samples_since_resync]; when the count
    reaches [sample_rate] it is reset to 0 and the resampler is handed
    [(diff, distance)] with [distance = 4 * sample_rate] and [diff] the
    value [target_buffering - avg], replaced by 0 when it is negative while
    the buffered count is below the target, then clamped to
    [-distance/50 .. distance/50]; otherwise the resampler is not called.
    At 48 kHz with [target_buffering - avg = 10000] it receives
    [(3840, 192000)]. *)
Theorem resync_recomputes_compensation :
  forall (ap : sc_audio_player) (frame : AVFrame) (io : swr_io)
         (ap1 : sc_audio_player) (r : resampled) (ap2 : sc_audio_player)
         (u : unlocked),
    player_ok ap ->
    push_resample ap frame io = (ap1, Some r) ->
    push_locked ap1 r = (ap2, u) ->
    played ap = true ->
    let n := samples_since_resync ap + u_samples_written u in
    let distance := 4 * sample_rate ap in
    let diff0 :=
      f32_to_int (f32_sub (f32_of_Z (target_buffering ap))
                          (avg (avg_buffering ap2))) in
    let diff1 :=
      if (diff0 <? 0) && (u_buffered_samples u <? target_buffering ap)
      then 0 else diff0 in
    let diff := CLAMP diff1 (- (distance / 50)) (distance / 50) in
    sc_audio_player_frame_sink_push ap frame io
    = (if n <? sample_rate ap
       then (set_samples_since_resync ap2 n, true,
             [SDL_LockAudioDevice; SDL_UnlockAudioDevice])
       else (set_samples_since_resync ap2 0, true,
             [SDL_LockAudioDevice; SDL_UnlockAudioDevice;
              swr_set_compensation diff distance]))
    /\ - (distance / 50) <= diff <= distance / 50
    /\ (sample_rate ap = 48000 -> diff0 = 10000 ->
        diff = 3840 /\ distance = 192000).
Proof.
  intros ap frame io ap1 r ap2 u Hok Hres Hl Hp n distance diff0 diff1 diff.
  split; [exact (push_playing _ _ _ _ _ _ _ Hok Hres Hl Hp)|].
  assert (Hd : 0 <= distance).
  { unfold distance. destruct Hok as (_ & (Hs & _) & _). lia. }
  split; [apply (compensation_range _ _ Hd)|].
  intros Hs H0. unfold diff, diff1, distance. rewrite H0, Hs.
  split; reflexivity.
Qed.

Lemma resync_recomputes_compensation_witness :
  let ap := ex_player 12400 2390 (f32_of_Z 2400) 47995 true true in
  sc_audio_player_frame_sink_push ap (mk_frame 10) (ex_io 10)
  = (set_samples_since_resync
       (fst (push_locked (fst (push_resample ap (mk_frame 10) (ex_io 10)))
               {| r_swr_buf := repeat x01 (Z.to_nat 40);
                  r_samples_written := 10;
                  r_lockless_write := true;
                  r_nb_samples := 10 |})) 0,
     true,
     [SDL_LockAudioDevice; SDL_UnlockAudioDevice;
      swr_set_compensation 3840 192000]).
Proof.
  intros ap.
  assert (Hok : player_ok ap) by decide_by_computation.
  set (r := {| r_swr_buf := repeat x01 (Z.to_nat 40);
               r_samples_written := 10;
               r_lockless_write := true;
               r_nb_samples := 10 |}).
  set (ap1 := fst (push_resample ap (mk_frame 10) (ex_io 10))).
  assert (Hres : push_resample ap (mk_frame 10) (ex_io 10) = (ap1, Some r))
    by reflexivity.
  assert (Hl : push_locked ap1 r
               = (fst (push_locked ap1 r), snd (push_locked ap1 r)))
    by apply surjective_pairing.
  destruct (resync_recomputes_compensation ap (mk_frame 10) (ex_io 10)
              ap1 r _ _ Hok Hres Hl eq_refl) as (Hpush & _ & H48).
  rewrite Hpush.
  destruct (H48 eq_refl eq_refl) as [-> _].
  reflexivity.
Defined.

(** C1, as the claim states it, fails where the veto applies: after a
    burst and a drain the ring holds 480 samples against a target of 2400
    while the average is still near 6375, and 47040 samples have been
    written since the last resynchronisation.  The next frame of 960
    samples triggers the recomputation: the claim has the resampler
    receive [(-3820, 192000)]; the push hands it [(0, 192000)]. *)
Lemma compensation_veto_not_in_claim :
  let ap := fst ex_burst in
  let res := sc_audio_player_frame_sink_push ap (mk_frame 960) (ex_io 960) in
  played ap = true
  /\ target_buffering ap = 2400
  /\ sc_audiobuf_can_read (buf ap) = 480
  /\ samples_since_resync ap = 47040
  /\ samples_since_resync (fst (fst res)) = 0
  /\ compensation_as_claimed (fst (fst res)) = (-3820, 192000)
  /\ snd res = [SDL_LockAudioDevice; SDL_UnlockAudioDevice;
                swr_set_compensation 0 192000]
  /\ snd res <> [SDL_LockAudioDevice; SDL_UnlockAudioDevice;
                 swr_set_compensation
                   (fst (compensation_as_claimed (fst (fst res))))
                   (snd (compensation_as_claimed (fst (fst res))))].
Proof.
  intros ap res. splits; try (lazy; reflexivity).
  lazy. intros H. discriminate H.
Qed.

(** C2: at a recomputation of the compensation, when
    [target_buffering - avg] is negative and the buffered count read under
    the lock by that push is below the target, the resampler is handed a
    [diff] of 0: it is not asked to accelerate. *)
Theorem acceleration_vetoed_below_target :
  forall (ap : sc_audio_player) (frame : AVFrame) (io : swr_io)
         (ap1 : sc_audio_player) (r : resampled) (ap2 : sc_audio_player)
         (u : unlocked),
    player_ok ap ->
    push_resample ap frame io = (ap1, Some r) ->
    push_locked ap1 r = (ap2, u) ->
    played ap = true ->
    sample_rate ap <= samples_since_resync ap + u_samples_written u ->
    f32_to_int (f32_sub (f32_of_Z (target_buffering ap))
                        (avg (avg_buffering ap2))) < 0 ->
    u_buffered_samples u < target_buffering ap ->
    sc_audio_player_frame_sink_push ap frame io
    = (set_samples_since_resync ap2 0, true,
       [SDL_LockAudioDevice; SDL_UnlockAudioDevice;
        swr_set_compensation 0 (4 * sample_rate ap)]).
Proof.
  intros ap frame io ap1 r ap2 u Hok Hres Hl Hp Hn Hneg Hlow.
  rewrite (push_playing _ _ _ _ _ _ _ Hok Hres Hl Hp).
  destruct (Z.ltb_spec (samples_since_resync ap + u_samples_written u)
              (sample_rate ap)) as [|_]; [lia|].
  destruct (Z.ltb_spec
              (f32_to_int (f32_sub (f32_of_Z (target_buffering ap))
                                   (avg (avg_buffering ap2)))) 0) as [_|];
    [|lia].
  destruct (Z.ltb_spec (u_buffered_samples u) (target_buffering ap)) as [_|];
    [|lia].
  cbn [andb]. rewrite CLAMP_inside; [reflexivity|].
  destruct Hok as (_ & (Hs & _) & _).
  assert (0 <= 4 * sample_rate ap / 50) by (apply Z.div_pos; lia). lia.
Qed.

Lemma acceleration_vetoed_below_target_witness :
  let ap := ex_player 2400 500 (f32_of_Z 5000) 47990 true true in
  sc_audio_player_frame_sink_push ap (mk_frame 10) (ex_io 10)
  = (set_samples_since_resync
       (fst (push_locked (fst (push_resample ap (mk_frame 10) (ex_io 10)))
               {| r_swr_buf := repeat x01 (Z.to_nat 40);
                  r_samples_written := 10;
                  r_lockless_write := true;
                  r_nb_samples := 10 |})) 0,
     true,
     [SDL_LockAudioDevice; SDL_UnlockAudioDevice;
      swr_set_compensation 0 (4 * sample_rate ap)]).
Proof.
  intros ap.
  assert (Hok : player_ok ap) by decide_by_computation.
  set (r := {| r_swr_buf := repeat x01 (Z.to_nat 40);
               r_samples_written := 10;
               r_lockless_write := true;
               r_nb_samples := 10 |}).
  set (ap1 := fst (push_resample ap (mk_frame 10) (ex_io 10))).
  assert (Hres : push_resample ap (mk_frame 10) (ex_io 10) = (ap1, Some r))
    by reflexivity.
  assert (Hl : push_locked ap1 r
               = (fst (push_locked ap1 r), snd (push_locked ap1 r)))
    by apply surjective_pairing.
  apply (acceleration_vetoed_below_target ap (mk_frame 10) (ex_io 10)
           ap1 r _ _ Hok Hres Hl eq_refl); decide_by_computation.
Defined.

(** * Further properties of the player *)

(** ** The session from [open] on *)

Lemma step_same_config (s : session) (a : action) :
  session_ok s -> same_config (fst s) (fst (step s a)).
Proof.
  destruct s as [ap p]. intros [Hok Hp]. cbn [fst snd] in Hok, Hp.
  destruct a as [stream len_int|frame io| |]; unfold step; cbn [fst snd].
  - apply (callback_ok ap stream len_int Hok).
  - destruct p as [|r|u]; try apply same_config_refl.
    destruct (push_resample ap frame io) as [ap1 o] eqn:Hr.
    destruct (push_resample_ok _ _ _ Hok _ _ Hr) as (_ & Hsame & _).
    destruct o; exact Hsame.
  - destruct p as [|r|u]; try apply same_config_refl.
    destruct (push_locked ap r) as [ap2 u] eqn:Hl.
    cbn [producer_ok] in Hp.
    destruct (push_locked_ok _ _ Hok Hp _ _ Hl) as (_ & _ & Hsame & _).
    exact Hsame.
  - destruct p as [|r|u]; try apply same_config_refl.
    cbn [producer_ok] in Hp.
    apply (push_resync_ok _ _ Hok Hp).
Qed.

Lemma run_same_config (l : list action) :
  forall s : session, session_ok s -> same_config (fst s) (fst (run s l)).
Proof.
  induction l as [|a l IH]; intros s Hs; cbn [run fold_left].
  - apply same_config_refl.
  - apply (same_config_trans _ (fst (step s a))).
    + apply step_same_config. exact Hs.
    + apply IH. apply step_ok. exact Hs.
Qed.

(** X1: a successful [open], for a rate and a target that fit 32 bits,
    starts the session in a well-formed state: nothing received, nothing
    played, an empty ring of [target_buffering + sample_rate] samples, all
    of it known to be writable, and a resynchronisation count of 0. *)
Theorem open_starts_well_formed :
  forall (tick_freq delay rate channels bytes : Z) (io : open_io)
         (ap : sc_audio_player),
    0 < tick_freq -> 0 <= delay ->
    0 < rate -> 60 * rate < 2 ^ 32 ->
    0 <= channels < 2 ^ 32 -> 0 <= bytes < 2 ^ 32 ->
    0 < channels * bytes < 2 ^ 32 ->
    2 * (delay * rate / tick_freq) + 2 * rate < 2 ^ 32 ->
    sc_audio_player_frame_sink_open tick_freq delay rate channels bytes io
    = Some ap ->
    session_ok (ap, Idle)
    /\ played ap = false
    /\ received ap = false
    /\ samples_since_resync ap = 0
    /\ target_buffering ap = delay * rate / tick_freq
    /\ sc_audiobuf_can_read (buf ap) = 0
    /\ sc_audiobuf_capacity (buf ap) = delay * rate / tick_freq + rate
    /\ previous_can_write ap = sc_audiobuf_capacity (buf ap)
    /\ ab_sample_size (buf ap) = channels * bytes
    /\ swr_buf_alloc_size ap = 4096 * (channels * bytes).
Proof.
  intros tick_freq delay rate channels bytes io ap
    Hf Hd Hr Hr60 Hch Hby Hss Hfit Hopen.
  destruct (open_ok _ _ _ _ _ _ _ Hf Hd Hr Hr60 Hss Hch Hby Hfit Hopen)
    as (Hok & Hp & Hrcv & Hrate & Htarget & Hcap & Hcr).
  assert (Ht : 0 <= delay * rate / tick_freq) by (apply Z.div_pos; nia).
  unfold sc_audio_player_frame_sink_open in Hopen.
  destruct (device_opened io); [|discriminate Hopen].
  destruct (swr_allocated io); [|discriminate Hopen].
  destruct (swr_initialized io); [|discriminate Hopen].
  destruct (audiobuf_allocated io); [|discriminate Hopen].
  destruct (swr_buf_allocated io); [|discriminate Hopen].
  cbn [negb] in Hopen.
  rewrite (u32_small rate), (u32_small channels), (u32_small bytes) in Hopen
    by lia.
  rewrite Z.quot_div_nonneg in Hopen by nia.
  rewrite (u32_small (delay * rate / tick_freq)) in Hopen by lia.
  rewrite (u32_small (delay * rate / tick_freq + rate)) in Hopen by lia.
  rewrite (u32_small (channels * bytes)) in Hopen by lia.
  injection Hopen as Hap.
  splits; try assumption; try (rewrite Htarget in Hcap; exact Hcap);
    rewrite <- Hap;
    unfold sc_audiobuf_can_write, sc_audiobuf_can_read, sc_audiobuf_capacity,
      sc_audiobuf_to_bytes;
    cbn [buf target_buffering sample_rate previous_can_write
         samples_since_resync swr_buf_alloc_size sc_audiobuf_init
         ab_capacity ab_sample_size ab_head ab_tail];
    try reflexivity.
  - rewrite u32_small by lia. lia.
  - apply size_t_small. nia.
Qed.

Lemma open_starts_well_formed_witness :
  let ap := ex_opened 50000 in
  session_ok (ap, Idle)
  /\ target_buffering ap = 2400
  /\ sc_audiobuf_capacity (buf ap) = 50400
  /\ previous_can_write ap = 50400
  /\ swr_buf_alloc_size ap = 16384.
Proof.
  intros ap.
  destruct (open_starts_well_formed 1000000 50000 48000 1 4
              (mk_open_io true true true true true) ap)
    as (Hok & _ & _ & _ & Ht & _ & Hcap & Hpcw & _ & Halloc);
    try lia; try reflexivity.
  split; [exact Hok|]. split; [exact Ht|]. split; [exact Hcap|].
  split; [rewrite Hpcw; exact Hcap|exact Halloc].
Defined.

(** X2: from a well-formed state on, whatever callbacks and parts of
    pushes follow and however they interleave, the ring never holds less
    than nothing nor more than its capacity, [previous_can_write] never
    exceeds the room really left, [samples_since_resync] stays below
    [sample_rate], and the target, the rate, the capacity and the sample
    size stay what [open] made them. *)
Theorem session_stays_well_formed :
  forall (s : session) (l : list action),
    session_ok s ->
    let ap := fst (run s l) in
    0 <= sc_audiobuf_can_read (buf ap) <= sc_audiobuf_capacity (buf ap)
    /\ 0 <= previous_can_write ap <= sc_audiobuf_can_write (buf ap)
    /\ 0 <= samples_since_resync ap < sample_rate ap
    /\ target_buffering ap = target_buffering (fst s)
    /\ sample_rate ap = sample_rate (fst s)
    /\ sc_audiobuf_capacity (buf ap) = sc_audiobuf_capacity (buf (fst s))
    /\ ab_sample_size (buf ap) = ab_sample_size (buf (fst s))
    /\ session_ok (run s l).
Proof.
  intros s l Hs ap.
  pose proof (run_ok l s Hs) as Hs'.
  destruct (run_same_config l s Hs) as (Ht & Hr & Hc & Hss).
  pose proof Hs' as [(Hring & Hcfg & Hpcw & Hssr) _]. fold ap in Hring, Hpcw, Hssr.
  destruct (audiobuf_ok_can_read _ Hring) as [Hcr _].
  unfold sc_audiobuf_capacity. fold ap in Ht, Hr, Hc, Hss.
  splits; try lia; try (symmetry; assumption). exact Hs'.
Qed.

Lemma session_stays_well_formed_witness :
  let ap := fst ex_burst in
  0 <= sc_audiobuf_can_read (buf ap) <= sc_audiobuf_capacity (buf ap)
  /\ 0 <= previous_can_write ap <= sc_audiobuf_can_write (buf ap)
  /\ 0 <= samples_since_resync ap < sample_rate ap.
Proof.
  intros ap.
  destruct (session_stays_well_formed (ex_opened 50000, Idle)
              (concat (repeat (ex_push 960) 3)
               ++ [Callback (ex_stream 960) 960]
               ++ concat (repeat (ex_push 960) 49)
               ++ repeat (Callback (ex_stream 960) 960) 21))
    as (H1 & H2 & H3 & _).
  - split; [decide_by_computation|exact I].
  - split; [exact H1|]. split; [exact H2|exact H3].
Defined.

(** ** The assertions of [push] *)

Lemma push_store_checked_lockless (ap : sc_audio_player) (r : resampled) :
  r_lockless_write r = true ->
  push_store_checked ap r
  = asserting
      (u32 (u32 (sc_audiobuf_can_read (buf ap)) + r_samples_written r)
       =? u32 (sc_audiobuf_can_read
                 (sc_audiobuf_commit_write (buf ap) (r_samples_written r))))
      (Some (push_store ap r)).
Proof.
  intros H. rewrite (push_store_lockless _ _ H).
  unfold push_store_checked. rewrite H. reflexivity.
Qed.

Lemma push_store_checked_fits (ap : sc_audio_player) (r : resampled) :
  r_lockless_write r = false ->
  r_samples_written r <= u32 (sc_audiobuf_can_write (buf ap)) ->
  push_store_checked ap r
  = asserting
      (u32 (u32 (sc_audiobuf_can_read (buf ap)) + r_samples_written r)
       =? u32 (sc_audiobuf_can_read
                 (sc_audiobuf_write (buf ap) (r_swr_buf r)
                    (r_samples_written r))))
      (Some (push_store ap r)).
Proof.
  intros H Hw. rewrite (push_store_fits _ _ H Hw).
  unfold push_store_checked. rewrite H.
  destruct (Z.gtb_spec (r_samples_written r)
              (u32 (sc_audiobuf_can_write (buf ap)))); [lia|].
  reflexivity.
Qed.

Lemma asserting_true {A : Type} (c : bool) (k : option A) :
  c = true -> asserting c k = k.
Proof. intros ->. reflexivity. Qed.

Lemma buf_avg_sub_if (ap : sc_audio_player) (c : bool) (d : Z) :
  buf (if c then avg_sub ap d else ap) = buf ap.
Proof. destruct c; reflexivity. Qed.

Lemma push_store_checked_overflow (ap : sc_audio_player) (r : resampled) :
  audiobuf_ok (buf ap) ->
  0 <= r_samples_written r < 2 ^ 32 ->
  r_lockless_write r = false ->
  sc_audiobuf_can_write (buf ap) < r_samples_written r ->
  push_store_checked ap r = Some (push_store ap r).
Proof.
  intros Hok Hw Hl Hgt.
  destruct (audiobuf_ok_can_read _ Hok) as [Hcr Hcap].
  pose proof (can_read_plus_can_write (buf ap)) as Hsum.
  unfold sc_audiobuf_capacity in *.
  assert (Hcw_skip : forall k,
            sc_audiobuf_can_write (sc_audiobuf_skip (buf ap) k)
            = sc_audiobuf_can_write (buf ap) + k).
  { intros k. unfold sc_audiobuf_can_write. rewrite can_read_skip.
    cbn [ab_capacity sc_audiobuf_skip ab_set_tail]. lia. }
  unfold push_store_checked, push_store. rewrite Hl.
  unfold sc_audiobuf_capacity.
  set (cr := sc_audiobuf_can_read (buf ap)) in *.
  set (cw := sc_audiobuf_can_write (buf ap)) in *.
  set (cap := ab_capacity (buf ap)) in *.
  set (w := r_samples_written r) in *.
  rewrite (u32_small cr), (u32_small cw), (u32_small cap) by lia.
  destruct (Z.gtb_spec w cw) as [_|]; [|lia].
  destruct (Z.gtb_spec w cap) as [Hbig|Hsmall]; cbn zeta beta iota.
  - rewrite asserting_true by (apply Z.geb_le; lia).
    destruct (Z.gtb_spec cap cw) as [Hroom|Hfull].
    + rewrite (u32_small (cap - cw)) by lia.
      rewrite asserting_true by (apply Z.geb_le; lia).
      rewrite (u32_small (cr - (cap - cw))) by lia.
      destruct (played ap) eqn:Hp;
        cbn [played set_buf buf avg_sub set_avg_buffering]; rewrite ?Hp;
        cbn [played set_buf buf avg_sub set_avg_buffering];
        rewrite Hcw_skip;
        (rewrite asserting_true
           by (apply Z.eqb_eq; rewrite u32_small; lia));
        cbn beta iota zeta;
        cbn [played set_buf buf avg_sub set_avg_buffering];
        rewrite can_read_write, can_read_skip; fold cr;
        (rewrite asserting_true by (apply Z.eqb_eq; reflexivity));
        reflexivity.
    + fold cw.
      rewrite asserting_true by (apply Z.eqb_eq; rewrite u32_small; lia).
      cbn beta iota zeta. cbn [buf set_buf].
      rewrite can_read_write. fold cr.
      rewrite asserting_true by (apply Z.eqb_eq; reflexivity).
      reflexivity.
  - rewrite asserting_true by (apply Z.geb_le; lia).
    destruct (Z.gtb_spec w cw) as [_|]; [|lia].
    rewrite (u32_small (w - cw)) by lia.
    rewrite asserting_true by (apply Z.geb_le; lia).
    rewrite (u32_small (cr - (w - cw))) by lia.
    destruct (played ap) eqn:Hp;
      cbn [played set_buf buf avg_sub set_avg_buffering]; rewrite ?Hp;
      cbn [played set_buf buf avg_sub set_avg_buffering];
      rewrite Hcw_skip;
      (rewrite asserting_true
         by (apply Z.eqb_eq; rewrite u32_small; lia));
      cbn beta iota zeta;
      cbn [played set_buf buf avg_sub set_avg_buffering];
      rewrite can_read_write, can_read_skip; fold cr;
      (rewrite asserting_true by (apply Z.eqb_eq; reflexivity));
      reflexivity.
Qed.

Lemma push_store_checked_ok (ap : sc_audio_player) (r : resampled) :
  player_ok ap -> resampled_ok ap r ->
  push_store_checked ap r = Some (push_store ap r).
Proof.
  intros (Hok & Hcfg & Hpcw & Hssr) (Hw & Hl).
  destruct (audiobuf_ok_can_read _ Hok) as [Hcr Hcap].
  pose proof (can_read_plus_can_write (buf ap)) as Hsum.
  unfold sc_audiobuf_capacity in Hsum.
  destruct (r_lockless_write r) eqn:Hll.
  - symmetry in Hl. apply Z.leb_le in Hl.
    rewrite (push_store_checked_lockless _ _ Hll).
    apply asserting_true. apply Z.eqb_eq.
    rewrite can_read_commit_write.
    rewrite (u32_small (sc_audiobuf_can_read (buf ap))) by lia.
    reflexivity.
  - destruct (Z.le_gt_cases (r_samples_written r)
                (sc_audiobuf_can_write (buf ap))) as [Hfit|Hover].
    + rewrite (push_store_checked_fits _ _ Hll)
        by (rewrite u32_small; lia).
      apply asserting_true. apply Z.eqb_eq.
      rewrite can_read_write.
      rewrite (u32_small (sc_audiobuf_can_read (buf ap))) by lia.
      reflexivity.
    + apply push_store_checked_overflow; assumption.
Qed.

(** X3: in a session that started well formed, none of the four
    assertions of [push] (lines 158, 161, 172 and 179) can fail, whatever
    callbacks ran since the frame was resampled: the store with the
    assertions checked gives the result of the store without them. *)
Theorem push_assertions_hold :
  forall (s : session) (l : list action) (r : resampled),
    session_ok s ->
    snd (run s l) = Resampled r ->
    push_store_checked (fst (run s l)) r
    = Some (push_store (fst (run s l)) r).
Proof.
  intros s l r Hs Hr.
  destruct (run_ok l s Hs) as [Hok Hp]. rewrite Hr in Hp.
  apply push_store_checked_ok; assumption.
Qed.

Lemma push_assertions_hold_witness :
  let l := ex_push 960
           ++ [Callback (ex_stream 960) 960;
               PushResample (mk_frame 50000) (ex_io 50000);
               Callback (ex_stream 960) 960] in
  let r := {| r_swr_buf := repeat x01 (Z.to_nat (50000 * 4));
              r_samples_written := 50000;
              r_lockless_write := false;
              r_nb_samples := 50000 |} in
  push_store_checked (fst (run (ex_opened 50000, Idle) l)) r
  = Some (push_store (fst (run (ex_opened 50000, Idle) l)) r).
Proof.
  intros l r.
  apply (push_assertions_hold (ex_opened 50000, Idle) l r).
  - split; [decide_by_computation|exact I].
  - reflexivity.
Defined.

(** X4: the lock-free copy is safe to commit.  In a session that started
    well formed, a frame that was copied into the ring without the lock
    (because it fitted [previous_can_write]) still fits the room really
    left when the lock is taken, whatever callbacks ran in between. *)
Theorem lockless_write_fits :
  forall (s : session) (l : list action) (r : resampled),
    session_ok s ->
    snd (run s l) = Resampled r ->
    r_lockless_write r = true ->
    0 <= r_samples_written r
      <= sc_audiobuf_can_write (buf (fst (run s l))).
Proof.
  intros s l r Hs Hr Hl.
  destruct (run_ok l s Hs) as [(_ & _ & Hpcw & _) Hp]. rewrite Hr in Hp.
  destruct Hp as (Hw & Hlock). rewrite Hl in Hlock.
  symmetry in Hlock. apply Z.leb_le in Hlock. lia.
Qed.

Lemma lockless_write_fits_witness :
  let l := ex_push 960
           ++ [PushResample (mk_frame 960) (ex_io 960);
               Callback (ex_stream 960) 960] in
  0 <= 960 <= sc_audiobuf_can_write (buf (fst (run (ex_opened 50000, Idle) l))).
Proof.
  intros l.
  apply (lockless_write_fits (ex_opened 50000, Idle) l
           {| r_swr_buf := repeat x01 (Z.to_nat (960 * 4));
              r_samples_written := 960;
              r_lockless_write := true;
              r_nb_samples := 960 |}).
  - split; [decide_by_computation|exact I].
  - reflexivity.
  - reflexivity.
Defined.

(** ** The [received] latch *)

Lemma callback_received (ap : sc_audio_player) (stream : list byte)
    (len_int : Z) :
  received (fst (sc_audio_player_sdl_callback ap stream len_int))
  = received ap.
Proof.
  unfold sc_audio_player_sdl_callback.
  destruct (negb (played ap) && _); [reflexivity|].
  destruct (MIN _ _ =? 0); cbn [sc_audiobuf_read];
    (destruct (MIN _ _ <? _); [|reflexivity]);
    cbn [received set_buf]; destruct (received ap) eqn:Hr;
    cbn [fst received set_played avg_add set_avg_buffering set_buf];
    exact Hr.
Qed.

Lemma push_resample_received (ap : sc_audio_player) (frame : AVFrame)
    (io : swr_io) :
  received (fst (push_resample ap frame io)) = received ap.
Proof.
  unfold push_resample.
  destruct (sc_audio_player_get_swr_buf ap _ _) as [ap1 ok] eqn:Hg.
  destruct (get_swr_buf_frame _ _ _ _ _ Hg) as [Hfr _].
  assert (H : received ap1 = received ap) by (rewrite Hfr; reflexivity).
  destruct ok; cbn [negb]; [|exact H].
  destruct (swr_convert io <? 0); [exact H|].
  destruct (_ <=? _); exact H.
Qed.

Lemma push_locked_received (ap : sc_audio_player) (r : resampled) :
  received (fst (push_locked ap r)) = true.
Proof.
  unfold push_locked. destruct (push_store ap r) as [[ap1 w] b].
  reflexivity.
Qed.

Lemma push_resync_received (ap : sc_audio_player) (u : unlocked) :
  received (fst (push_resync ap u)) = received ap.
Proof.
  unfold push_resync. destruct (u_played u); [|reflexivity].
  destruct (_ >=? _); reflexivity.
Qed.

(** X5: [received] is set by exactly one kind of step, the locked part
    of a push, which sets it always; the resampling (also when it fails),
    the unlocked end of a push and the callbacks leave it as it is, so it
    is false until the first push gets through and true ever after. *)
Theorem received_set_by_locked_push :
  forall (s : session) (a : action),
    received (fst (step s a)) = true
    <-> received (fst s) = true
        \/ (a = PushLocked /\ exists r, snd s = Resampled r).
Proof.
  intros [ap p] a. cbn [fst snd].
  assert (Hsame : forall ap' : sc_audio_player,
            received ap' = received ap ->
            (forall r, a = PushLocked -> p = Resampled r -> False) ->
            received ap' = true
            <-> received ap = true
                \/ (a = PushLocked /\ exists r, p = Resampled r)).
  { intros ap' H Hno. rewrite H. split; [auto|].
    intros [H'|(Ha & r & Hr)]; [exact H'|destruct (Hno r Ha Hr)]. }
  destruct a as [stream len_int|frame io| |]; unfold step; cbn [fst snd].
  - apply Hsame; [apply callback_received|discriminate].
  - destruct p as [|r|u]; cbn [fst].
    + pose proof (push_resample_received ap frame io) as H.
      destruct (push_resample ap frame io) as [ap1 [r|]];
        (apply Hsame; [exact H|discriminate]).
    + apply Hsame; [reflexivity|discriminate].
    + apply Hsame; [reflexivity|discriminate].
  - destruct p as [|r|u]; cbn [fst].
    + apply Hsame; [reflexivity|discriminate].
    + pose proof (push_locked_received ap r) as H.
      destruct (push_locked ap r) as [ap1 u]. cbn [fst] in *.
      split; [|intros _; exact H].
      intros _. right. split; [reflexivity|]. exists r. reflexivity.
    + apply Hsame; [reflexivity|discriminate].
  - destruct p as [|r|u]; cbn [fst].
    + apply Hsame; [reflexivity|discriminate].
    + apply Hsame; [reflexivity|discriminate].
    + apply Hsame; [apply push_resync_received|discriminate].
Qed.

(** ** A push before the playback starts *)

Lemma push_store_not_played (ap : sc_audio_player) (r : resampled) :
  played ap = false ->
  avg_buffering (fst (fst (push_store ap r))) = avg_buffering ap
  /\ samples_since_resync (fst (fst (push_store ap r)))
     = samples_since_resync ap.
Proof.
  intros Hp. unfold push_store.
  destruct (r_lockless_write r); [split; reflexivity|].
  destruct (r_samples_written r >? _); [|split; reflexivity].
  destruct (r_samples_written r >? _); cbn zeta beta iota;
    (destruct (_ >? _); [|split; reflexivity]);
    cbn [played set_buf]; rewrite Hp; split; reflexivity.
Qed.

(** X6: a push that finds [played] false leaves the average and
    [samples_since_resync] as they were, leaves [played] false and does
    not call [swr_set_compensation]; if it succeeds it takes the device
    lock and releases it, one time each and in this order, and sets
    [received].  (The calls of [swr_get_delay], [swr_convert] and
    [realloc], which every push makes, are not among the [event]s: their
    answers are the input [swr_io] of the push.) *)
Theorem push_before_playback :
  forall (ap : sc_audio_player) (frame : AVFrame) (io : swr_io)
         (ap' : sc_audio_player) (ok : bool) (evs : list event),
    played ap = false ->
    sc_audio_player_frame_sink_push ap frame io = (ap', ok, evs) ->
    avg_buffering ap' = avg_buffering ap
    /\ samples_since_resync ap' = samples_since_resync ap
    /\ played ap' = false
    /\ (ok = true ->
        evs = [SDL_LockAudioDevice; SDL_UnlockAudioDevice]
        /\ received ap' = true).
Proof.
  intros ap frame io ap' ok evs Hp Hpush.
  destruct (push_resample ap frame io) as [ap1 o] eqn:Hres.
  assert (H1 : avg_buffering ap1 = avg_buffering ap
               /\ samples_since_resync ap1 = samples_since_resync ap
               /\ played ap1 = false).
  { pose proof (push_resample_played ap frame io) as Hk.
    rewrite Hres in Hk. cbn [fst] in Hk.
    unfold push_resample in Hres.
    destruct (sc_audio_player_get_swr_buf ap _ _) as [ap0 k] eqn:Hg.
    destruct (get_swr_buf_frame _ _ _ _ _ Hg) as [Hfr _].
    assert (Ha : avg_buffering ap0 = avg_buffering ap
                 /\ samples_since_resync ap0 = samples_since_resync ap)
      by (rewrite Hfr; split; reflexivity).
    split; [|split; [|congruence]];
      (destruct k; cbn [negb] in Hres;
       [destruct (swr_convert io <? 0); [|destruct (_ <=? _)]|];
       injection Hres as <- _; apply Ha). }
  destruct H1 as (Ha1 & Hs1 & Hp1).
  destruct o as [r|].
  - rewrite (push_success _ _ _ _ _ Hres) in Hpush.
    unfold push_locked in Hpush.
    destruct (push_store_not_played ap1 r Hp1) as [Ha2 Hs2].
    pose proof (push_store_played ap1 r) as Hp2.
    destruct (push_store ap1 r) as [[ap2 w] b]. cbn [fst] in Ha2, Hs2, Hp2.
    rewrite Hp1 in Hp2.
    unfold push_bound in Hpush. rewrite Hp2 in Hpush.
    rewrite push_resync_not_played in Hpush by reflexivity.
    cbn [fst snd] in Hpush. injection Hpush as <- <- <-.
    destruct (_ >? _);
      cbn [avg_buffering samples_since_resync played received set_received
           set_previous_can_write set_buf];
      (splits; [congruence|congruence|assumption|]);
      intros _; split; reflexivity.
  - unfold sc_audio_player_frame_sink_push in Hpush. rewrite Hres in Hpush.
    injection Hpush as <- <- <-.
    splits; try assumption. intros H. discriminate H.
Qed.

Lemma push_before_playback_witness :
  let ap := ex_opened 50000 in
  let res := sc_audio_player_frame_sink_push ap (mk_frame 960) (ex_io 960) in
  avg_buffering (fst (fst res)) = avg_buffering ap
  /\ samples_since_resync (fst (fst res)) = samples_since_resync ap
  /\ snd res = [SDL_LockAudioDevice; SDL_UnlockAudioDevice].
Proof.
  intros ap res.
  assert (Htrue : snd (fst res) = true) by reflexivity.
  destruct (push_before_playback ap (mk_frame 960) (ex_io 960) _ _ _
              eq_refl (push_returned_true ap (mk_frame 960) (ex_io 960) Htrue))
    as (Ha & Hs & _ & Hev).
  split; [exact Ha|]. split; [exact Hs|]. apply (Hev eq_refl).
Defined.

(** ** The scratch buffer of the resampler *)

Lemma to_bytes_exact (ap : sc_audio_player) (n : Z) :
  0 <= n < 2 ^ 32 -> 0 < ab_sample_size (buf ap) < 2 ^ 31 ->
  TO_BYTES ap n = n * ab_sample_size (buf ap)
  /\ 0 <= n * ab_sample_size (buf ap) < 2 ^ 63.
Proof.
  intros Hn Hs. unfold TO_BYTES, sc_audiobuf_to_bytes, size_t.
  assert (H : 0 <= n * ab_sample_size (buf ap) < 2 ^ 63).
  { change (2 ^ 63) with (2 ^ 32 * 2 ^ 31). nia. }
  split; [|exact H]. apply Z.mod_small. lia.
Qed.

Lemma get_swr_buf_fits (ap : sc_audio_player) (n : Z) (c : bool)
    (ap' : sc_audio_player) (ok : bool) :
  0 <= n < 2 ^ 32 -> 0 < ab_sample_size (buf ap) < 2 ^ 31 ->
  sc_audio_player_get_swr_buf ap n c = (ap', ok) ->
  ok = true ->
  n * ab_sample_size (buf ap) <= swr_buf_alloc_size ap'.
Proof.
  intros Hn Hs H Hok.
  destruct (to_bytes_exact ap n Hn Hs) as [Hb Hr].
  unfold sc_audio_player_get_swr_buf in H. rewrite Hb in H.
  destruct (Z.gtb_spec (n * ab_sample_size (buf ap))
              (swr_buf_alloc_size ap)) as [Hgt|Hle].
  - destruct c; cbn [negb] in H; injection H as <- <-; [|discriminate Hok].
    cbn [swr_buf_alloc_size set_swr_buf_alloc_size]. unfold size_t.
    rewrite Z.mod_small by (change (2 ^ 64) with (2 * 2 ^ 63); lia). lia.
  - injection H as <- _. exact Hle.
Qed.

(** X7: [sc_audio_player_get_swr_buf] fails in one case only, when the
    scratch buffer is too small for [min_samples] samples and [realloc]
    fails, and then the player is untouched; when it succeeds the
    allocated size holds [min_samples] samples and has not shrunk. *)
Theorem swr_buf_fits_or_fails :
  forall (ap : sc_audio_player) (min_samples : Z) (can_realloc : bool)
         (ap' : sc_audio_player) (ok : bool),
    0 <= min_samples < 2 ^ 32 ->
    0 < ab_sample_size (buf ap) < 2 ^ 31 ->
    sc_audio_player_get_swr_buf ap min_samples can_realloc = (ap', ok) ->
    (ok = false
     <-> swr_buf_alloc_size ap < min_samples * ab_sample_size (buf ap)
         /\ can_realloc = false)
    /\ (ok = false -> ap' = ap)
    /\ (ok = true ->
        min_samples * ab_sample_size (buf ap) <= swr_buf_alloc_size ap'
        /\ swr_buf_alloc_size ap <= swr_buf_alloc_size ap').
Proof.
  intros ap n c ap' ok Hn Hs H.
  destruct (to_bytes_exact ap n Hn Hs) as [Hb Hr].
  unfold sc_audio_player_get_swr_buf in H. rewrite Hb in H.
  destruct (Z.gtb_spec (n * ab_sample_size (buf ap)) (swr_buf_alloc_size ap))
    as [Hgt|Hle].
  - destruct c; cbn [negb] in H; injection H as <- <-.
    + cbn [swr_buf_alloc_size set_swr_buf_alloc_size].
      assert (Hsz : size_t (n * ab_sample_size (buf ap) + 4096)
                    = n * ab_sample_size (buf ap) + 4096).
      { unfold size_t. apply Z.mod_small.
        change (2 ^ 64) with (2 * 2 ^ 63). lia. }
      rewrite Hsz. splits.
      * split; [discriminate|]. intros [_ H]. discriminate H.
      * discriminate.
      * intros _. lia.
    + splits.
      * split; [|reflexivity]. intros _. split; [lia|reflexivity].
      * reflexivity.
      * discriminate.
  - injection H as <- <-. splits.
    + split; [discriminate|]. intros [H _]. lia.
    + discriminate.
    + intros _. lia.
Qed.

Lemma swr_buf_fits_or_fails_witness :
  let ap := ex_opened 50000 in
  let res := sc_audio_player_get_swr_buf ap 50256 true in
  50256 * 4 <= swr_buf_alloc_size (fst res)
  /\ swr_buf_alloc_size ap <= swr_buf_alloc_size (fst res).
Proof.
  intros ap res.
  assert (Hn : 0 <= 50256 < 2 ^ 32) by (split; [discriminate|reflexivity]).
  assert (Hs : 0 < ab_sample_size (buf ap) < 2 ^ 31)
    by (split; reflexivity).
  assert (He : sc_audio_player_get_swr_buf ap 50256 true
               = (fst res, true)) by reflexivity.
  destruct (swr_buf_fits_or_fails ap 50256 true _ _ Hn Hs He)
    as (_ & _ & H).
  exact (H eq_refl).
Defined.

Lemma push_resample_returned (ap : sc_audio_player) (frame : AVFrame)
    (io : swr_io) (r : resampled) :
  snd (push_resample ap frame io) = Some r ->
  push_resample ap frame io = (fst (push_resample ap frame io), Some r).
Proof.
  destruct (push_resample ap frame io) as [a o]. cbn [fst snd].
  intros ->. reflexivity.
Qed.

(** X8: when the resampling of a push succeeds, the samples it hands on
    lie within the scratch buffer as it is now allocated, however many
    samples the resampler says it has written and whatever delay it
    reports. *)
Theorem resampled_samples_within_scratch :
  forall (ap : sc_audio_player) (frame : AVFrame) (io : swr_io)
         (ap1 : sc_audio_player) (r : resampled),
    0 < ab_sample_size (buf ap) < 2 ^ 31 ->
    push_resample ap frame io = (ap1, Some r) ->
    0 <= r_samples_written r
    /\ r_samples_written r * ab_sample_size (buf ap)
       <= swr_buf_alloc_size ap1.
Proof.
  intros ap frame io ap1 r Hs H. unfold push_resample in H.
  set (dst := i32 (swr_get_delay io + nb_samples frame + 256)) in H.
  assert (Hn : 0 <= u32 dst < 2 ^ 32) by apply u32_range.
  destruct (sc_audio_player_get_swr_buf ap (u32 dst) (realloc_ok io))
    as [ap0 ok] eqn:Hg.
  pose proof (get_swr_buf_fits ap (u32 dst) (realloc_ok io) ap0 ok
                Hn Hs Hg) as Hfit.
  destruct ok; cbn [negb] in H; [|discriminate H].
  specialize (Hfit eq_refl).
  destruct (Z.ltb_spec (swr_convert io) 0) as [Hneg|Hret]; [discriminate H|].
  assert (Hw : 0 <= u32 (MIN (swr_convert io) dst) <= u32 dst).
  { destruct (Z.lt_ge_cases dst 0) as [Hd|Hd].
    - rewrite MIN_spec, Z.min_r by lia. pose proof (u32_range dst). lia.
    - assert (Hm : 0 <= MIN (swr_convert io) dst <= dst).
      { rewrite MIN_spec. lia. }
      assert (Hd32 : u32 dst = dst).
      { apply u32_small. pose proof (u32_range dst).
        unfold dst, i32 in *.
        pose proof (Z.mod_pos_bound
          (swr_get_delay io + nb_samples frame + 256 + 2 ^ 31) (2 ^ 32)
          eq_refl). lia. }
      rewrite u32_small by lia. lia. }
  assert (Halloc : swr_buf_alloc_size ap1 = swr_buf_alloc_size ap0).
  { destruct (_ <=? _); injection H as <- _; reflexivity. }
  assert (Hr : r_samples_written r = u32 (MIN (swr_convert io) dst)).
  { destruct (_ <=? _); injection H as _ <-; reflexivity. }
  rewrite Hr, Halloc. split; [lia|]. nia.
Qed.

Lemma resampled_samples_within_scratch_witness :
  let ap := ex_opened 50000 in
  let io := {| swr_get_delay := 0; realloc_ok := true; swr_convert := 5000;
               swr_convert_out := repeat x01 (Z.to_nat (1216 * 4)) |} in
  0 <= 1216
  /\ 1216 * 4
     <= swr_buf_alloc_size (fst (push_resample ap (mk_frame 960) io)).
Proof.
  intros ap io.
  assert (Hs : 0 < ab_sample_size (buf ap) < 2 ^ 31) by (split; reflexivity).
  assert (Hr : snd (push_resample ap (mk_frame 960) io)
               = Some {| r_swr_buf := repeat x01 (Z.to_nat (1216 * 4));
                         r_samples_written := 1216;
                         r_lockless_write := true;
                         r_nb_samples := 960 |}) by reflexivity.
  exact (resampled_samples_within_scratch ap (mk_frame 960) io _ _ Hs
           (push_resample_returned ap (mk_frame 960) io _ Hr)).
Defined.

(** ** What the ring holds after a push *)

Lemma content_length (b : sc_audiobuf) :
  audiobuf_data_ok b ->
  length (ab_content b)
  = Z.to_nat (sc_audiobuf_can_read b * ab_sample_size b).
Proof.
  intros Hb. destruct (audiobuf_ok_can_read _ (proj1 Hb)) as [Hcr Hcap].
  unfold ab_content. apply (ab_peek_length _ Hb). lia.
Qed.

(** What [push_resample] returns on success, field by field. *)
Lemma push_resample_shape (ap : sc_audio_player) (frame : AVFrame)
    (io : swr_io) (ap1 : sc_audio_player) (r : resampled) :
  push_resample ap frame io = (ap1, Some r) ->
  r_swr_buf r = swr_convert_out io
  /\ r_samples_written r
     = u32 (MIN (swr_convert io)
              (i32 (swr_get_delay io + nb_samples frame + 256)))
  /\ r_lockless_write r = (r_samples_written r <=? previous_can_write ap)
  /\ buf ap1
     = (if r_lockless_write r
        then sc_audiobuf_prepare_write (buf ap) (swr_convert_out io)
               (r_samples_written r)
        else buf ap)
  /\ previous_can_write ap1 = previous_can_write ap
  /\ played ap1 = played ap
  /\ received ap1 = received ap
  /\ avg_buffering ap1 = avg_buffering ap.
Proof.
  intros H. unfold push_resample in H.
  destruct (sc_audio_player_get_swr_buf ap _ _) as [ap0 ok] eqn:Hg.
  destruct (get_swr_buf_frame _ _ _ _ _ Hg) as [Hfr _].
  set (a := swr_buf_alloc_size ap0) in Hfr. clearbody a. subst ap0.
  destruct ok; cbn [negb] in H; [|discriminate H].
  destruct (swr_convert io <? 0); [discriminate H|].
  cbn [previous_can_write set_swr_buf_alloc_size] in H.
  destruct (_ <=? _) eqn:Hl; injection H as <- <-;
    cbn [r_swr_buf r_samples_written r_lockless_write buf set_buf
         set_swr_buf_alloc_size previous_can_write played received
         avg_buffering];
    rewrite Hl; splits; reflexivity.
Qed.

Lemma skipn_newest (A : Type) (l : list A) (n k : nat) :
  (k <= n <= length l)%nat ->
  skipn k (skipn (length l - n) l) = skipn (length l - (n - k)) l.
Proof.
  intros H. rewrite skipn_skipn. f_equal. lia.
Qed.

Lemma to_nat_mul_le (a b s : Z) :
  0 <= s -> a <= b -> (Z.to_nat (a * s) <= Z.to_nat (b * s))%nat.
Proof.
  intros Hs Hab.
  assert (a * s <= b * s) by (apply Z.mul_le_mono_nonneg_r; assumption).
  lia.
Qed.

Lemma to_nat_mul_add (a b s : Z) :
  0 <= s -> 0 <= a -> 0 <= b ->
  (Z.to_nat (a * s) + Z.to_nat (b * s))%nat = Z.to_nat ((a + b) * s).
Proof.
  intros Hs Ha Hb. rewrite Z.mul_add_distr_r.
  rewrite Z2Nat.inj_add; [reflexivity| |]; apply Z.mul_nonneg_nonneg; assumption.
Qed.

Lemma to_nat_mul_sub (a b s : Z) :
  0 <= s -> 0 <= b <= a ->
  (Z.to_nat (a * s) - Z.to_nat (b * s))%nat = Z.to_nat ((a - b) * s).
Proof.
  intros Hs Hab. rewrite Z.mul_sub_distr_r.
  assert (0 <= b * s) by (apply Z.mul_nonneg_nonneg; lia).
  assert (b * s <= a * s) by (apply Z.mul_le_mono_nonneg_r; lia).
  lia.
Qed.

(** The ring after the locked store of a push, from the state before the
    resampling: it holds the newest samples of what it held followed by
    the frame. *)
Lemma push_stored_content (ap : sc_audio_player) (frame : AVFrame)
    (io : swr_io) (ap1 : sc_audio_player) (r : resampled) :
  player_ok ap -> audiobuf_data_ok (buf ap) ->
  ab_sample_size (buf ap) < 2 ^ 32 ->
  push_resample ap frame io = (ap1, Some r) ->
  (Z.to_nat (r_samples_written r * ab_sample_size (buf ap))
   <= length (swr_convert_out io))%nat ->
  let all := ab_content (buf ap)
             ++ firstn (Z.to_nat (r_samples_written r
                                  * ab_sample_size (buf ap)))
                  (swr_convert_out io) in
  let ap2 := fst (fst (push_store ap1 r)) in
  audiobuf_data_ok (buf ap2)
  /\ sc_audiobuf_can_read (buf ap2)
     = Z.min (sc_audiobuf_can_read (buf ap) + r_samples_written r)
         (ab_capacity (buf ap))
  /\ ab_content (buf ap2)
     = skipn (length all
              - Z.to_nat (sc_audiobuf_can_read (buf ap2)
                          * ab_sample_size (buf ap))) all.
Proof.
  intros Hok Hdata Hss Hres Hout all ap2.
  destruct (push_resample_shape _ _ _ _ _ Hres)
    as (Hsrc & _ & Hl & Hbuf & Hpcw & _).
  destruct (push_resample_written _ _ _ _ _ Hres) as (Hw & Hok1 & _).
  pose proof Hok as (Hbok & _ & Hprev & _).
  specialize (Hok1 Hbok).
  destruct (audiobuf_ok_can_read _ Hbok) as [Hcr Hcap].
  pose proof (can_read_plus_can_write (buf ap)) as Hsum.
  unfold sc_audiobuf_capacity in Hsum.
  pose proof Hdata as ((Hss0 & _) & Hcap0 & Hlen).
  set (ss := ab_sample_size (buf ap)) in *.
  set (sw := r_samples_written r) in *.
  set (cr := sc_audiobuf_can_read (buf ap)) in *.
  set (cw := sc_audiobuf_can_write (buf ap)) in *.
  set (out := swr_convert_out io) in *.
  assert (Hss1 : 0 <= ss) by lia.
  assert (Hall : length all = Z.to_nat ((cr + sw) * ss)).
  { unfold all. rewrite length_app, length_firstn, (content_length _ Hdata).
    fold cr ss. rewrite Nat.min_l by exact Hout.
    apply to_nat_mul_add; lia. }
  assert (Hwrite : 0 <= sw <= cw ->
            buf ap2 = sc_audiobuf_write (buf ap) out sw ->
            audiobuf_data_ok (buf ap2)
            /\ sc_audiobuf_can_read (buf ap2)
               = Z.min (cr + sw) (ab_capacity (buf ap))
            /\ ab_content (buf ap2)
               = skipn (length all
                        - Z.to_nat (sc_audiobuf_can_read (buf ap2) * ss))
                   all).
  { intros Hfit ->.
    assert (Hn : sc_audiobuf_can_read (sc_audiobuf_write (buf ap) out sw)
                 = cr + sw) by apply can_read_write.
    splits.
    - apply audiobuf_data_ok_write; assumption.
    - rewrite Hn. lia.
    - rewrite Hn, Hall, Nat.sub_diag. cbn [skipn].
      apply content_write; assumption. }
  destruct (r_lockless_write r) eqn:Hlock.
  - (* the prepared write is committed *)
    symmetry in Hl. apply Z.leb_le in Hl.
    apply Hwrite; [lia|].
    unfold ap2. rewrite (push_store_lockless _ _ Hlock).
    cbn [fst buf set_buf]. rewrite Hbuf. reflexivity.
  - destruct (Z.le_gt_cases sw cw) as [Hfit|Hgt].
    + (* the slow path with room enough *)
      apply Hwrite; [lia|].
      unfold ap2. rewrite push_store_fits;
        [|exact Hlock|rewrite Hbuf, u32_small by lia; exact Hfit].
      cbn [fst buf set_buf]. rewrite Hbuf, Hsrc. reflexivity.
    + (* the slow path that makes room *)
      assert (Hgt1 : sc_audiobuf_can_write (buf ap1) < r_samples_written r)
        by (rewrite Hbuf; exact Hgt).
      pose proof (push_store_overflow ap1 r Hok1 Hw Hlock Hgt1) as Hst.
      cbv zeta in Hst. unfold ap2. rewrite Hst. cbn [fst buf set_buf].
      clear Hst Hgt1.
      rewrite Hbuf. unfold sc_audiobuf_capacity. fold sw cw.
      set (written := Z.min sw (ab_capacity (buf ap))).
      set (dropped := written - cw).
      assert (Hd : 0 <= dropped <= cr) by (unfold dropped, written; lia).
      assert (Hwr0 : 0 <= written <= sw) by (unfold written; lia).
      assert (Hbytes : TO_BYTES ap1 (sw - written) = (sw - written) * ss).
      { unfold TO_BYTES, sc_audiobuf_to_bytes, size_t. rewrite Hbuf.
        fold ss. apply Z.mod_small.
        change (2 ^ 64) with (2 ^ 32 * 2 ^ 32).
        split; [apply Z.mul_nonneg_nonneg; lia|].
        apply Z.mul_lt_mono_nonneg; lia. }
      rewrite Hbytes, Hsrc. fold out.
      pose proof (audiobuf_data_ok_skip _ _ Hdata Hd) as Hdata'.
      assert (Hroom : 0 <= written
                      <= sc_audiobuf_can_write
                           (sc_audiobuf_skip (buf ap) dropped)).
      { unfold sc_audiobuf_can_write at 1. rewrite can_read_skip.
        cbn [ab_capacity sc_audiobuf_skip ab_set_tail].
        fold cr. unfold dropped, written. lia. }
      assert (Hlsrc : (Z.to_nat (written
                         * ab_sample_size (sc_audiobuf_skip (buf ap) dropped))
                       <= length (skipn (Z.to_nat ((sw - written) * ss)) out))%nat).
      { rewrite length_skipn.
        cbn [ab_sample_size sc_audiobuf_skip ab_set_tail]. fold ss.
        pose proof (to_nat_mul_add written (sw - written) ss Hss1) as Ha.
        replace (written + (sw - written)) with sw in Ha by lia.
        lia. }
      assert (Hn : sc_audiobuf_can_read
                     (sc_audiobuf_write (sc_audiobuf_skip (buf ap) dropped)
                        (skipn (Z.to_nat ((sw - written) * ss)) out) written)
                   = ab_capacity (buf ap)).
      { rewrite can_read_write, can_read_skip. fold cr.
        unfold dropped. lia. }
      splits.
      * apply audiobuf_data_ok_write; assumption.
      * rewrite Hn. lia.
      * rewrite Hn, Hall.
        rewrite content_write by assumption.
        rewrite content_skip by assumption.
        cbn [ab_sample_size sc_audiobuf_skip ab_set_tail]. fold ss.
        unfold all. rewrite skipn_app, (content_length _ Hdata). fold cr ss.
        assert (Hk : (Z.to_nat ((cr + sw) * ss)
                      - Z.to_nat (ab_capacity (buf ap) * ss))%nat
                     = (Z.to_nat (dropped * ss)
                        + Z.to_nat ((sw - written) * ss))%nat).
        { rewrite to_nat_mul_sub, to_nat_mul_add by lia.
          f_equal. f_equal. unfold dropped. lia. }
        rewrite Hk.
        destruct (Z.le_gt_cases sw (ab_capacity (buf ap))) as [Hle|Hbig].
        -- assert (Hwr : written = sw) by (apply Z.min_l; exact Hle).
           rewrite Hwr. rewrite Z.sub_diag.
           cbn [Z.mul Z.to_nat skipn]. rewrite Nat.add_0_r.
           pose proof (to_nat_mul_le dropped cr ss Hss1 (proj2 Hd)) as Hdle.
           rewrite (proj2 (Nat.sub_0_le _ _) Hdle). reflexivity.
        -- assert (Hwr : written = ab_capacity (buf ap))
             by (apply Z.min_r; clear - Hbig; lia).
           assert (Hdr : dropped = cr)
             by (unfold dropped; rewrite Hwr; clear - Hsum; lia).
           rewrite Hdr, Hwr.
           rewrite !(skipn_all2 (ab_content (buf ap)))
             by (rewrite (content_length _ Hdata); fold cr ss;
                 first [apply Nat.le_refl|apply Nat.le_add_r]).
           rewrite (Nat.add_comm (Z.to_nat (cr * ss))), Nat.add_sub.
           cbn [app].
           rewrite firstn_skipn_comm. f_equal. f_equal.
           rewrite to_nat_mul_add by lia.
           replace (sw - ab_capacity (buf ap) + ab_capacity (buf ap)) with sw by lia.
           reflexivity.
Qed.

(** The ring after the cap of a push: the oldest samples in excess of the
    cap are gone. *)
Lemma push_bound_content (ap : sc_audio_player) (nb w b : Z) :
  audiobuf_data_ok (buf ap) -> config_ok ap ->
  b = sc_audiobuf_can_read (buf ap) ->
  let ap' := fst (push_bound ap nb w b) in
  audiobuf_data_ok (buf ap')
  /\ ab_content (buf ap')
     = skipn (Z.to_nat ((b - Z.min b (buffering_cap ap))
                        * ab_sample_size (buf ap)))
         (ab_content (buf ap)).
Proof.
  intros Hdata Hc Hb ap'.
  destruct (audiobuf_ok_can_read _ (proj1 Hdata)) as [Hcr Hcap].
  pose proof (max_initial_le_max_buffered _ Hc) as Hle.
  assert (Hbuf : buf ap'
                 = if b >? buffering_cap ap
                   then sc_audiobuf_skip (buf ap) (b - buffering_cap ap)
                   else buf ap).
  { unfold ap', push_bound.
    rewrite (max_buffered_samples_eq _ Hc), (max_initial_buffering_eq _ Hc).
    unfold buffering_cap. cbn [fst buf set_received set_previous_can_write].
    destruct (played ap).
    - cbn [buf set_avg_buffering avg_add].
      destruct (Z.gtb_spec b (max_buffered ap)) as [Hgt|_]; [|reflexivity].
      rewrite u32_small by lia. reflexivity.
    - destruct (Z.gtb_spec b (max_initial ap)) as [Hgt|_]; [|reflexivity].
      rewrite u32_small by lia. reflexivity. }
  assert (Hcap0 : 0 <= buffering_cap ap)
    by (unfold buffering_cap; destruct (played ap); lia).
  rewrite Hbuf.
  destruct (Z.gtb_spec b (buffering_cap ap)) as [Hgt|Hle'].
  - rewrite Z.min_r by lia.
    split; [apply audiobuf_data_ok_skip|apply content_skip];
      try assumption; lia.
  - rewrite Z.min_l, Z.sub_diag by lia.
    split; [exact Hdata|reflexivity].
Qed.

(** The ring after a whole push: the newest samples of what it held
    followed by the frame. *)
Lemma push_content :
  forall (ap : sc_audio_player) (frame : AVFrame) (io : swr_io)
         (ap' : sc_audio_player) (evs : list event),
    player_ok ap -> audiobuf_data_ok (buf ap) ->
    ab_sample_size (buf ap) < 2 ^ 32 ->
    sc_audio_player_frame_sink_push ap frame io = (ap', true, evs) ->
    let written :=
      u32 (MIN (swr_convert io)
             (i32 (swr_get_delay io + nb_samples frame + 256))) in
    (Z.to_nat (written * ab_sample_size (buf ap))
     <= length (swr_convert_out io))%nat ->
    let all :=
      ab_content (buf ap)
      ++ firstn (Z.to_nat (written * ab_sample_size (buf ap)))
           (swr_convert_out io) in
    audiobuf_data_ok (buf ap')
    /\ sc_audiobuf_can_read (buf ap')
       = Z.min (Z.min (sc_audiobuf_can_read (buf ap) + written)
                  (sc_audiobuf_capacity (buf ap)))
           (buffering_cap ap)
    /\ ab_content (buf ap')
       = skipn (length all
                - Z.to_nat (sc_audiobuf_can_read (buf ap')
                            * ab_sample_size (buf ap))) all.
Proof.
  intros ap frame io ap' evs Hok Hdata Hss Hpush written Hout all.
  destruct (push_resample ap frame io) as [ap1 [r|]] eqn:Hres;
    [|unfold sc_audio_player_frame_sink_push in Hpush; rewrite Hres in Hpush;
      discriminate Hpush].
  rewrite (push_success _ _ _ _ _ Hres) in Hpush.
  injection Hpush as <- _.
  rewrite push_resync_buf.
  destruct (push_resample_shape _ _ _ _ _ Hres) as (_ & Hsw & _).
  destruct (push_resample_ok _ _ _ Hok _ _ Hres)
    as (Hok1 & Hsame1 & _ & Hp1 & _ & _ & Hr).
  destruct (Hr r eq_refl) as [Hrok _].
  fold written in Hsw. rewrite <- Hsw in Hout.
  destruct (push_stored_content ap frame io ap1 r Hok Hdata Hss Hres Hout)
    as (Hdata2 & Hn2 & Hc2).
  rewrite Hsw in Hn2, Hc2, Hout. fold all in Hc2.
  unfold push_locked.
  destruct (push_store ap1 r) as [[ap2 w] b] eqn:Hst. cbn [fst] in *.
  destruct (push_store_ok _ _ Hok1 Hrok _ _ _ Hst)
    as (Hok2 & Hb & Hw & Hsame2 & _ & Hp2).
  pose proof (same_config_trans _ _ _ Hsame1 Hsame2) as Hsame.
  assert (Hc : config_ok ap2)
    by (apply (config_ok_same ap); [exact Hsame|apply Hok]).
  destruct (push_bound_content ap2 (r_nb_samples r) w b Hdata2 Hc Hb)
    as [Hdata3 Hc3].
  rewrite (buffering_cap_same ap ap2 Hsame) by congruence.
  destruct Hsame as (_ & _ & _ & Hss2).
  destruct (push_bound_ok ap2 (r_nb_samples r) w b Hok2 Hc Hb
              _ _ (surjective_pairing _)) as (_ & _ & Hn3 & _).
  pose proof Hdata as ((Hss0 & _) & _).
  destruct (audiobuf_ok_can_read _ Hok2) as [Hcr2 _].
  assert (Hcap0 : 0 <= buffering_cap ap2)
    by (pose proof (max_initial_le_max_buffered _ Hc);
        unfold buffering_cap; destruct (played ap2); lia).
  splits.
  - exact Hdata3.
  - rewrite Hn3, Hb, Hn2. reflexivity.
  - rewrite Hc3, Hc2, Hn3, <- Hss2, <- Hb.
    rewrite skipn_skipn. f_equal.
    set (ss := ab_sample_size (buf ap)) in *.
    set (m := Z.min b (buffering_cap ap2)).
    assert (Hss1 : 0 <= ss) by lia.
    assert (Hlen : length all
                   = Z.to_nat ((sc_audiobuf_can_read (buf ap) + written) * ss)).
    { unfold all. rewrite length_app, length_firstn, (content_length _ Hdata).
      fold ss. rewrite Nat.min_l by exact Hout.
      destruct (audiobuf_ok_can_read _ (proj1 Hdata)) as [Hcr _].
      pose proof (u32_range (MIN (swr_convert io)
         (i32 (swr_get_delay io + nb_samples frame + 256)))) as Hwr.
      fold written in Hwr.
      apply to_nat_mul_add; lia. }
    assert (Hm : 0 <= m <= b) by (unfold m; lia).
    pose proof (to_nat_mul_le b (sc_audiobuf_can_read (buf ap) + written) ss
                  Hss1) as Hble.
    pose proof (to_nat_mul_sub b m ss Hss1 Hm) as Hsub.
    pose proof (to_nat_mul_le m b ss Hss1 (proj2 Hm)) as Hmle.
    assert (Hle2 : b <= sc_audiobuf_can_read (buf ap) + written)
      by (rewrite Hb, Hn2; apply Z.le_min_l).
    specialize (Hble Hle2).
    rewrite Hlen, <- Hsub. clear - Hble Hmle. lia.
Qed.

(** X9: a successful push neither reorders nor alters what is buffered:
    afterwards the ring holds the newest samples of what it held followed
    by the samples of the frame, as many of them as fit under the
    capacity of the ring and under the cap that applies; only the oldest
    ones are dropped. *)
Theorem push_keeps_newest_samples :
  forall (ap : sc_audio_player) (frame : AVFrame) (io : swr_io)
         (ap' : sc_audio_player) (evs : list event),
    player_ok ap -> audiobuf_data_ok (buf ap) ->
    ab_sample_size (buf ap) < 2 ^ 32 ->
    sc_audio_player_frame_sink_push ap frame io = (ap', true, evs) ->
    let written :=
      u32 (MIN (swr_convert io)
             (i32 (swr_get_delay io + nb_samples frame + 256))) in
    (Z.to_nat (written * ab_sample_size (buf ap))
     <= length (swr_convert_out io))%nat ->
    let all :=
      ab_content (buf ap)
      ++ firstn (Z.to_nat (written * ab_sample_size (buf ap)))
           (swr_convert_out io) in
    audiobuf_data_ok (buf ap')
    /\ sc_audiobuf_can_read (buf ap')
       = Z.min (Z.min (sc_audiobuf_can_read (buf ap) + written)
                  (sc_audiobuf_capacity (buf ap)))
           (buffering_cap ap)
    /\ ab_content (buf ap')
       = skipn (length all
                - Z.to_nat (sc_audiobuf_can_read (buf ap')
                            * ab_sample_size (buf ap))) all.
Proof.
  intros ap frame io ap' evs Hok Hdata Hss Hpush written Hout all.
  exact (push_content ap frame io ap' evs Hok Hdata Hss Hpush Hout).
Qed.

Lemma push_keeps_newest_samples_witness :
  let ap := ex_opened 50000 in
  let ap' := fst (fst (sc_audio_player_frame_sink_push ap (mk_frame 5000)
                         (ex_io 5000))) in
  sc_audiobuf_can_read (buf ap') = 2880
  /\ ab_content (buf ap')
     = skipn (Z.to_nat (2120 * 4)) (repeat x01 (Z.to_nat (5000 * 4))).
Proof.
  intros ap ap'.
  assert (Hok : player_ok ap) by decide_by_computation.
  assert (Hdata : audiobuf_data_ok (buf ap)).
  { split; [apply Hok|]. split; [reflexivity|].
    exact (repeat_length x00 (Z.to_nat (50400 * 4))). }
  assert (Hss : ab_sample_size (buf ap) < 2 ^ 32) by reflexivity.
  assert (Htrue : snd (fst (sc_audio_player_frame_sink_push ap (mk_frame 5000)
                              (ex_io 5000))) = true) by reflexivity.
  assert (Hout : (Z.to_nat (5000 * ab_sample_size (buf ap))
                  <= length (swr_convert_out (ex_io 5000)))%nat).
  { cbn [ex_io swr_convert_out]. rewrite repeat_length.
    apply Nat.eq_le_incl. reflexivity. }
  destruct (push_keeps_newest_samples ap (mk_frame 5000) (ex_io 5000) _ _
              Hok Hdata Hss (push_returned_true _ _ _ Htrue) Hout)
    as (_ & Hn & Hc).
  fold ap' in Hn, Hc.
  split; [rewrite Hn; reflexivity|].
  rewrite Hc, Hn.
  change (ab_content (buf ap)) with (@nil byte).
  cbn [app ex_io swr_convert_out].
  change (ab_sample_size (buf ap)) with 4.
  rewrite firstn_all2 by (rewrite repeat_length; apply Nat.le_refl).
  rewrite repeat_length. f_equal.
Defined.

(** ** The lock-free write and the callback *)

(** The callback sees of the ring its cursors and its readable bytes:
    two players that agree on them, and on the fields the callback reads,
    get the same samples and are left in states that agree again. *)
Lemma callback_reads_content (ap ap1 : sc_audio_player) (stream : list byte)
    (len_int : Z) :
  audiobuf_data_ok (buf ap) -> audiobuf_data_ok (buf ap1) ->
  ab_content (buf ap1) = ab_content (buf ap) ->
  sc_audiobuf_can_read (buf ap1) = sc_audiobuf_can_read (buf ap) ->
  ab_sample_size (buf ap1) = ab_sample_size (buf ap) ->
  target_buffering ap1 = target_buffering ap ->
  sample_rate ap1 = sample_rate ap ->
  played ap1 = played ap ->
  received ap1 = received ap ->
  avg_buffering ap1 = avg_buffering ap ->
  snd (sc_audio_player_sdl_callback ap1 stream len_int)
  = snd (sc_audio_player_sdl_callback ap stream len_int)
  /\ ab_content (buf (fst (sc_audio_player_sdl_callback ap1 stream len_int)))
     = ab_content (buf (fst (sc_audio_player_sdl_callback ap stream len_int)))
  /\ avg_buffering (fst (sc_audio_player_sdl_callback ap1 stream len_int))
     = avg_buffering (fst (sc_audio_player_sdl_callback ap stream len_int))
  /\ played (fst (sc_audio_player_sdl_callback ap1 stream len_int))
     = played (fst (sc_audio_player_sdl_callback ap stream len_int)).
Proof.
  intros Hd Hd1 Hc Hn Hs Ht Hr Hp Hrcv Ha.
  assert (Hi : initial_silence ap1 = initial_silence ap)
    by (unfold initial_silence; rewrite Hp, Hn, Hr, Ht; reflexivity).
  destruct (initial_silence ap) eqn:Hsil.
  - rewrite (callback_initial_silence ap1 _ _ Hi).
    rewrite (callback_initial_silence ap _ _ Hsil).
    cbn [fst snd]. splits; try assumption. reflexivity.
  - rewrite (callback_read ap1 _ _ (proj1 Hd1) Hi).
    rewrite (callback_read ap _ _ (proj1 Hd) Hsil).
    cbv zeta. unfold TO_SAMPLES, TO_BYTES, sc_audiobuf_to_samples,
      sc_audiobuf_to_bytes.
    rewrite Hs, Hn, Hrcv.
    set (count := u32 (size_t len_int / ab_sample_size (buf ap))).
    set (read := Z.min (sc_audiobuf_can_read (buf ap)) count).
    destruct (audiobuf_ok_can_read _ (proj1 Hd)) as [Hcr _].
    assert (Hread : 0 <= read <= sc_audiobuf_can_read (buf ap)).
    { pose proof (u32_range (size_t len_int / ab_sample_size (buf ap))).
      unfold read. fold count in H. lia. }
    assert (Hread1 : 0 <= read <= sc_audiobuf_can_read (buf ap1))
      by (rewrite Hn; exact Hread).
    assert (Hpeek : ab_peek (buf ap1) read = ab_peek (buf ap) read).
    { rewrite (peek_is_prefix _ _ Hd1 Hread1), (peek_is_prefix _ _ Hd Hread).
      rewrite Hs, Hc. reflexivity. }
    assert (Hskip : ab_content (sc_audiobuf_skip (buf ap1) read)
                    = ab_content (sc_audiobuf_skip (buf ap) read)).
    { rewrite (content_skip _ _ Hd1 Hread1), (content_skip _ _ Hd Hread).
      rewrite Hs, Hc. reflexivity. }
    rewrite Hpeek.
    destruct (read <? count); destruct (read =? 0); destruct (received ap);
      cbn [fst snd buf set_buf set_played avg_add set_avg_buffering
           avg_buffering played];
      rewrite ?Ha; splits; try reflexivity; assumption.
Qed.

(** X10: the samples that a push copies into the ring before it takes the
    lock are not seen by a callback that runs in between: the callback
    delivers the same bytes and leaves the same readable content, average
    and [played] as if the push had not begun. *)
Theorem prepared_write_hidden_from_callback :
  forall (ap : sc_audio_player) (frame : AVFrame) (io : swr_io)
         (ap1 : sc_audio_player) (r : resampled)
         (stream : list byte) (len_int : Z),
    player_ok ap -> audiobuf_data_ok (buf ap) ->
    push_resample ap frame io = (ap1, Some r) ->
    (Z.to_nat (r_samples_written r * ab_sample_size (buf ap))
     <= length (swr_convert_out io))%nat ->
    snd (sc_audio_player_sdl_callback ap1 stream len_int)
    = snd (sc_audio_player_sdl_callback ap stream len_int)
    /\ ab_content (buf (fst (sc_audio_player_sdl_callback ap1 stream len_int)))
       = ab_content (buf (fst (sc_audio_player_sdl_callback ap stream len_int)))
    /\ avg_buffering (fst (sc_audio_player_sdl_callback ap1 stream len_int))
       = avg_buffering (fst (sc_audio_player_sdl_callback ap stream len_int))
    /\ played (fst (sc_audio_player_sdl_callback ap1 stream len_int))
       = played (fst (sc_audio_player_sdl_callback ap stream len_int)).
Proof.
  intros ap frame io ap1 r stream len_int Hok Hdata Hres Hout.
  destruct (push_resample_shape _ _ _ _ _ Hres)
    as (_ & _ & Hl & Hbuf & _ & Hp & Hrcv & Ha).
  destruct (push_resample_ok _ _ _ Hok _ _ Hres)
    as (_ & (Ht & Hr & _ & Hs) & _ & _ & _ & Hn & _).
  destruct (push_resample_written _ _ _ _ _ Hres) as (Hw & _).
  pose proof Hok as (Hbok & _ & Hprev & _).
  pose proof (can_read_plus_can_write (buf ap)) as Hsum.
  destruct (audiobuf_ok_can_read _ Hbok) as [Hcr Hcap].
  unfold sc_audiobuf_capacity in Hsum.
  assert (Hd1 : audiobuf_data_ok (buf ap1)
                /\ ab_content (buf ap1) = ab_content (buf ap)).
  { rewrite Hbuf. destruct (r_lockless_write r).
    - symmetry in Hl. apply Z.leb_le in Hl. split.
      + apply audiobuf_data_ok_prepare_write; [exact Hdata|lia|exact Hout].
      + apply content_prepare_write; [exact Hdata|lia|exact Hout].
    - split; [exact Hdata|reflexivity]. }
  destruct Hd1 as [Hd1 Hc].
  apply callback_reads_content; try assumption; symmetry; assumption.
Qed.

Lemma prepared_write_hidden_from_callback_witness :
  let ap := fst (fst (sc_audio_player_frame_sink_push (ex_opened 50000)
                        (mk_frame 2000) (ex_io 2000))) in
  let ap1 := fst (push_resample ap (mk_frame 960) (ex_io 960)) in
  snd (sc_audio_player_sdl_callback ap1 (ex_stream 960) 960)
  = snd (sc_audio_player_sdl_callback ap (ex_stream 960) 960).
Proof.
  intros ap ap1.
  assert (Hok0 : player_ok (ex_opened 50000)) by decide_by_computation.
  assert (Hdata0 : audiobuf_data_ok (buf (ex_opened 50000))).
  { split; [apply Hok0|]. split; [reflexivity|].
    exact (repeat_length x00 (Z.to_nat (50400 * 4))). }
  assert (Htrue : snd (fst (sc_audio_player_frame_sink_push (ex_opened 50000)
                              (mk_frame 2000) (ex_io 2000))) = true)
    by reflexivity.
  assert (Hout0 : (Z.to_nat (2000 * 4)
                   <= length (swr_convert_out (ex_io 2000)))%nat).
  { cbn [ex_io swr_convert_out]. rewrite repeat_length.
    apply Nat.eq_le_incl. reflexivity. }
  destruct (push_content (ex_opened 50000) (mk_frame 2000) (ex_io 2000) _ _
              Hok0 Hdata0 eq_refl (push_returned_true _ _ _ Htrue) Hout0)
    as (Hdata & _).
  fold ap in Hdata.
  assert (Hok : player_ok ap) by decide_by_computation.
  assert (Hr : snd (push_resample ap (mk_frame 960) (ex_io 960))
               = Some {| r_swr_buf := repeat x01 (Z.to_nat (960 * 4));
                         r_samples_written := 960;
                         r_lockless_write := true;
                         r_nb_samples := 960 |}) by reflexivity.
  assert (Hout : (Z.to_nat (960 * ab_sample_size (buf ap))
                  <= length (swr_convert_out (ex_io 960)))%nat).
  { cbn [ex_io swr_convert_out]. rewrite repeat_length.
    apply Nat.eq_le_incl. reflexivity. }
  exact (proj1 (prepared_write_hidden_from_callback ap (mk_frame 960)
                  (ex_io 960) ap1 _ (ex_stream 960) 960 Hok Hdata
                  (push_resample_returned _ _ _ _ Hr) Hout)).
Defined.

(** ** Frames that never need the slow path *)

Lemma push_resample_previous_can_write (ap : sc_audio_player)
    (frame : AVFrame) (io : swr_io) :
  previous_can_write (fst (push_resample ap frame io))
  = previous_can_write ap.
Proof.
  unfold push_resample.
  destruct (sc_audio_player_get_swr_buf ap _ _) as [ap1 ok] eqn:Hg.
  destruct (get_swr_buf_frame _ _ _ _ _ Hg) as [Hfr _].
  assert (H : previous_can_write ap1 = previous_can_write ap)
    by (rewrite Hfr; reflexivity).
  destruct ok; cbn [negb]; [|exact H].
  destruct (swr_convert io <? 0); [exact H|].
  destruct (_ <=? _); exact H.
Qed.

(** The locked part of a push leaves [previous_can_write] at the room
    there is in the ring, which the cap keeps above
    [capacity - max_buffered]. *)
Lemma push_locked_previous_can_write (ap : sc_audio_player) (r : resampled) :
  player_ok ap -> resampled_ok ap r ->
  ab_capacity (buf ap) - max_buffered ap
  <= previous_can_write (fst (push_locked ap r)).
Proof.
  intros Hok Hr. unfold push_locked.
  destruct (push_store ap r) as [[ap1 w] b] eqn:Hst.
  destruct (push_store_ok _ _ Hok Hr _ _ _ Hst)
    as (Hok1 & Hb & _ & Hsame & _ & Hp).
  assert (Hc : config_ok ap1)
    by (apply (config_ok_same ap); [exact Hsame|apply Hok]).
  destruct (push_bound_ok ap1 (r_nb_samples r) w b Hok1 Hc Hb _ _
              (surjective_pairing _)) as (_ & _ & Hn & Hpcw & _ & Hsame' & _).
  rewrite Hpcw. unfold sc_audiobuf_can_write. rewrite Hn.
  destruct Hsame as (Ht & Hs & Hcap & _).
  destruct Hsame' as (_ & _ & Hcap' & _).
  rewrite <- Hcap', <- Hcap.
  pose proof (max_initial_le_max_buffered _ Hc) as Hle.
  assert (Hcapb : buffering_cap ap1 <= max_buffered ap).
  { unfold buffering_cap. replace (max_buffered ap) with (max_buffered ap1)
      by (unfold max_buffered; rewrite Ht, Hs; reflexivity).
    destruct (played ap1); lia. }
  lia.
Qed.

Lemma step_headroom (s : session) (a : action) :
  session_ok s ->
  ab_capacity (buf (fst s)) - max_buffered (fst s)
    <= previous_can_write (fst s) ->
  ab_capacity (buf (fst s)) - max_buffered (fst s)
    <= previous_can_write (fst (step s a)).
Proof.
  destruct s as [ap p]. intros [Hok Hp] Hh. cbn [fst snd] in *.
  destruct a as [stream len_int|frame io| |]; unfold step; cbn [fst snd].
  - destruct (callback_ok ap stream len_int Hok) as (_ & _ & Hpcw).
    rewrite Hpcw. exact Hh.
  - destruct p as [|r|u]; try exact Hh.
    pose proof (push_resample_previous_can_write ap frame io) as Hpcw.
    destruct (push_resample ap frame io) as [ap1 [r|]]; cbn [fst] in *;
      rewrite Hpcw; exact Hh.
  - destruct p as [|r|u]; try exact Hh.
    cbn [producer_ok] in Hp.
    pose proof (push_locked_previous_can_write ap r Hok Hp) as Hpcw.
    destruct (push_locked ap r) as [ap1 u]. exact Hpcw.
  - destruct p as [|r|u]; try exact Hh.
    cbn [producer_ok fst] in *.
    destruct (push_resync_ok ap u Hok Hp) as (_ & _ & Hpcw).
    rewrite Hpcw. exact Hh.
Qed.

Lemma max_buffered_same (a b : sc_audio_player) :
  same_config a b ->
  ab_capacity (buf a) - max_buffered a = ab_capacity (buf b) - max_buffered b.
Proof.
  intros (Ht & Hs & Hc & _). unfold max_buffered. rewrite Ht, Hs, Hc.
  reflexivity.
Qed.

Lemma run_headroom (l : list action) :
  forall s : session,
    session_ok s ->
    ab_capacity (buf (fst s)) - max_buffered (fst s)
      <= previous_can_write (fst s) ->
    ab_capacity (buf (fst s)) - max_buffered (fst s)
      <= previous_can_write (fst (run s l)).
Proof.
  induction l as [|a l IH]; intros s Hs Hh; cbn [run fold_left].
  - exact Hh.
  - rewrite (max_buffered_same _ _ (step_same_config s a Hs)).
    apply IH; [apply step_ok; exact Hs|].
    rewrite <- (max_buffered_same _ _ (step_same_config s a Hs)).
    apply step_headroom; assumption.
Qed.

(** X11: in a session that starts with at least [capacity - max_buffered]
    samples known to be writable (as it does after [open], where this is
    the whole ring), a frame that resamples to no more than
    [capacity - max_buffered] samples is always copied without the lock,
    whatever pushes and callbacks came before: the slow path is for larger
    frames only. *)
Theorem ordinary_frame_written_lock_free :
  forall (s : session) (l : list action) (r : resampled),
    session_ok s ->
    ab_capacity (buf (fst s)) - max_buffered (fst s)
      <= previous_can_write (fst s) ->
    snd (run s l) = Resampled r ->
    r_samples_written r
      <= ab_capacity (buf (fst s)) - max_buffered (fst s) ->
    r_lockless_write r = true.
Proof.
  intros s l r Hs Hh Hr Hw.
  pose proof (run_headroom l s Hs Hh) as Hh'.
  destruct (run_ok l s Hs) as [_ Hp]. rewrite Hr in Hp.
  destruct Hp as (_ & Hlock). rewrite Hlock.
  apply Z.leb_le. lia.
Qed.

Lemma ordinary_frame_written_lock_free_witness :
  let l := concat (repeat (ex_push 960) 4)
           ++ [Callback (ex_stream 960) 960;
               PushResample (mk_frame 44880) (ex_io 44880)] in
  r_lockless_write
    {| r_swr_buf := repeat x01 (Z.to_nat (44880 * 4));
       r_samples_written := 44880;
       r_lockless_write := true;
       r_nb_samples := 44880 |} = true.
Proof.
  intros l.
  apply (ordinary_frame_written_lock_free (ex_opened 50000, Idle) l).
  - split; [decide_by_computation|exact I].
  - discriminate.
  - reflexivity.
  - discriminate.
Defined.

(** ** From the push to the callback *)

(** X12: what is pushed is what is played, in the order it was pushed: if
    a push drops nothing (what was buffered and the frame together fit
    the ring and the cap that applies) and the next callback asks for no
    more than is buffered and is not kept silent by the initial
    buffering, the callback fills its buffer with the first bytes of what
    was buffered before the push followed by the samples of the frame. *)
Theorem pushed_samples_played_in_order :
  forall (ap : sc_audio_player) (frame : AVFrame) (io : swr_io)
         (ap' : sc_audio_player) (evs : list event)
         (stream : list byte) (len_int : Z),
    player_ok ap -> audiobuf_data_ok (buf ap) ->
    ab_sample_size (buf ap) < 2 ^ 32 ->
    sc_audio_player_frame_sink_push ap frame io = (ap', true, evs) ->
    let written :=
      u32 (MIN (swr_convert io)
             (i32 (swr_get_delay io + nb_samples frame + 256))) in
    let buffered := sc_audiobuf_can_read (buf ap) + written in
    (Z.to_nat (written * ab_sample_size (buf ap))
     <= length (swr_convert_out io))%nat ->
    buffered <= sc_audiobuf_capacity (buf ap) ->
    buffered <= buffering_cap ap ->
    initial_silence ap' = false ->
    0 < len_int < 2 ^ 31 ->
    len_int mod ab_sample_size (buf ap) = 0 ->
    length stream = Z.to_nat len_int ->
    len_int / ab_sample_size (buf ap) <= buffered ->
    snd (sc_audio_player_sdl_callback ap' stream len_int)
    = firstn (Z.to_nat len_int)
        (ab_content (buf ap)
         ++ firstn (Z.to_nat (written * ab_sample_size (buf ap)))
              (swr_convert_out io)).
Proof.
  intros ap frame io ap' evs stream len_int Hok Hdata Hss Hpush written
    buffered Hout Hcap Hbcap Hsil Hlen Hmod Hstream Hask.
  destruct (push_content ap frame io ap' evs Hok Hdata Hss Hpush Hout)
    as (Hdata' & Hn & Hc).
  fold written in Hn, Hc. fold buffered in Hn.
  rewrite !Z.min_l in Hn by lia.
  assert (Hss' : ab_sample_size (buf ap') = ab_sample_size (buf ap)).
  { destruct (push_resample ap frame io) as [ap1 [r|]] eqn:Hres;
      [|unfold sc_audio_player_frame_sink_push in Hpush;
        rewrite Hres in Hpush; discriminate Hpush].
    rewrite (push_success _ _ _ _ _ Hres) in Hpush.
    injection Hpush as <- _. rewrite push_resync_buf.
    destruct (push_resample_ok _ _ _ Hok _ _ Hres)
      as (Hok1 & (_ & _ & _ & Hs1) & _ & _ & _ & _ & Hr).
    destruct (Hr r eq_refl) as [Hrok _].
    destruct (push_locked_ok _ _ Hok1 Hrok _ _ (surjective_pairing _))
      as (_ & _ & (_ & _ & _ & Hs2) & _).
    congruence. }
  destruct (callback_delivers_oldest ap' stream len_int Hdata' Hsil Hlen)
    as [Hplay _]; try (rewrite Hss'); try assumption.
  - rewrite Hn. exact Hask.
  - rewrite Hplay, Hc, Hn. f_equal.
    replace (length _ - _)%nat with 0%nat; [reflexivity|].
    rewrite length_app, length_firstn, (content_length _ Hdata).
    rewrite Nat.min_l by exact Hout.
    destruct (audiobuf_ok_can_read _ (proj1 Hdata)) as [Hcr _].
    pose proof (u32_range (MIN (swr_convert io)
       (i32 (swr_get_delay io + nb_samples frame + 256)))) as Hwr.
    fold written in Hwr.
    pose proof Hdata as ((Hss0 & _) & _).
    rewrite to_nat_mul_add by lia. fold buffered.
    symmetry. apply Nat.sub_diag.
Qed.

Lemma pushed_samples_played_in_order_witness :
  let ap := ex_opened 50000 in
  let ap' := fst (fst (sc_audio_player_frame_sink_push ap (mk_frame 2000)
                         (ex_io 2000))) in
  snd (sc_audio_player_sdl_callback ap' (ex_stream 960) 960)
  = repeat x01 (Z.to_nat 960).
Proof.
  intros ap ap'.
  assert (Hok : player_ok ap) by decide_by_computation.
  assert (Hdata : audiobuf_data_ok (buf ap)).
  { split; [apply Hok|]. split; [reflexivity|].
    exact (repeat_length x00 (Z.to_nat (50400 * 4))). }
  assert (Htrue : snd (fst (sc_audio_player_frame_sink_push ap (mk_frame 2000)
                              (ex_io 2000))) = true) by reflexivity.
  assert (Hout : (Z.to_nat (2000 * ab_sample_size (buf ap))
                  <= length (swr_convert_out (ex_io 2000)))%nat).
  { cbn [ex_io swr_convert_out]. rewrite repeat_length.
    apply Nat.eq_le_incl. reflexivity. }
  assert (Hcap : 0 + 2000 <= sc_audiobuf_capacity (buf ap)) by discriminate.
  assert (Hbcap : 0 + 2000 <= buffering_cap ap) by discriminate.
  assert (Hsil : initial_silence ap' = false) by reflexivity.
  assert (Hlen : 0 < 960 < 2 ^ 31) by (split; reflexivity).
  assert (Hask : 960 / ab_sample_size (buf ap) <= 0 + 2000) by discriminate.
  rewrite (pushed_samples_played_in_order ap (mk_frame 2000) (ex_io 2000)
             ap' _ (ex_stream 960) 960 Hok Hdata eq_refl
             (push_returned_true _ _ _ Htrue) Hout Hcap Hbcap Hsil Hlen
             eq_refl (repeat_length xaa (Z.to_nat 960)) Hask).
  reflexivity.
Defined.

(** ** The callback and the bounds of its buffer *)

Lemma length_memset0 (s : list byte) (off n : Z) :
  0 <= off -> 0 <= n -> (Z.to_nat (off + n) <= length s)%nat ->
  length (memset0 s off n) = length s.
Proof.
  intros Hoff Hn Hfit. unfold memset0. apply length_blit.
  rewrite repeat_length. lia.
Qed.

(** X13: the callback writes inside the [len_int] bytes it is given, in
    each of its branches: the buffer it leaves has the length of the one
    it got, also when the ring runs short and the fill with silence
    starts at byte [read]. *)
Theorem callback_stays_within_stream :
  forall (ap : sc_audio_player) (stream : list byte) (len_int : Z),
    audiobuf_data_ok (buf ap) ->
    0 <= len_int < 2 ^ 31 ->
    length stream = Z.to_nat len_int ->
    length (snd (sc_audio_player_sdl_callback ap stream len_int))
    = length stream.
Proof.
  intros ap stream len_int Hdata Hlen Hstream.
  pose proof Hdata as ((Hss & _) & _).
  destruct (audiobuf_ok_can_read _ (proj1 Hdata)) as [Hcr Hcap].
  assert (Hsz : size_t len_int = len_int).
  { unfold size_t. apply Z.mod_small.
    change (2 ^ 64) with (2 ^ 31 * 2 ^ 33). lia. }
  destruct (initial_silence ap) eqn:Hsil.
  - rewrite (callback_initial_silence _ _ _ Hsil). cbn [snd].
    rewrite Hsz. apply length_memset0; lia.
  - rewrite (callback_read _ _ _ (proj1 Hdata) Hsil). cbv zeta.
    unfold TO_SAMPLES, TO_BYTES, sc_audiobuf_to_samples, sc_audiobuf_to_bytes.
    rewrite Hsz.
    set (ss := ab_sample_size (buf ap)) in *.
    assert (Hq : 0 <= len_int / ss) by (apply Z.div_pos; lia).
    assert (Hqs : len_int / ss * ss <= len_int)
      by (rewrite Z.mul_comm; apply Z.mul_div_le; lia).
    assert (Hqle : len_int / ss <= len_int)
      by (apply Z.div_le_upper_bound; nia).
    rewrite (u32_small (len_int / ss)) by lia.
    set (count := len_int / ss) in *.
    set (read := Z.min (sc_audiobuf_can_read (buf ap)) count).
    assert (Hread : 0 <= read <= count) by (unfold read; lia).
    assert (Hrcap : 0 <= read <= ab_capacity (buf ap))
      by (unfold read; lia).
    assert (Hrs : read * ss <= count * ss)
      by (apply Z.mul_le_mono_nonneg_r; lia).
    assert (Hrs0 : 0 <= read * ss) by (apply Z.mul_nonneg_nonneg; lia).
    assert (H1 : length (if read =? 0 then stream
                         else blit stream 0 (ab_peek (buf ap) read))
                 = length stream).
    { destruct (read =? 0); [reflexivity|].
      apply length_blit. rewrite (ab_peek_length _ Hdata) by exact Hrcap.
      fold ss. lia. }
    destruct (read <? count); cbn [snd]; [|exact H1].
    rewrite length_memset0; [exact H1|lia| |].
    + unfold size_t. apply Z.mod_pos_bound. reflexivity.
    + rewrite H1, Hstream.
      assert (Hd : 0 <= (count - read) * ss)
        by (apply Z.mul_nonneg_nonneg; lia).
      unfold size_t. rewrite Z.mod_small
        by (change (2 ^ 64) with (2 ^ 31 * 2 ^ 33); nia).
      apply Z2Nat.inj_le; nia.
Qed.

Lemma callback_stays_within_stream_witness :
  length (snd (sc_audio_player_sdl_callback (ex_opened 50000)
                 (ex_stream 960) 960))
  = length (ex_stream 960).
Proof.
  assert (Hok : player_ok (ex_opened 50000)) by decide_by_computation.
  apply callback_stays_within_stream.
  - split; [apply Hok|]. split; [reflexivity|].
    exact (repeat_length x00 (Z.to_nat (50400 * 4))).
  - split; [discriminate|reflexivity].
  - exact (repeat_length xaa (Z.to_nat 960)).
Defined.

(** ** The resources of [open] and [close] *)


(** ** The decoder: big-endian fields *)

Lemma byte_val_range (c : byte) : 0 <= byte_val c < 256.
Proof.
  unfold byte_val. pose proof (Strings.Byte.to_N_bounded c). lia.
Qed.

Lemma byte_val_inj (c d : byte) : byte_val c = byte_val d -> c = d.
Proof.
  unfold byte_val. intros H. apply N2Z.inj in H.
  pose proof (Strings.Byte.of_to_N c) as Hc.
  pose proof (Strings.Byte.of_to_N d) as Hd.
  rewrite H in Hc. congruence.
Qed.

(** One turn of the loop of [from_be], as arithmetic. *)
Lemma from_be_step (x : Z) (c : byte) :
  0 <= x ->
  Z.lor (u64 (Z.shiftl x 8)) (byte_val c) = u64 (x * 256 + byte_val c).
Proof.
  intros Hx. pose proof (byte_val_range c) as Hc.
  unfold u64. rewrite Z.shiftl_mul_pow2 by lia. change (2 ^ 8) with 256.
  assert (Hm : (x * 256) mod 2 ^ 64 = (x mod 2 ^ 56) * 256).
  { change (2 ^ 64) with (2 ^ 56 * 256).
    apply Z.mul_mod_distr_r; lia. }
  pose proof (Z.mod_pos_bound x (2 ^ 56) eq_refl) as Hb.
  assert (Hsum : (x * 256 + byte_val c) mod 2 ^ 64
                 = (x mod 2 ^ 56) * 256 + byte_val c).
  { rewrite <- Zplus_mod_idemp_l, Hm. apply Z.mod_small.
    change (2 ^ 64) with (2 ^ 56 * 256). lia. }
  rewrite Hm, Hsum.
  rewrite <- Z.lxor_lor, <- Z.add_nocarry_lxor; try reflexivity.
  - apply Z.bits_inj'. intros n Hn. rewrite Z.land_spec, Z.bits_0.
    destruct (Z.lt_ge_cases n 8) as [Hlt|Hge].
    + change 256 with (2 ^ 8). rewrite Z.mul_pow2_bits_low by exact Hlt.
      reflexivity.
    + rewrite <- (Z.mod_small (byte_val c) (2 ^ 8)) by exact Hc.
      rewrite Z.mod_pow2_bits_high by lia. apply andb_false_r.
  - apply Z.bits_inj'. intros n Hn. rewrite Z.land_spec, Z.bits_0.
    destruct (Z.lt_ge_cases n 8) as [Hlt|Hge].
    + change 256 with (2 ^ 8). rewrite Z.mul_pow2_bits_low by exact Hlt.
      reflexivity.
    + rewrite <- (Z.mod_small (byte_val c) (2 ^ 8)) by exact Hc.
      rewrite Z.mod_pow2_bits_high by lia. apply andb_false_r.
Qed.

Lemma be_value_app (l : list byte) (c : byte) :
  be_value (l ++ [c]) = be_value l * 256 + byte_val c.
Proof. unfold be_value. rewrite fold_left_app. reflexivity. Qed.

Lemma be_value_range (l : list byte) :
  0 <= be_value l < 2 ^ (8 * Z.of_nat (length l)).
Proof.
  induction l as [|c l IH] using rev_ind.
  - cbn. lia.
  - rewrite be_value_app, length_app. cbn [length].
    pose proof (byte_val_range c) as Hc.
    replace (8 * Z.of_nat (length l + 1)) with (8 * Z.of_nat (length l) + 8)
      by lia.
    rewrite Z.pow_add_r by lia. change (2 ^ 8) with 256. lia.
Qed.

Lemma from_be_fold (l : list byte) :
  fold_left (fun x c => Z.lor (u64 (Z.shiftl x 8)) (byte_val c)) l 0
  = u64 (be_value l).
Proof.
  induction l as [|c l IH] using rev_ind.
  - reflexivity.
  - rewrite fold_left_app, be_value_app. cbn [fold_left]. rewrite IH.
    rewrite from_be_step by (unfold u64; apply Z.mod_pos_bound; reflexivity).
    unfold u64. rewrite <- (Zplus_mod_idemp_l (_ * 256)).
    rewrite <- (Zmult_mod_idemp_l (_ mod _)), Z.mod_mod by discriminate.
    rewrite Zmult_mod_idemp_l, Zplus_mod_idemp_l. reflexivity.
Qed.

Lemma be_value_inj (l1 : list byte) :
  forall l2 : list byte,
    length l1 = length l2 -> be_value l1 = be_value l2 -> l1 = l2.
Proof.
  induction l1 as [|c l1 IH] using rev_ind; intros l2 Hlen Hv.
  - destruct l2; [reflexivity|discriminate Hlen].
  - destruct l2 as [|d l2 _] using rev_ind.
    + rewrite length_app in Hlen. cbn in Hlen. lia.
    + rewrite !length_app in Hlen. cbn [length] in Hlen.
      rewrite !be_value_app in Hv.
      pose proof (byte_val_range c) as Hc.
      pose proof (byte_val_range d) as Hd.
      assert (Heq : be_value l1 = be_value l2 /\ byte_val c = byte_val d)
        by lia.
      destruct Heq as [H1 H2].
      rewrite (IH l2) by (exact H1 || lia).
      rewrite (byte_val_inj _ _ H2). reflexivity.
Qed.

(** X15: [from_be(b, size)] is the number that the first [size] bytes at
    [b] write in base 256, most significant byte first, cut to 64 bits;
    for a [size] of 0 or less it is 0. *)
Theorem from_be_big_endian :
  forall (b : list byte) (size : Z),
    from_be b size = be_value (firstn (Z.to_nat size) b) mod 2 ^ 64
    /\ (size <= 0 -> from_be b size = 0).
Proof.
  intros b size. unfold from_be. split.
  - apply from_be_fold.
  - intros Hs. replace (Z.to_nat size) with 0%nat by lia. reflexivity.
Qed.

(** X16: up to 8 bytes, [from_be] loses nothing: the result is below
    [2 ^ (8 * size)], and two buffers that decode to the same number start
    with the same [size] bytes. *)
Theorem from_be_lossless :
  forall (b1 b2 : list byte) (size : Z),
    0 <= size <= 8 ->
    (Z.to_nat size <= length b1)%nat ->
    (Z.to_nat size <= length b2)%nat ->
    0 <= from_be b1 size < 2 ^ (8 * size)
    /\ (from_be b1 size = from_be b2 size ->
        firstn (Z.to_nat size) b1 = firstn (Z.to_nat size) b2).
Proof.
  intros b1 b2 size Hs H1 H2.
  assert (Hsmall : forall b : list byte,
            (Z.to_nat size <= length b)%nat ->
            from_be b size = be_value (firstn (Z.to_nat size) b)
            /\ 0 <= from_be b size < 2 ^ (8 * size)).
  { intros b Hb. unfold from_be. rewrite from_be_fold.
    pose proof (be_value_range (firstn (Z.to_nat size) b)) as Hr.
    rewrite length_firstn, Nat.min_l in Hr by exact Hb.
    rewrite Z2Nat.id in Hr by lia.
    assert (Hp : 2 ^ (8 * size) <= 2 ^ 64)
      by (apply Z.pow_le_mono_r; lia).
    unfold u64. rewrite Z.mod_small by lia. split; [reflexivity|exact Hr]. }
  destruct (Hsmall b1 H1) as [Hv1 Hr1].
  destruct (Hsmall b2 H2) as [Hv2 _].
  split; [exact Hr1|].
  rewrite Hv1, Hv2. apply be_value_inj.
  rewrite !length_firstn. lia.
Qed.

Lemma from_be_lossless_witness :
  0 <= from_be [x00; x00; x01; x02] 4 < 2 ^ (8 * 4)
  /\ (from_be [x00; x00; x01; x02] 4 = from_be [x00; x00; x01; x02; xff] 4 ->
      firstn (Z.to_nat 4) [x00; x00; x01; x02]
      = firstn (Z.to_nat 4) [x00; x00; x01; x02; xff]).
Proof.
  apply from_be_lossless.
  - split; discriminate.
  - apply Nat.leb_le. reflexivity.
  - apply Nat.leb_le. reflexivity.
Defined.
